(** * J-Discord-AI-Core: gateway client, event system and AI engine

    A shallow embedding of three modules of the repository,

    - [modules/discord-client.js]  (class [DiscordClient])
    - [modules/event-system.js]    (class [EventSystem])
    - [modules/ai-engine.js]       (class [AIEngine])

    together with the properties of the networking and event core that
    are stated about them.  Objects become records, [Map]s become
    [gmap]s, arrays become lists; [async] methods become state-passing
    functions that return a completion (normal value or thrown value);
    callables handed in by the user (handlers, filters, middleware,
    network peers) are read from an explicit environment. *)

From Stdlib Require Import ZArith Lia Ascii String List Sorted Permutation.
From stdpp Require Import base option list sorting gmap strings.

Local Open Scope string_scope.
Local Open Scope list_scope.
Local Open Scope Z_scope.

Set Warnings "-register-all".

(** ** JavaScript helpers shared by the three modules *)

Module JS.

(** A completion record: the result of running a statement list. *)
Inductive Completion (E A : Type) : Type :=
| Normal (a : A)
| Throw (e : E).
Arguments Normal {E A} a.
Arguments Throw {E A} e.

Definition is_normal {E A} (c : Completion E A) : bool :=
  match c with Normal _ => true | Throw _ => false end.

(** [x || d] on numbers, where [None] stands for [NaN]/[undefined]:
    both [0] and [NaN] are falsy. *)
Definition num_or (x : option Z) (d : Z) : Z :=
  match x with
  | Some z => if z =? 0 then d else z
  | None => d
  end.

(** [x || d] on strings: [undefined] and the empty string are falsy. *)
Definition str_or (x : option string) (d : string) : string :=
  match x with
  | Some EmptyString => d
  | Some s => s
  | None => d
  end.

(** [x || false] on booleans. *)
Definition bool_or (x : option bool) (d : bool) : bool :=
  match x with
  | Some true => true
  | _ => d
  end.

Definition ascii_eqb (a b : ascii) : bool := Ascii.eqb a b.

(** [s.split(sep)] for a one-character separator. *)
Fixpoint split (sep : ascii) (s : string) : list string :=
  match s with
  | EmptyString => [EmptyString]
  | String c r =>
      if ascii_eqb c sep then EmptyString :: split sep r
      else match split sep r with
           | [] => [String c EmptyString]
           | h :: t => String c h :: t
           end
  end.

(** [l.join(sep)]. *)
Fixpoint join (sep : string) (l : list string) : string :=
  match l with
  | [] => EmptyString
  | [x] => x
  | x :: r => x +:+ sep +:+ join sep r
  end.

(** [l.slice(0, n)]. *)
Definition slice0 {A} (n : nat) (l : list A) : list A := take n l.

(** ASCII part of [String.prototype.toLowerCase]. *)
Definition lower_ascii (c : ascii) : ascii :=
  let n := nat_of_ascii c in
  if ((65 <=? n)%nat && (n <=? 90)%nat)%bool then ascii_of_nat (n + 32) else c.

Fixpoint toLowerCase (s : string) : string :=
  match s with
  | EmptyString => EmptyString
  | String c r => String (lower_ascii c) (toLowerCase r)
  end.

(** [hay.includes(needle)]. *)
Fixpoint includes (needle hay : string) : bool :=
  if String.prefix needle hay then true
  else match hay with
       | EmptyString => false
       | String _ r => includes needle r
       end.

(** White space skipped by [parseInt] (ASCII part of StrWhiteSpaceChar). *)
Definition is_space (c : ascii) : bool :=
  let n := nat_of_ascii c in
  ((n =? 32) || (n =? 9) || (n =? 10) || (n =? 11) || (n =? 12) || (n =? 13))%nat.

Fixpoint skip_space (s : string) : string :=
  match s with
  | String c r => if is_space c then skip_space r else s
  | EmptyString => EmptyString
  end.

(** Value of a digit in the given radix (10 or 16 here). *)
Definition digit_val (radix : Z) (c : ascii) : option Z :=
  let n := Z.of_nat (nat_of_ascii c) in
  let v :=
    if (48 <=? n) && (n <=? 57) then Some (n - 48)
    else if (97 <=? n) && (n <=? 122) then Some (n - 87)
    else if (65 <=? n) && (n <=? 90) then Some (n - 55)
    else None in
  match v with
  | Some d => if d <? radix then Some d else None
  | None => None
  end.

(** Longest prefix of digits; [None] when there is no digit at all. *)
Fixpoint parse_digits (radix : Z) (s : string) (acc : option Z) : option Z :=
  match s with
  | EmptyString => acc
  | String c r =>
      match digit_val radix c with
      | Some d => parse_digits radix r (Some (default 0 acc * radix + d))
      | None => acc
      end
  end.

(** [parseInt(s)] without a radix argument: leading white space, an
    optional sign, an optional [0x]/[0X] prefix, then the longest run
    of digits.  [None] is [NaN]. *)
Definition parseInt (s : string) : option Z :=
  let s1 := skip_space s in
  let '(sign, s2) :=
    match s1 with
    | String "-"%char r => (-1, r)
    | String "+"%char r => (1, r)
    | _ => (1, s1)
    end in
  let '(radix, s3) :=
    match s2 with
    | String "0"%char (String "x"%char r) => (16, r)
    | String "0"%char (String "X"%char r) => (16, r)
    | _ => (10, s2)
    end in
  Z.mul sign <$> parse_digits radix s3 None.

(** [String(v)] for a value that is a string or [null]. *)
Definition string_of_nullable (o : option string) : string :=
  match o with Some s => s | None => "null" end.

(** Decimal rendering of an integer, as in a template literal. *)
Fixpoint digits_of_pos (fuel : nat) (n : Z) (acc : string) : string :=
  match fuel with
  | O => acc
  | S f =>
      let d := ascii_of_nat (Z.to_nat (48 + n mod 10)) in
      if n <? 10 then String d acc else digits_of_pos f (n / 10) (String d acc)
  end.

Definition string_of_Z (z : Z) : string :=
  if z <? 0 then String "-"%char (digits_of_pos (Z.to_nat (Z.log2 (- z)) + 1) (- z) EmptyString)
  else digits_of_pos (Z.to_nat (Z.log2 z) + 1) z EmptyString.

End JS.

(** ** [modules/discord-client.js]: class [DiscordClient]

    The fields of a client fall in two groups that no method shares:
    the gateway session ([ws], [sessionId], [lastSequence], the caches)
    and the REST side ([rateLimits]).  Each group is a record; the clock
    [Date.now()] and what reaches the network are part of the REST
    record, because the rate limiter reads the one and gates the other. *)

Module DiscordClient.
Import JS.

Record Channel := { channel_id : string; channel_name : string }.

Record Guild := { guild_id : string; guild_channels : option (list Channel) }.

(** The [d] member of a gateway packet, by the shapes the handlers read. *)
Inductive Payload :=
| PNull
| PHello (heartbeat_interval : Z)
| PReady (ready_user : string) (session_id : string) (ready_guilds : list Guild)
| PGuild (g : Guild)
| PData (raw : string).

(** [{ op, d, s, t }]; [s] and [t] are [null] on non-dispatch frames. *)
Record Packet := { op : Z; d : Payload; s : option Z; t : option string }.

(** Frames written to the socket by the methods modelled here. *)
Inductive Frame :=
| Heartbeat (seq : option Z).

Record Session := {
  user : option string;
  guilds : gmap string Guild;
  channels : gmap string Channel;
  ws_open : bool;                       (* this.ws && this.ws.readyState === 1 *)
  sessionId : option string;
  lastSequence : option Z;
  heartbeatInterval : option Z;         (* period of the timer whose handle is stored *)
  timers : list (Z * Z);                (* running interval timers, oldest first:
                                           period, and time left to the next call *)
  error_listener : bool;                (* a listener is attached to the event 'error' *)
  connected : bool;
  sent : list Frame;                    (* what ws.send received, oldest first *)
  emitted : list (string * Payload)     (* what this.emit received, oldest first *)
}.

Definition constructor : Session :=
  {| user := None; guilds := ∅; channels := ∅; ws_open := false;
     sessionId := None; lastSequence := None; heartbeatInterval := None;
     timers := []; error_listener := false;
     connected := false; sent := []; emitted := [] |}.

Definition set_lastSequence (v : option Z) (c : Session) : Session :=
  {| user := user c; guilds := guilds c; channels := channels c; ws_open := ws_open c;
     sessionId := sessionId c; lastSequence := v; heartbeatInterval := heartbeatInterval c;
     timers := timers c; error_listener := error_listener c;
     connected := connected c; sent := sent c; emitted := emitted c |}.

Definition set_heartbeatInterval (v : option Z) (c : Session) : Session :=
  {| user := user c; guilds := guilds c; channels := channels c; ws_open := ws_open c;
     sessionId := sessionId c; lastSequence := lastSequence c; heartbeatInterval := v;
     timers := timers c; error_listener := error_listener c;
     connected := connected c; sent := sent c; emitted := emitted c |}.

Definition set_timers (v : list (Z * Z)) (c : Session) : Session :=
  {| user := user c; guilds := guilds c; channels := channels c; ws_open := ws_open c;
     sessionId := sessionId c; lastSequence := lastSequence c;
     heartbeatInterval := heartbeatInterval c;
     timers := v; error_listener := error_listener c;
     connected := connected c; sent := sent c; emitted := emitted c |}.

Definition set_guilds (v : gmap string Guild) (c : Session) : Session :=
  {| user := user c; guilds := v; channels := channels c; ws_open := ws_open c;
     sessionId := sessionId c; lastSequence := lastSequence c;
     heartbeatInterval := heartbeatInterval c;
     timers := timers c; error_listener := error_listener c;
     connected := connected c; sent := sent c; emitted := emitted c |}.

Definition set_channels (v : gmap string Channel) (c : Session) : Session :=
  {| user := user c; guilds := guilds c; channels := v; ws_open := ws_open c;
     sessionId := sessionId c; lastSequence := lastSequence c;
     heartbeatInterval := heartbeatInterval c;
     timers := timers c; error_listener := error_listener c;
     connected := connected c; sent := sent c; emitted := emitted c |}.

Definition set_ready (u sid : string) (c : Session) : Session :=
  {| user := Some u; guilds := guilds c; channels := channels c; ws_open := ws_open c;
     sessionId := Some sid; lastSequence := lastSequence c;
     heartbeatInterval := heartbeatInterval c;
     timers := timers c; error_listener := error_listener c;
     connected := true; sent := sent c; emitted := emitted c |}.

Definition ws_send (f : Frame) (c : Session) : Session :=
  {| user := user c; guilds := guilds c; channels := channels c; ws_open := ws_open c;
     sessionId := sessionId c; lastSequence := lastSequence c;
     heartbeatInterval := heartbeatInterval c;
     timers := timers c; error_listener := error_listener c;
     connected := connected c; sent := sent c ++ [f]; emitted := emitted c |}.

(** [this.on(name, listener)] of the inherited [EventEmitter]:
    subscribers are outside this class; what the class depends on is
    whether the event [error] has one. *)
Definition on (name : string) (c : Session) : Session :=
  {| user := user c; guilds := guilds c; channels := channels c; ws_open := ws_open c;
     sessionId := sessionId c; lastSequence := lastSequence c;
     heartbeatInterval := heartbeatInterval c;
     timers := timers c;
     error_listener := String.eqb name "error" || error_listener c;
     connected := connected c; sent := sent c; emitted := emitted c |}.

(** The call [this.emit(name, data)] of the inherited [EventEmitter],
    recorded. *)
Definition record_emit (name : string) (data : Payload) (c : Session) : Session :=
  {| user := user c; guilds := guilds c; channels := channels c; ws_open := ws_open c;
     sessionId := sessionId c; lastSequence := lastSequence c;
     heartbeatInterval := heartbeatInterval c;
     timers := timers c; error_listener := error_listener c;
     connected := connected c; sent := sent c; emitted := emitted c ++ [(name, data)] |}.

(** [this.emit(name, data)]; subscribers are outside this class, the
    call is recorded. *)
Definition emit (name : string) (data : Payload) (c : Session) : Session :=
  record_emit name data c.

(** [this.emit(name, data)] with a name that is not a literal of the
    class: an [EventEmitter] throws when it is asked to emit [error]
    and no listener is attached to that event. *)
Definition emit_named (name : string) (data : Payload) (c : Session)
  : Completion string unit * Session :=
  if String.eqb name "error" && negb (error_listener c)
  then (Throw "ERR_UNHANDLED_ERROR", record_emit name data c)
  else (Normal tt, record_emit name data c).

(** Truthiness of the [s] member: [null] and [0] are falsy. *)
Definition seq_truthy (v : option Z) : bool :=
  match v with
  | Some z => negb (z =? 0)
  | None => false
  end.

Definition sendHeartbeat (c : Session) : Session :=
  if ws_open c then ws_send (Heartbeat (lastSequence c)) c else c.

(** The period that [setInterval(f, ms)] runs with: an absent or
    out-of-range delay is one millisecond. *)
Definition interval_period (ms : option Z) : Z :=
  match ms with
  | Some t => if (1 <=? t) && (t <=? 2147483647) then t else 1
  | None => 1
  end.

(** [startHeartbeat(interval)]: [setInterval] starts a timer that
    calls [sendHeartbeat] once per period from now on.  Its handle
    goes over that of an earlier timer, which keeps running. *)
Definition startHeartbeat (interval : option Z) (c : Session) : Session :=
  let period := interval_period interval in
  set_timers (timers c ++ [(period, period)]) (set_heartbeatInterval (Some period) c).




(** [handleReady(data)]; a payload without a [guilds] array makes the
    first statement ([data.guilds.length]) throw. *)
Definition handleReady (data : Payload) (c : Session) : Completion string unit * Session :=
  match data with
  | PReady u sid gs =>
      let c1 := set_ready u sid c in
      let c2 := set_guilds (foldl (fun m g => <[guild_id g := g]> m) (guilds c1) gs) c1 in
      (Normal tt, emit "ready" PNull c2)
  | _ => (Throw "TypeError", c)
  end.

(** [handleGuildCreate(guild)]; for a payload that is an object of
    another shape the cache entry under the key [undefined] is not
    represented, the event still goes out. *)
Definition handleGuildCreate (data : Payload) (c : Session) : Completion string unit * Session :=
  match data with
  | PGuild g =>
      let c1 := set_guilds (<[guild_id g := g]> (guilds c)) c in
      let c2 :=
        match guild_channels g with
        | Some chs => set_channels (foldl (fun m ch => <[channel_id ch := ch]> m) (channels c1) chs) c1
        | None => c1
        end in
      (Normal tt, emit "guildCreate" data c2)
  | PNull => (Throw "TypeError", c)
  | _ => (Normal tt, emit "guildCreate" data c)
  end.

Definition handleDispatch (event : option string) (data : Payload) (c : Session)
  : Completion string unit * Session :=
  match event with
  | Some e =>
      if String.eqb e "READY" then handleReady data c
      else if String.eqb e "GUILD_CREATE" then handleGuildCreate data c
      else if String.eqb e "INTERACTION_CREATE" then (Normal tt, emit "interactionCreate" data c)
      else if String.eqb e "MESSAGE_CREATE" then (Normal tt, emit "messageCreate" data c)
      else emit_named (toLowerCase e) data c
  | None => (Throw "TypeError", c)          (* null.toLowerCase() *)
  end.

Definition handleGatewayMessage (packet : Packet) (c : Session)
  : Completion string unit * Session :=
  let c1 := if seq_truthy (s packet) then set_lastSequence (s packet) c else c in
  if op packet =? 0 then handleDispatch (t packet) (d packet) c1
  else if op packet =? 1 then (Normal tt, sendHeartbeat c1)
  else if op packet =? 10 then
    match d packet with
    | PHello interval => (Normal tt, startHeartbeat (Some interval) c1)
    | PNull => (Throw "TypeError", c1)       (* null.heartbeat_interval *)
    | _ => (Normal tt, startHeartbeat None c1)  (* setInterval(f, undefined) *)
    end
  else (Normal tt, c1).                      (* 11: heartbeat ACK; other: logged *)

(** The socket's [message] callback runs once per frame; an exception
    in one run does not undo its assignments nor stop later frames. *)
Definition deliver (ps : list Packet) (c : Session) : Session :=
  foldl (fun c p => snd (handleGatewayMessage p c)) c ps.

(** The sessions seen after each delivery, oldest first. *)
Fixpoint history (ps : list Packet) (c : Session) : list Session :=
  match ps with
  | [] => []
  | p :: r => let c' := snd (handleGatewayMessage p c) in c' :: history r c'
  end.





(** *** REST side *)

Record Response := {
  ok : bool;
  status : Z;
  headers : gmap string string;         (* Headers, by lower-case name *)
  body : string;                        (* what json() gives, as JSON.stringify writes it *)
  latency : Z
}.

(** What [fetch] does with one call: a response whose body [json()]
    parses; a response whose body it does not parse (no body at all,
    as with status 204, or text that is not JSON), with the message of
    the error that [json()] rejects with; or a rejection. *)
Inductive FetchResult :=
| Responds (r : Response)
| Garbled (r : Response) (message : string)
| Rejects (message : string) (after : Z).

Record Rest := {
  rateLimits : gmap string Z;           (* route key ↦ resetTime *)
  now : Z;                              (* Date.now() *)
  requests : list (Z * string)          (* time and endpoint of each call of fetch *)
}.

Definition rest_constructor (t0 : Z) : Rest :=
  {| rateLimits := ∅; now := t0; requests := [] |}.

(** Time passing while the caller is suspended. *)
Definition sleep (ms : Z) (c : Rest) : Rest :=
  {| rateLimits := rateLimits c; now := now c + ms; requests := requests c |}.

Definition getRouteKey (endpoint : string) : string :=
  join "/" (slice0 2 (split "/" endpoint)).

(** [checkRateLimit]: [setTimeout] is taken to resolve exactly after
    [waitTime], the earliest it may. *)
Definition checkRateLimit (endpoint : string) (c : Rest) : Rest :=
  let route := getRouteKey endpoint in
  match rateLimits c !! route with
  | Some resetTime =>
      if now c <? resetTime then
        let waitTime := resetTime - now c in
        sleep waitTime c
      else c
  | None => c
  end.

Definition updateRateLimit (endpoint : string) (hs : gmap string string) (c : Rest) : Rest :=
  let route := getRouteKey endpoint in
  let remaining := num_or (parseInt (string_of_nullable (hs !! "x-ratelimit-remaining"))) 1 in
  let resetAfter := num_or (parseInt (string_of_nullable (hs !! "x-ratelimit-reset-after"))) 1 in
  if remaining =? 0 then
    {| rateLimits := <[route := now c + resetAfter * 1000]> (rateLimits c);
       now := now c; requests := requests c |}
  else c.

Definition call_fetch (endpoint : string) (c : Rest) : Rest :=
  {| rateLimits := rateLimits c; now := now c; requests := requests c ++ [(now c, endpoint)] |}.

(** [api(endpoint, options)], with the network's answer as input. *)
Definition api (endpoint : string) (net : FetchResult) (c : Rest)
  : Completion string string * Rest :=
  let c1 := checkRateLimit endpoint c in
  let c2 := call_fetch endpoint c1 in
  match net with
  | Rejects msg after => (Throw msg, sleep after c2)
  | Responds response =>
      let c3 := sleep (latency response) c2 in
      let c4 := updateRateLimit endpoint (headers response) c3 in
      if ok response then (Normal (body response), c4)
      else (Throw ("Discord API Error: " +:+ string_of_Z (status response) +:+ " - " +:+
                   body response), c4)
  | Garbled response msg =>
      let c3 := sleep (latency response) c2 in
      let c4 := updateRateLimit endpoint (headers response) c3 in
      if ok response then (Throw msg, c4)    (* return response.json() *)
      else (Throw ("Discord API Error: " +:+ string_of_Z (status response) +:+ " - {}"), c4)
  end.

(** Order on a nullable sequence number: [null] below every number. *)
Definition seq_le (a b : option Z) : Prop :=
  match a, b with
  | None, _ => True
  | Some _, None => False
  | Some x, Some y => x <= y
  end.

(** Largest element of a list of numbers, [None] for the empty list. *)
Definition max_step (acc : option Z) (x : Z) : option Z :=
  match acc with None => Some x | Some m => Some (Z.max m x) end.

Definition max_seq (l : list Z) : option Z := foldl max_step None l.

(** *** Further methods *)

(** The credential that [login(token)] stores in [this.token] before
    it makes its first request; [None] is [null].  The empty string is
    falsy, and does not start with the prefix either. *)
Definition login_token (token : option string) : string :=
  match token with
  | Some tk => if String.prefix "Bot " tk then tk else "Bot " +:+ tk
  | None => "Bot null"
  end.

(** *** REST wrappers

    Each wrapper is one call of [api]; the method, the body and the
    extra headers of its options object go to [fetch] as they are and
    are not part of the [Rest] record. *)

Definition createDM := api "users/@me/channels".

Definition sendMessage (channelId : string) :=
  api ("channels/" +:+ channelId +:+ "/messages").

Definition createGuild := api "guilds".

Definition getGuild (guildId : string) := api ("guilds/" +:+ guildId).

Definition modifyGuild (guildId : string) := api ("guilds/" +:+ guildId).

Definition createChannel (guildId : string) := api ("guilds/" +:+ guildId +:+ "/channels").

Definition modifyChannel (channelId : string) := api ("channels/" +:+ channelId).

Definition deleteChannel (channelId : string) := api ("channels/" +:+ channelId).

Definition createRole (guildId : string) := api ("guilds/" +:+ guildId +:+ "/roles").

Definition modifyRole (guildId roleId : string) :=
  api ("guilds/" +:+ guildId +:+ "/roles/" +:+ roleId).

Definition deleteRole (guildId roleId : string) :=
  api ("guilds/" +:+ guildId +:+ "/roles/" +:+ roleId).

Definition addMemberRole (guildId userId roleId : string) :=
  api ("guilds/" +:+ guildId +:+ "/members/" +:+ userId +:+ "/roles/" +:+ roleId).

Definition removeMemberRole (guildId userId roleId : string) :=
  api ("guilds/" +:+ guildId +:+ "/members/" +:+ userId +:+ "/roles/" +:+ roleId).

Definition getGuildMembers (guildId : string) (limit : Z) (after : string) :=
  api ("guilds/" +:+ guildId +:+ "/members?limit=" +:+ string_of_Z limit +:+ "&after=" +:+ after).

Definition kickMember (guildId userId : string) :=
  api ("guilds/" +:+ guildId +:+ "/members/" +:+ userId).

Definition banMember (guildId userId : string) :=
  api ("guilds/" +:+ guildId +:+ "/bans/" +:+ userId).

(** A string without the separator of endpoints. *)
Definition slash_free (x : string) : bool := negb (includes "/" x).


(** The bucket key of the request that a call sends last. *)
Definition route_of (call : FetchResult -> Rest -> Completion string string * Rest)
           (net : FetchResult) (c : Rest) : option string :=
  (fun r => getRouteKey (snd r)) <$> last (requests (snd (call net c))).

(** The time at which [api] hands a request to [fetch]. *)
Definition dispatch_time (endpoint : string) (c : Rest) : Z :=
  match rateLimits c !! getRouteKey endpoint with
  | Some resetTime => Z.max (now c) resetTime
  | None => now c
  end.

(** The last guild of a list that carries a given id. *)
Definition last_guild (k : string) (gs : list Guild) : option Guild :=
  last (filter (fun g => guild_id g = k) gs).

End DiscordClient.

(** ** [modules/ai-engine.js]: class [AIEngine]

    Only the provider bookkeeping is state here: [providerStatus] and
    the counters of [metrics] that [processIntelligence] writes.
    [learnFromIntelligence] catches its own exceptions and writes
    [learningPatterns] and [config] only, so it does not appear in
    [processIntelligence]; what it keeps is modelled at the end of the
    module. *)

Module AIEngine.
Import JS.

Record ProviderStatus := {
  available : bool;
  lastError : option string;
  errorCount : Z
}.

Record Metrics := {
  decisionsGenerated : Z;
  errorRecoveries : Z;
  primaryProviderUsage : Z;
  fallbackProviderUsage : Z
}.

Record Engine := {
  primary : ProviderStatus;
  fallback : ProviderStatus;
  metrics : Metrics
}.

Definition constructor : Engine :=
  {| primary := {| available := true; lastError := None; errorCount := 0 |};
     fallback := {| available := true; lastError := None; errorCount := 0 |};
     metrics := {| decisionsGenerated := 0; errorRecoveries := 0;
                   primaryProviderUsage := 0; fallbackProviderUsage := 0 |} |}.

Inductive Provider := Primary | Fallback.

(** What one call of [callAIProvider] does: it returns the trimmed
    message content, or throws. *)
Inductive Reply :=
| Content (text : string)
| ProviderError (message : string).

(** The surroundings of one request: whether building the context
    throws, and what each provider would answer if called. *)
Record Net := {
  context_error : option string;
  primary_reply : Reply;
  fallback_reply : Reply
}.

Definition generateBuiltInResponse (prompt : string) : string :=
  let lowerPrompt := toLowerCase prompt in
  if includes "help" lowerPrompt || includes "how" lowerPrompt then
    "I'd be happy to help you with that! I'm analyzing your request and will provide the best assistance I can. What specific aspect would you like me to focus on?"
  else if includes "error" lowerPrompt || includes "problem" lowerPrompt then
    "I understand you're experiencing an issue. Let me analyze this problem and provide a solution. Can you provide more details about what's happening?"
  else if includes "server" lowerPrompt || includes "guild" lowerPrompt then
    "I can help with server management and optimization. Let me analyze your server's current state and provide intelligent recommendations for improvement."
  else if includes "command" lowerPrompt || includes "bot" lowerPrompt then
    "I can assist with bot commands and functionality. Let me help you understand how to use this feature effectively."
  else
    "I'm processing your request with my built-in intelligence. While my advanced AI providers are temporarily unavailable, I can still provide helpful assistance based on my core knowledge.".

Definition generateEmergencyResponse : string :=
  "I'm experiencing some technical difficulties with my AI systems, but I'm working to resolve them. Please try your request again in a moment, or contact support if the issue persists.".

(** Truthiness of a string: the empty string is falsy. *)
Definition nonempty (x : string) : bool :=
  match x with EmptyString => false | _ => true end.

Definition primary_succeeded (e : Engine) : Engine :=
  {| primary := primary e; fallback := fallback e;
     metrics := {| decisionsGenerated := decisionsGenerated (metrics e) + 1;
                   errorRecoveries := errorRecoveries (metrics e);
                   primaryProviderUsage := primaryProviderUsage (metrics e) + 1;
                   fallbackProviderUsage := fallbackProviderUsage (metrics e) |} |}.

Definition fallback_succeeded (e : Engine) : Engine :=
  {| primary := primary e; fallback := fallback e;
     metrics := {| decisionsGenerated := decisionsGenerated (metrics e) + 1;
                   errorRecoveries := errorRecoveries (metrics e) + 1;
                   primaryProviderUsage := primaryProviderUsage (metrics e);
                   fallbackProviderUsage := fallbackProviderUsage (metrics e) + 1 |} |}.

(** The [catch (primaryError)] block. *)
Definition primary_failed (e : Engine) : Engine :=
  let count := errorCount (primary e) + 1 in
  {| primary := {| available := if 5 <? count then false else available (primary e);
                   lastError := lastError (primary e);
                   errorCount := count |};
     fallback := fallback e; metrics := metrics e |}.

(** The [catch (fallbackError)] block. *)
Definition fallback_failed (e : Engine) : Engine :=
  {| primary := primary e;
     fallback := {| available := available (fallback e);
                    lastError := lastError (fallback e);
                    errorCount := errorCount (fallback e) + 1 |};
     metrics := metrics e |}.

(** [processIntelligence(prompt, context, maxTokens)]: the answer, the
    providers that were called, in order, and the engine afterwards. *)
Definition processIntelligence (prompt : string) (net : Net) (e : Engine)
  : string * list Provider * Engine :=
  match context_error net with
  | Some _ => (generateEmergencyResponse, [], e)
  | None =>
      let '(answer1, calls1, e1) :=
        if available (primary e) then
          match primary_reply net with
          | Content response =>
              if nonempty response then (Some response, [Primary], primary_succeeded e)
              else (None, [Primary], e)
          | ProviderError _ => (None, [Primary], primary_failed e)
          end
        else (None, [], e) in
      match answer1 with
      | Some response => (response, calls1, e1)
      | None =>
          let '(answer2, calls2, e2) :=
            if available (fallback e1) then
              match fallback_reply net with
              | Content response =>
                  if nonempty response then (Some response, [Fallback], fallback_succeeded e1)
                  else (None, [Fallback], e1)
              | ProviderError _ => (None, [Fallback], fallback_failed e1)
              end
            else (None, [], e1) in
          match answer2 with
          | Some response => (response, calls1 ++ calls2, e2)
          | None => (generateBuiltInResponse prompt, calls1 ++ calls2, e2)
          end
      end
  end.

(** [testProviderConnections()], the only place that turns a provider
    back on. *)
Definition testProviderConnections (net : Net) (e : Engine) : Completion string unit * Engine :=
  let p :=
    match primary_reply net with
    | Content r =>
        if includes "INTELLIGENCE_ONLINE" r
        then {| available := true; lastError := lastError (primary e);
                errorCount := errorCount (primary e) |}
        else primary e
    | ProviderError msg =>
        {| available := false; lastError := Some msg; errorCount := errorCount (primary e) |}
    end in
  let f :=
    match fallback_reply net with
    | Content r =>
        if includes "INTELLIGENCE_ONLINE" r
        then {| available := true; lastError := lastError (fallback e);
                errorCount := errorCount (fallback e) |}
        else fallback e
    | ProviderError msg =>
        {| available := false; lastError := Some msg; errorCount := errorCount (fallback e) |}
    end in
  let e' := {| primary := p; fallback := f; metrics := metrics e |} in
  if negb (available p) && negb (available f)
  then (Throw "No AI providers available", e')
  else (Normal tt, e').

(** A run of requests, one after the other. *)
Definition serve (reqs : list (string * Net)) (e : Engine) : Engine :=
  foldl (fun e r => snd (processIntelligence (fst r) (snd r) e)) e reqs.

(** A request on which the primary provider throws. *)
Definition primary_fails (r : string * Net) : bool :=
  match context_error (snd r), primary_reply (snd r) with
  | None, ProviderError _ => true
  | _, _ => false
  end.

Definition failures (reqs : list (string * Net)) : Z :=
  Z.of_nat (length (filter (fun r => primary_fails r = true) reqs)).

(** *** Learning

    [learnFromIntelligence] keeps, per guild, the records of the most
    recent exchanges.  [analyzeLearningProgress] also moves
    [config.creativityLevel], a floating point number that nothing
    modelled here reads; its two counters are kept. *)

Record LearningData := {
  ld_prompt : string;                   (* prompt.substring(0, 200) *)
  ld_responseLength : Z;
  ld_context : string;
  ld_provider : Provider;
  ld_processingTime : Z;
  ld_timestamp : Z
}.

(** The members of [context] that the learning code reads. *)
Record Context := {
  context_type : option string;
  context_guildId : option string
}.

Record Learning := {
  learningPatterns : gmap string (list LearningData);
  learningCycles : Z;
  adaptations : Z
}.

(** The state left by [initializeLearningMatrix] on a new engine. *)
Definition initializeLearningMatrix : Learning :=
  {| learningPatterns := ∅; learningCycles := 0; adaptations := 0 |}.

Definition analyzeLearningProgress (l : Learning) : Learning :=
  {| learningPatterns := learningPatterns l;
     learningCycles := learningCycles l + 1;
     adaptations := adaptations l + 1 |}.

Definition patternKey (context : Context) : string :=
  str_or (context_guildId context) "global".

Definition learnFromIntelligence (prompt response : string) (context : Context)
           (provider : Provider) (processingTime now : Z) (l : Learning) : Learning :=
  let learningData :=
    {| ld_prompt := String.substring 0 200 prompt;
       ld_responseLength := Z.of_nat (String.length response);
       ld_context := str_or (context_type context) "general";
       ld_provider := provider;
       ld_processingTime := processingTime;
       ld_timestamp := now |} in
  let key := patternKey context in
  let pushed := default [] (learningPatterns l !! key) ++ [learningData] in
  let patterns :=
    if (100 <? length pushed)%nat then drop (length pushed - 100) pushed else pushed in
  let l1 := {| learningPatterns := <[key := patterns]> (learningPatterns l);
               learningCycles := learningCycles l;
               adaptations := adaptations l |} in
  if (length patterns mod 10 =? 0)%nat then analyzeLearningProgress l1 else l1.

(** One exchange as [learnFromIntelligence] receives it. *)
Record Exchange := {
  x_prompt : string;
  x_response : string;
  x_context : Context;
  x_provider : Provider;
  x_processingTime : Z;
  x_now : Z
}.

Definition learn (l : Learning) (x : Exchange) : Learning :=
  learnFromIntelligence (x_prompt x) (x_response x) (x_context x) (x_provider x)
                        (x_processingTime x) (x_now x) l.

(** The record that an exchange leaves. *)
Definition record_of (x : Exchange) : LearningData :=
  {| ld_prompt := String.substring 0 200 (x_prompt x);
     ld_responseLength := Z.of_nat (String.length (x_response x));
     ld_context := str_or (context_type (x_context x)) "general";
     ld_provider := x_provider x;
     ld_processingTime := x_processingTime x;
     ld_timestamp := x_now x |}.

(** The last [n] elements of a list. *)
Definition last_n {A} (n : nat) (l : list A) : list A := drop (length l - n) l.

(** The state after a run of exchanges on a new engine. *)
Definition learned (xs : list Exchange) : Learning := foldl learn initializeLearningMatrix xs.

(** The providers called by each request of a run, in order. *)
Fixpoint transcript (reqs : list (string * Net)) (e : Engine) : list (list Provider) :=
  match reqs with
  | [] => []
  | r :: rest =>
      snd (fst (processIntelligence (fst r) (snd r) e)) ::
      transcript rest (snd (processIntelligence (fst r) (snd r) e))
  end.

(** A reply that [processIntelligence] hands back: the content that
    [callAIProvider] returned is truthy. *)
Definition has_content (reply : Reply) : bool :=
  match reply with
  | Content text => nonempty text
  | ProviderError _ => false
  end.

(** Whose reply a request handed back, read off the calls it made and
    the replies they got: the last provider called, if it replied with
    content; nobody's otherwise. *)
Definition answered_by (calls : list Provider) (net : Net) : option Provider :=
  match last calls with
  | Some Primary => if has_content (primary_reply net) then Some Primary else None
  | Some Fallback => if has_content (fallback_reply net) then Some Fallback else None
  | None => None
  end.

(** For each request of a run, in order, who answered it. *)
Fixpoint answerers (reqs : list (string * Net)) (e : Engine) : list (option Provider) :=
  match reqs with
  | [] => []
  | r :: rest =>
      answered_by (snd (fst (processIntelligence (fst r) (snd r) e))) (snd r) ::
      answerers rest (snd (processIntelligence (fst r) (snd r) e))
  end.

Definition is_answer_of (p : Provider) (x : option Provider) : bool :=
  match x, p with
  | Some Primary, Primary => true
  | Some Fallback, Fallback => true
  | _, _ => false
  end.

(** The number of requests that a provider answered. *)
Definition answers_of (p : Provider) (who : list (option Provider)) : Z :=
  Z.of_nat (length (List.filter (is_answer_of p) who)).

(** The records of a run that fall under a key, oldest first. *)
Definition records_under (k : string) (xs : list Exchange) : list LearningData :=
  map record_of (filter (fun x => patternKey (x_context x) = k) xs).

End AIEngine.

(** ** [modules/event-system.js]: class [EventSystem]

    Functions handed to the event system are opaque: a reference [Fn]
    names one, and a [World] says what a call of it does (the value it
    returns or throws, and the time it takes; a handler may also never
    settle).  They do not call back into the registry while an event is
    being processed.  Promises are run to completion at the [await] that
    waits for them, in program order; a call that is not awaited
    ([this.emit] inside [handleEventError], the [setImmediate] callback)
    runs its synchronous enqueue and leaves the rest as a pending
    macrotask.  [averageProcessingTime] and [averageTime] are floating
    point quotients and are left out of the metrics records.

    Two limits of this reading.  The handlers that the class registers
    for itself ([BuiltInFn]) are taken from the [World] like any other
    function: that they are called, and how the call settles, is
    followed; the events that their bodies emit in turn are not.
    [callers_own] says of a name that none of its listeners is of that
    kind.  And the events of one batch are run one after the other, in
    the order in which [processEventQueue] starts them; how the calls
    of several events of a batch interleave is not followed. *)

Module EventSystem.
Import JS.

Inductive Fn :=
| BuiltInFn (name : string)             (* this.handleXxx.bind(this) *)
| UserFn (n : nat).

Inductive Value :=
| VUndefined
| VBool (b : bool)
| VNum (z : Z)
| VStr (s : string)
| VError (message : string)
| VEventData (name : string) (args : list Value) (timestamp : Z) (id : string).

Definition truthy (v : Value) : bool :=
  match v with
  | VUndefined => false
  | VBool b => b
  | VNum z => negb (z =? 0)
  | VStr EmptyString => false
  | _ => true
  end.

Record EventData := {
  name : string;
  args : list Value;
  timestamp : Z;
  id : string
}.

Definition value_of_event (e : EventData) : Value :=
  VEventData (name e) (args e) (timestamp e) (id e).

Inductive ListenerType := BuiltIn | Custom.

Record Listener := {
  handler : Fn;
  priority : Z;
  listener_type : ListenerType;
  listener_id : string;
  once : bool;
  listener_filter : option Fn;
  timeout : option Z                    (* undefined on built-in listeners *)
}.

(** The [options] argument of [on] and [once]. *)
Record Options := {
  opt_priority : option Z;
  opt_id : option string;
  opt_once : option bool;
  opt_filter : option Fn;
  opt_timeout : option Z
}.

Definition no_options : Options :=
  {| opt_priority := None; opt_id := None; opt_once := None;
     opt_filter := None; opt_timeout := None |}.

Record Middleware := {
  middleware : Fn;
  middleware_priority : Z;
  middleware_id : string;
  middleware_type : string              (* pre, post, error *)
}.

Record UseOptions := {
  use_priority : option Z;
  use_id : option string;
  use_type : option string
}.

Record Metrics := {
  eventsProcessed : Z;
  eventsQueued : Z;
  middlewareExecutions : Z;
  errorEvents : Z;
  lastProcessedEvent : option string
}.

Record EventMetric := {
  count : Z;
  totalTime : Z;
  errors : Z;
  lastProcessed : Z
}.

Record Config := {
  maxQueueSize : Z;
  processingTimeout : Z;
  enableMetrics : bool;
  enableFiltering : bool;
  concurrentEvents : Z;
  retryAttempts : Z
}.

Record State := {
  eventListeners : gmap string (list Listener);
  middlewareStack : gmap string (list Middleware);
  eventQueue : list EventData;
  eventMetrics : gmap string EventMetric;
  errorHandlers : gmap string (list Fn);
  eventFilters : gmap string (list Fn);
  metrics : Metrics;
  config : Config;
  isProcessing : bool;
  activeEvents : gset string;
  now : Z;                              (* Date.now() *)
  randoms : nat;                        (* draws of Math.random() so far *)
  immediates : nat                      (* pending setImmediate callbacks *)
}.

(** One call of a user function, as seen from outside. *)
Inductive Call :=
| CallEventFilter (f : Fn) (a : list Value)
| CallMiddleware (m : Middleware) (a : list Value)
| CallListenerFilter (l : Listener) (a : list Value)
| CallHandler (l : Listener) (a : list Value)
| CallErrorHandler (h : Fn) (a : list Value).

(** A promise that settles, with the time it takes. *)
Inductive Settled :=
| Returns (v : Value) (d : Z)
| Throws (e : Value) (d : Z).

(** What a call [listener.handler(...args)] gives.  [Settles r]: the
    call hands back a promise at once, which settles as [r] says.
    [Pending]: a promise that never settles.  [Blocks s p]: the call
    keeps the thread for [s] milliseconds and then gives what [p]
    says; a handler that is not [async] and returns [v] after [s]
    milliseconds is [Blocks s (Settles (Returns v 0))]. *)
Inductive Promise :=
| Settles (r : Settled)
| Pending
| Blocks (s : Z) (p : Promise).

Record World := {
  run : Fn -> list Value -> Settled;            (* calls awaited without a timer *)
  run_handler : Fn -> list Value -> Promise;    (* listener.handler(...args) *)
  random : nat -> string                        (* Math.random().toString(36).substr(2, 9) *)
}.

(** *** The monad of methods: state, exceptions, and the calls made *)

Definition M (A : Type) : Type := State -> Completion Value A * State * list Call.

#[global] Instance M_ret : MRet M := fun A a st => (Normal a, st, []).

#[global] Instance M_bind : MBind M := fun A B f m st =>
  match m st with
  | (Normal a, st1, tr1) => let '(r, st2, tr2) := f a st1 in (r, st2, tr1 ++ tr2)
  | (Throw e, st1, tr1) => (Throw e, st1, tr1)
  end.

Definition throw {A} (e : Value) : M A := fun st => (Throw e, st, []).

(** [try { m } catch (error) { h error }]. *)
Definition try_catch {A} (m : M A) (h : Value -> M A) : M A := fun st =>
  match m st with
  | (Normal a, st1, tr1) => (Normal a, st1, tr1)
  | (Throw e, st1, tr1) => let '(r, st2, tr2) := h e st1 in (r, st2, tr1 ++ tr2)
  end.

(** [try { m } finally { f }]. *)
Definition try_finally {A} (m : M A) (f : M unit) : M A := fun st =>
  let '(r, st1, tr1) := m st in
  match f st1 with
  | (Normal _, st2, tr2) => (r, st2, tr1 ++ tr2)
  | (Throw e, st2, tr2) => (Throw e, st2, tr1 ++ tr2)
  end.

Definition gets {A} (f : State -> A) : M A := fun st => (Normal (f st), st, []).

Definition modify (f : State -> State) : M unit := fun st => (Normal tt, f st, []).

Definition set_eventListeners (v : gmap string (list Listener)) (st : State) : State :=
  {| eventListeners := v; middlewareStack := middlewareStack st; eventQueue := eventQueue st;
     eventMetrics := eventMetrics st; errorHandlers := errorHandlers st;
     eventFilters := eventFilters st; metrics := metrics st; config := config st;
     isProcessing := isProcessing st; activeEvents := activeEvents st; now := now st;
     randoms := randoms st; immediates := immediates st |}.

Definition set_middlewareStack (v : gmap string (list Middleware)) (st : State) : State :=
  {| eventListeners := eventListeners st; middlewareStack := v; eventQueue := eventQueue st;
     eventMetrics := eventMetrics st; errorHandlers := errorHandlers st;
     eventFilters := eventFilters st; metrics := metrics st; config := config st;
     isProcessing := isProcessing st; activeEvents := activeEvents st; now := now st;
     randoms := randoms st; immediates := immediates st |}.

Definition set_eventQueue (v : list EventData) (st : State) : State :=
  {| eventListeners := eventListeners st; middlewareStack := middlewareStack st; eventQueue := v;
     eventMetrics := eventMetrics st; errorHandlers := errorHandlers st;
     eventFilters := eventFilters st; metrics := metrics st; config := config st;
     isProcessing := isProcessing st; activeEvents := activeEvents st; now := now st;
     randoms := randoms st; immediates := immediates st |}.

Definition set_eventMetrics (v : gmap string EventMetric) (st : State) : State :=
  {| eventListeners := eventListeners st; middlewareStack := middlewareStack st;
     eventQueue := eventQueue st;
     eventMetrics := v; errorHandlers := errorHandlers st;
     eventFilters := eventFilters st; metrics := metrics st; config := config st;
     isProcessing := isProcessing st; activeEvents := activeEvents st; now := now st;
     randoms := randoms st; immediates := immediates st |}.

Definition set_errorHandlers (v : gmap string (list Fn)) (st : State) : State :=
  {| eventListeners := eventListeners st; middlewareStack := middlewareStack st;
     eventQueue := eventQueue st;
     eventMetrics := eventMetrics st; errorHandlers := v;
     eventFilters := eventFilters st; metrics := metrics st; config := config st;
     isProcessing := isProcessing st; activeEvents := activeEvents st; now := now st;
     randoms := randoms st; immediates := immediates st |}.

Definition set_eventFilters (v : gmap string (list Fn)) (st : State) : State :=
  {| eventListeners := eventListeners st; middlewareStack := middlewareStack st;
     eventQueue := eventQueue st;
     eventMetrics := eventMetrics st; errorHandlers := errorHandlers st;
     eventFilters := v; metrics := metrics st; config := config st;
     isProcessing := isProcessing st; activeEvents := activeEvents st; now := now st;
     randoms := randoms st; immediates := immediates st |}.

Definition set_metrics (v : Metrics) (st : State) : State :=
  {| eventListeners := eventListeners st; middlewareStack := middlewareStack st;
     eventQueue := eventQueue st;
     eventMetrics := eventMetrics st; errorHandlers := errorHandlers st;
     eventFilters := eventFilters st; metrics := v; config := config st;
     isProcessing := isProcessing st; activeEvents := activeEvents st; now := now st;
     randoms := randoms st; immediates := immediates st |}.

Definition set_isProcessing (v : bool) (st : State) : State :=
  {| eventListeners := eventListeners st; middlewareStack := middlewareStack st;
     eventQueue := eventQueue st;
     eventMetrics := eventMetrics st; errorHandlers := errorHandlers st;
     eventFilters := eventFilters st; metrics := metrics st; config := config st;
     isProcessing := v; activeEvents := activeEvents st; now := now st;
     randoms := randoms st; immediates := immediates st |}.

Definition set_activeEvents (v : gset string) (st : State) : State :=
  {| eventListeners := eventListeners st; middlewareStack := middlewareStack st;
     eventQueue := eventQueue st;
     eventMetrics := eventMetrics st; errorHandlers := errorHandlers st;
     eventFilters := eventFilters st; metrics := metrics st; config := config st;
     isProcessing := isProcessing st; activeEvents := v; now := now st;
     randoms := randoms st; immediates := immediates st |}.

Definition set_now (v : Z) (st : State) : State :=
  {| eventListeners := eventListeners st; middlewareStack := middlewareStack st;
     eventQueue := eventQueue st;
     eventMetrics := eventMetrics st; errorHandlers := errorHandlers st;
     eventFilters := eventFilters st; metrics := metrics st; config := config st;
     isProcessing := isProcessing st; activeEvents := activeEvents st; now := v;
     randoms := randoms st; immediates := immediates st |}.

Definition set_randoms (v : nat) (st : State) : State :=
  {| eventListeners := eventListeners st; middlewareStack := middlewareStack st;
     eventQueue := eventQueue st;
     eventMetrics := eventMetrics st; errorHandlers := errorHandlers st;
     eventFilters := eventFilters st; metrics := metrics st; config := config st;
     isProcessing := isProcessing st; activeEvents := activeEvents st; now := now st;
     randoms := v; immediates := immediates st |}.

Definition set_immediates (v : nat) (st : State) : State :=
  {| eventListeners := eventListeners st; middlewareStack := middlewareStack st;
     eventQueue := eventQueue st;
     eventMetrics := eventMetrics st; errorHandlers := errorHandlers st;
     eventFilters := eventFilters st; metrics := metrics st; config := config st;
     isProcessing := isProcessing st; activeEvents := activeEvents st; now := now st;
     randoms := randoms st; immediates := v |}.

(** [await f(...a)] without a timer: the call is made, time passes,
    the value comes back or the exception is raised here. *)
Definition await (c : Call) (r : Settled) : M Value := fun st =>
  match r with
  | Returns v d => (Normal v, set_now (now st + d) st, [c])
  | Throws e d => (Throw e, set_now (now st + d) st, [c])
  end.

(** Delay used by [setTimeout(f, ms)]: an absent or out-of-range delay
    is one millisecond. *)
Definition timer_delay (ms : option Z) : Z :=
  match ms with
  | Some t => if (1 <=? t) && (t <=? 2147483647) then t else 1
  | None => 1
  end.

(** The same settlement, [s] milliseconds later. *)
Definition later (s : Z) (r : Settled) : Settled :=
  match r with
  | Returns v d => Returns v (s + d)
  | Throws e d => Throws e (s + d)
  end.

(** [Promise.race([listener.handler(...args), timer])].  The elements
    of the array are evaluated in order: the handler is called first,
    and the timer is created when that call has handed back its
    promise.  The time the call itself takes is therefore not counted
    against the limit; and of two settlements due at the same
    millisecond the handler's, scheduled first, comes first. *)
Fixpoint race (p : Promise) (limit : Z) : Settled :=
  match p with
  | Settles (Returns v d) =>
      if d <=? limit then Returns v d else Throws (VError "Listener timeout") limit
  | Settles (Throws e d) =>
      if d <=? limit then Throws e d else Throws (VError "Listener timeout") limit
  | Pending => Throws (VError "Listener timeout") limit
  | Blocks s p' => later s (race p' limit)
  end.

(** *** [Array.prototype.sort] with the comparator [(a, b) => key a - key b]

    The sort is stable (ECMAScript 2019), and for such a comparator the
    stable sorted arrangement is unique; insertion from left to right,
    each element going behind those that do not exceed it, computes
    it. *)

Fixpoint insert_sorted {A} (key : A -> Z) (x : A) (l : list A) : list A :=
  match l with
  | [] => [x]
  | y :: r => if key x <? key y then x :: y :: r else y :: insert_sorted key x r
  end.

Definition stable_sort {A} (key : A -> Z) (l : list A) : list A :=
  foldl (fun acc x => insert_sorted key x acc) [] l.

(** The order that the comparator stands for. *)
Definition key_le {A} (key : A -> Z) (x y : A) : Prop := key x <= key y.

(** *** Registration *)

Definition listeners_of (eventName : string) (st : State) : list Listener :=
  default [] (eventListeners st !! eventName).

Definition registerBuiltInEvent (eventName : string) (h : Fn) (st : State) : State :=
  let listener :=
    {| handler := h; priority := 1; listener_type := BuiltIn;
       listener_id := "builtin_" +:+ eventName +:+ "_" +:+ string_of_Z (now st);
       once := false; listener_filter := None; timeout := None |} in
  set_eventListeners (<[eventName := listeners_of eventName st ++ [listener]]> (eventListeners st)) st.

Definition builtInEvents : list (string * string) :=
  [ ("ready", "handleReady"); ("messageCreate", "handleMessageCreate");
    ("interactionCreate", "handleInteractionCreate"); ("guildCreate", "handleGuildCreate");
    ("guildDelete", "handleGuildDelete"); ("guildMemberAdd", "handleGuildMemberAdd");
    ("guildMemberRemove", "handleGuildMemberRemove"); ("channelCreate", "handleChannelCreate");
    ("channelDelete", "handleChannelDelete"); ("roleCreate", "handleRoleCreate");
    ("roleDelete", "handleRoleDelete"); ("error", "handleError");
    ("disconnect", "handleDisconnect"); ("reconnect", "handleReconnect");
    ("aiDecision", "handleAIDecision"); ("serverOptimization", "handleServerOptimization");
    ("userSupport", "handleUserSupport"); ("healthCheck", "handleHealthCheck");
    ("learningUpdate", "handleLearningUpdate") ].

Definition initializeBuiltInEvents (st : State) : State :=
  foldl (fun st e => registerBuiltInEvent (fst e) (BuiltInFn (snd e)) st) st builtInEvents.

Definition constructor (t0 : Z) : State :=
  initializeBuiltInEvents
    {| eventListeners := ∅; middlewareStack := ∅; eventQueue := [];
       eventMetrics := ∅; errorHandlers := ∅; eventFilters := ∅;
       metrics := {| eventsProcessed := 0; eventsQueued := 0; middlewareExecutions := 0;
                     errorEvents := 0; lastProcessedEvent := None |};
       config := {| maxQueueSize := 1000; processingTimeout := 30000; enableMetrics := true;
                    enableFiltering := true; concurrentEvents := 10; retryAttempts := 3 |};
       isProcessing := false; activeEvents := ∅; now := t0; randoms := 0%nat;
       immediates := 0%nat |}.

(** The listener object built by [on]. *)
Definition make_listener (eventName : string) (h : Fn) (options : Options) (st : State) : Listener :=
  {| handler := h;
     priority := num_or (opt_priority options) 5;
     listener_type := Custom;
     listener_id := str_or (opt_id options)
                      ("custom_" +:+ eventName +:+ "_" +:+ string_of_Z (now st));
     once := bool_or (opt_once options) false;
     listener_filter := opt_filter options;
     timeout := Some (num_or (opt_timeout options) (processingTimeout (config st))) |}.

Definition on (eventName : string) (h : Fn) (options : Options) : M string := fun st =>
  let listener := make_listener eventName h options st in
  let listeners := listeners_of eventName st ++ [listener] in
  (Normal (listener_id listener),
   set_eventListeners (<[eventName := stable_sort priority listeners]> (eventListeners st)) st,
   []).

(** [{ ...options, once: true }]. *)
Definition with_once (options : Options) : Options :=
  {| opt_priority := opt_priority options; opt_id := opt_id options; opt_once := Some true;
     opt_filter := opt_filter options; opt_timeout := opt_timeout options |}.

Definition once_ (eventName : string) (h : Fn) (options : Options) : M string :=
  on eventName h (with_once options).

(** [off]: [findIndex] by id, then [splice(index, 1)]. *)
Definition off (eventName listenerId : string) : M bool := fun st =>
  match eventListeners st !! eventName with
  | None => (Normal false, st, [])
  | Some listeners =>
      match list_find (fun l => listener_id l = listenerId) listeners with
      | Some (index, _) =>
          (Normal true,
           set_eventListeners (<[eventName := delete index listeners]> (eventListeners st)) st,
           [])
      | None => (Normal false, st, [])
      end
  end.

Definition use (eventName : string) (mw : Fn) (options : UseOptions) : M string := fun st =>
  let item :=
    {| middleware := mw;
       middleware_priority := num_or (use_priority options) 5;
       middleware_id := str_or (use_id options)
                          ("middleware_" +:+ eventName +:+ "_" +:+ string_of_Z (now st));
       middleware_type := str_or (use_type options) "pre" |} in
  let stack := default [] (middlewareStack st !! eventName) ++ [item] in
  (Normal (middleware_id item),
   set_middlewareStack (<[eventName := stable_sort middleware_priority stack]> (middlewareStack st)) st,
   []).

Definition addFilter (eventName : string) (f : Fn) : M unit := fun st =>
  (Normal tt,
   set_eventFilters (<[eventName := default [] (eventFilters st !! eventName) ++ [f]]>
                       (eventFilters st)) st,
   []).

Definition onError (eventName : string) (h : Fn) : M unit := fun st =>
  (Normal tt,
   set_errorHandlers (<[eventName := default [] (errorHandlers st !! eventName) ++ [h]]>
                        (errorHandlers st)) st,
   []).

(** *** Processing one event *)

Section Processing.
Variable w : World.

(** The statements inside the [try] of the loop of
    [executeEventListeners]. *)
Definition listener_body (eventName : string) (a : list Value) (listener : Listener) : M unit :=
  pass ← match listener_filter listener with
         | Some f => v ← await (CallListenerFilter listener a) (run w f a); mret (truthy v)
         | None => mret true
         end;
  if pass : bool then
    await (CallHandler listener a)
          (race (run_handler w (handler listener) a) (timer_delay (timeout listener)));;
    if once listener then off eventName (listener_id listener);; mret tt else mret tt
  else mret tt.

(** The body of the loop: the [try] with its [catch], which logs and
    goes on. *)
Definition run_listener (eventName : string) (a : list Value) (listener : Listener) : M unit :=
  try_catch (listener_body eventName a listener) (fun error => mret tt).

(** [for (const listener of listeners)]: the array iterator reads
    [listeners[i]] afresh at each step, behind whatever [off] spliced
    out meanwhile; the array is the one stored in the map.  At most
    [steps] elements are visited. *)
Fixpoint listeners_from (eventName : string) (a : list Value) (steps i : nat) : M unit :=
  match steps with
  | O => mret tt
  | S k =>
      listeners ← gets (listeners_of eventName);
      match listeners !! i with
      | None => mret tt
      | Some listener =>
          run_listener eventName a listener;;
          listeners_from eventName a k (S i)
      end
  end.

Definition executeEventListeners (eventName : string) (a : list Value) : M unit :=
  listeners ← gets (listeners_of eventName);
  listeners_from eventName a (length listeners) 0.

Definition count_middleware (st : State) : State :=
  set_metrics {| eventsProcessed := eventsProcessed (metrics st);
                 eventsQueued := eventsQueued (metrics st);
                 middlewareExecutions := middlewareExecutions (metrics st) + 1;
                 errorEvents := errorEvents (metrics st);
                 lastProcessedEvent := lastProcessedEvent (metrics st) |} st.

Fixpoint middleware_loop (a : list Value) (ms : list Middleware) : M unit :=
  match ms with
  | [] => mret tt
  | m :: r =>
      try_catch
        (await (CallMiddleware m a) (run w (middleware m) a);;
         modify count_middleware)
        (fun error => mret tt);;
      middleware_loop a r
  end.

Definition executeMiddleware (eventName type : string) (a : list Value) : M unit :=
  middlewares ← gets (fun st => default [] (middlewareStack st !! eventName));
  middleware_loop a (filter (fun m => middleware_type m = type) middlewares).

(** [applyEventFilters]: a filter that throws lets the event through. *)
Fixpoint filters_loop (a : list Value) (fs : list Fn) : M bool :=
  match fs with
  | [] => mret true
  | f :: r =>
      verdict ← try_catch
                  (v ← await (CallEventFilter f a) (run w f a); mret (truthy v))
                  (fun error => mret true);
      if verdict : bool then filters_loop a r else mret false
  end.

Definition applyEventFilters (eventName : string) (a : list Value) : M bool :=
  filters ← gets (fun st => default [] (eventFilters st !! eventName));
  filters_loop a filters.

Definition updateEventMetrics (eventName : string) (processingTime : Z) : M unit := fun st =>
  if negb (enableMetrics (config st)) then (Normal tt, st, [])
  else
    let st1 :=
      set_metrics {| eventsProcessed := eventsProcessed (metrics st) + 1;
                     eventsQueued := eventsQueued (metrics st);
                     middlewareExecutions := middlewareExecutions (metrics st);
                     errorEvents := errorEvents (metrics st);
                     lastProcessedEvent := Some eventName |} st in
    let m := default {| count := 0; totalTime := 0; errors := 0; lastProcessed := 0 |}
                     (eventMetrics st1 !! eventName) in
    (Normal tt,
     set_eventMetrics (<[eventName := {| count := count m + 1;
                                         totalTime := totalTime m + processingTime;
                                         errors := errors m;
                                         lastProcessed := now st1 |}]> (eventMetrics st1)) st1,
     []).

Definition count_queued (delta : Z) (st : State) : State :=
  set_metrics {| eventsProcessed := eventsProcessed (metrics st);
                 eventsQueued := eventsQueued (metrics st) + delta;
                 middlewareExecutions := middlewareExecutions (metrics st);
                 errorEvents := errorEvents (metrics st);
                 lastProcessedEvent := lastProcessedEvent (metrics st) |} st.

Definition count_error (st : State) : State :=
  set_metrics {| eventsProcessed := eventsProcessed (metrics st);
                 eventsQueued := eventsQueued (metrics st);
                 middlewareExecutions := middlewareExecutions (metrics st);
                 errorEvents := errorEvents (metrics st) + 1;
                 lastProcessedEvent := lastProcessedEvent (metrics st) |} st.

(** The object literal at the head of [emit]. *)
Definition new_event (eventName : string) (a : list Value) : M EventData := fun st =>
  (Normal {| name := eventName; args := a; timestamp := now st;
             id := "event_" +:+ string_of_Z (now st) +:+ "_" +:+ random w (randoms st) |},
   set_randoms (S (randoms st)) st, []).

(** The queue test and the [push] of [emit]: [true] when the event
    went into the queue. *)
Definition enqueue (eventData : EventData) : M bool := fun st =>
  if maxQueueSize (config st) <=? Z.of_nat (length (eventQueue st)) then
    (Normal false, count_queued (-1) st, [])
  else
    (Normal true, count_queued 1 (set_eventQueue (eventQueue st ++ [eventData]) st), []).

(** [this.emit(...)] as a call that nobody awaits: the enqueue happens
    at once, the processing it would start is left pending. *)
Definition emit_detached (eventName : string) (a : list Value) : M unit :=
  eventData ← new_event eventName a;
  queued ← enqueue eventData;
  idle ← gets (fun st => negb (isProcessing st));
  if (queued && idle)%bool
  then modify (fun st => set_immediates (S (immediates st)) st)
  else mret tt.

Fixpoint error_handlers_loop (error : Value) (eventData : EventData) (hs : list Fn) : M unit :=
  match hs with
  | [] => mret tt
  | h :: r =>
      let a := [error; value_of_event eventData] in
      try_catch (await (CallErrorHandler h a) (run w h a);; mret tt) (fun handlerError => mret tt);;
      error_handlers_loop error eventData r
  end.

Definition handleEventError (eventName : string) (error : Value) (eventData : EventData) : M unit :=
  try_catch
    (handlers ← gets (fun st => default [] (errorHandlers st !! eventName));
     error_handlers_loop error eventData handlers;;
     if negb (String.eqb eventName "error")
     then emit_detached "error" [error; value_of_event eventData]
     else mret tt)
    (fun errorHandlingError => mret tt).

(** The [try] block of [processEvent]. *)
Definition process_steps (eventData : EventData) (startTime : Z) : M unit :=
  modify (fun st => set_activeEvents ({[ id eventData ]} ∪ activeEvents st) st);;
  filtering ← gets (fun st => enableFiltering (config st));
  pass ← (if filtering : bool
          then applyEventFilters (name eventData) (args eventData)
          else mret true);
  if pass : bool then
    executeMiddleware (name eventData) "pre" (args eventData);;
    executeEventListeners (name eventData) (args eventData);;
    executeMiddleware (name eventData) "post" (args eventData);;
    finish ← gets now;
    updateEventMetrics (name eventData) (finish - startTime)
  else mret tt.

(** The [catch (error)] block of [processEvent]. *)
Definition process_failed (eventData : EventData) (error : Value) : M unit :=
  executeMiddleware (name eventData) "error" (error :: args eventData);;
  handleEventError (name eventData) error eventData;;
  modify count_error.

Definition processEvent (eventData : EventData) : M unit :=
  startTime ← gets now;
  try_finally
    (try_catch (process_steps eventData startTime) (process_failed eventData))
    (modify (fun st => set_activeEvents (activeEvents st ∖ {[ id eventData ]}) st)).

Fixpoint process_all (events : list EventData) : M unit :=
  match events with
  | [] => mret tt
  | e :: r => processEvent e;; process_all r
  end.

(** [processEventQueue]: the [while] loop moves up to [concurrentEvents]
    events out of the queue and starts them; they are then run in the
    order in which they were started. *)
Definition processEventQueue : M unit :=
  busy ← gets isProcessing;
  queue ← gets eventQueue;
  if (busy || bool_decide (queue = []))%bool then mret tt
  else
    modify (set_isProcessing true);;
    try_finally
      (try_catch
         (width ← gets (fun st => Z.to_nat (concurrentEvents (config st)));
          modify (set_eventQueue (drop width queue));;
          process_all (take width queue))
         (fun error => mret tt))
      (modify (set_isProcessing false);;
       rest ← gets eventQueue;
       if bool_decide (rest = [])
       then mret tt
       else modify (fun st => set_immediates (S (immediates st)) st)).

Definition emit (eventName : string) (a : list Value) : M bool :=
  eventData ← new_event eventName a;
  try_catch
    (queued ← enqueue eventData;
     if queued : bool then
       busy ← gets isProcessing;
       (if busy : bool then mret tt else processEventQueue);;
       mret true
     else mret false)
    (fun error => handleEventError eventName error eventData;; mret false).

(** One turn of the macrotask queue. *)
Definition runImmediate : M unit := fun st =>
  match immediates st with
  | O => (Normal tt, st, [])
  | S k => processEventQueue (set_immediates k st)
  end.

End Processing.

(** *** Reading a run

    What follows is not code of the class: it names, for the world at
    hand, what the loop body of [executeEventListeners] will do with a
    listener, and projects the calls of a run. *)

(** The listener's own filter lets the arguments through. *)
Definition accepts (w : World) (a : list Value) (l : Listener) : bool :=
  match listener_filter l with
  | Some f => match run w f a with Returns v _ => truthy v | Throws _ _ => false end
  | None => true
  end.

(** How the race between handler and timer settles. *)
Definition handler_result (w : World) (a : list Value) (l : Listener) : Settled :=
  race (run_handler w (handler l) a) (timer_delay (timeout l)).

(** The handler is called and completes without error. *)
Definition completes (w : World) (a : list Value) (l : Listener) : bool :=
  accepts w a l && match handler_result w a l with Returns _ _ => true | Throws _ _ => false end.

(** The handler is called and throws, or its timer fires first. *)
Definition fails (w : World) (a : list Value) (l : Listener) : bool :=
  accepts w a l && match handler_result w a l with Returns _ _ => false | Throws _ _ => true end.

(** The loop body ends in [this.off(eventName, listener.id)]. *)
Definition fires_once (w : World) (a : list Value) (l : Listener) : bool :=
  once l && completes w a l.

(** The event passes [applyEventFilters], or filtering is off. *)
Definition admitted (w : World) (st : State) (eventName : string) (a : list Value) : bool :=
  negb (enableFiltering (config st)) ||
  forallb (fun f => match run w f a with Returns v _ => truthy v | Throws _ _ => true end)
          (default [] (eventFilters st !! eventName)).

(** A function of the caller, as opposed to a method of the class. *)
Definition user_function (f : Fn) : bool :=
  match f with
  | UserFn _ => true
  | BuiltInFn _ => false
  end.

(** Every listener of the name runs a function of the caller; none of
    them is one of the class's own handlers, whose bodies emit further
    events. *)
Definition callers_own (eventName : string) (st : State) : Prop :=
  Forall (fun l => user_function (handler l) = true) (listeners_of eventName st).

(** [splice] at the first listener that carries the id. *)
Definition remove_by_id (k : string) (ls : list Listener) : list Listener :=
  match list_find (fun l => listener_id l = k) ls with
  | Some (index, _) => delete index ls
  | None => ls
  end.

(** The loop of [executeEventListeners] on the bare array: the array
    it leaves, and the listeners whose handler it called, in order. *)
Fixpoint walk (w : World) (a : list Value) (steps i : nat) (ls : list Listener)
  : list Listener * list Listener :=
  match steps with
  | O => (ls, [])
  | S k =>
      match ls !! i with
      | None => (ls, [])
      | Some l =>
          let ls1 := if fires_once w a l then remove_by_id (listener_id l) ls else ls in
          let '(final, called) := walk w a k (S i) ls1 in
          (final, if accepts w a l then l :: called else called)
      end
  end.

(** The loop started at the head of the array, as
    [executeEventListeners] starts it. *)
Definition listeners_after (w : World) (a : list Value) (ls : list Listener) : list Listener :=
  fst (walk w a (length ls) 0 ls).

Definition listeners_called (w : World) (a : list Value) (ls : list Listener) : list Listener :=
  snd (walk w a (length ls) 0 ls).

Definition handler_calls (tr : list Call) : list Listener :=
  omap (fun c => match c with CallHandler l _ => Some l | _ => None end) tr.

Definition is_error_middleware (c : Call) : bool :=
  match c with
  | CallMiddleware m _ => String.eqb (middleware_type m) "error"
  | _ => false
  end.

Definition error_middleware_calls (tr : list Call) : list Call :=
  List.filter is_error_middleware tr.


(** Nothing in flight, and room for at least one event. *)
Definition idle (st : State) : Prop :=
  isProcessing st = false /\ eventQueue st = [] /\
  0 < maxQueueSize (config st) /\ 0 < concurrentEvents (config st).

(** Registering a list of handlers on one name, first to last. *)
Definition register_all (eventName : string) (regs : list (Fn * Options)) (st : State) : State :=
  foldl (fun st r => snd (fst (on eventName (fst r) (snd r) st))) st regs.

(** The listener objects in the order of their registration. *)
Definition registrations (eventName : string) (regs : list (Fn * Options)) (st : State)
  : list Listener :=
  map (fun r => make_listener eventName (fst r) (snd r) st) regs.

(** Lower priority number first. *)
Definition priority_le (x y : Listener) : Prop := priority x <= priority y.

(** The test at the head of [emit]: the queue holds [maxQueueSize]
    entries or more. *)
Definition queue_full (st : State) : bool :=
  maxQueueSize (config st) <=? Z.of_nat (length (eventQueue st)).

(** The fields that no user function and no counter touches while an
    event is processed. *)
Definition control (st : State) :=
  (middlewareStack st, errorHandlers st, eventFilters st, config st,
   eventQueue st, isProcessing st, immediates st).

Definition result_of {A} (x : Completion Value A * State * list Call) : Completion Value A :=
  fst (fst x).

Definition state_of {A} (x : Completion Value A * State * list Call) : State :=
  snd (fst x).

Definition calls_of {A} (x : Completion Value A * State * list Call) : list Call :=
  snd x.


(** A run that ends normally, leaves the registry and the control
    fields alone, and calls neither a handler nor an error
    middleware. *)
Definition quiet {A} (st : State) (x : Completion Value A * State * list Call) : Prop :=
  is_normal (result_of x) = true /\
  control (state_of x) = control st /\
  eventListeners (state_of x) = eventListeners st /\
  handler_calls (calls_of x) = [] /\
  error_middleware_calls (calls_of x) = [].

(** What a run does to the registry of one name and which handlers it
    calls; everything else as in a quiet run. *)
Definition run_on (eventName : string) (st : State) (final called : list Listener)
           {A} (x : Completion Value A * State * list Call) : Prop :=
  is_normal (result_of x) = true /\
  control (state_of x) = control st /\
  listeners_of eventName (state_of x) = final /\
  (forall n, n <> eventName -> eventListeners (state_of x) !! n = eventListeners st !! n) /\
  handler_calls (calls_of x) = called /\
  error_middleware_calls (calls_of x) = [].

(** *** Further methods *)

(** *** Resetting *)

(** [reset()].  The map [customEvents], which no method modelled here
    reads, is not part of [State]; callbacks already handed to
    [setImmediate] stay pending. *)
Definition reset (st : State) : State :=
  initializeBuiltInEvents
    {| eventListeners := ∅; middlewareStack := ∅; eventQueue := [];
       eventMetrics := ∅; errorHandlers := ∅; eventFilters := ∅;
       metrics := {| eventsProcessed := 0; eventsQueued := 0; middlewareExecutions := 0;
                     errorEvents := 0; lastProcessedEvent := None |};
       config := config st;
       isProcessing := false; activeEvents := ∅; now := now st; randoms := randoms st;
       immediates := immediates st |}.

Definition emergencyShutdown (st : State) : State :=
  set_activeEvents ∅ (set_eventQueue [] (set_isProcessing false st)).

(** The keys that an argument of [updateConfiguration] may carry. *)
Record ConfigPatch := {
  new_maxQueueSize : option Z;
  new_processingTimeout : option Z;
  new_enableMetrics : option bool;
  new_enableFiltering : option bool;
  new_concurrentEvents : option Z;
  new_retryAttempts : option Z
}.

Definition no_patch : ConfigPatch :=
  {| new_maxQueueSize := None; new_processingTimeout := None; new_enableMetrics := None;
     new_enableFiltering := None; new_concurrentEvents := None; new_retryAttempts := None |}.

(** [updateConfiguration(newConfig)]: [{ ...this.config, ...newConfig }]. *)
Definition updateConfiguration (newConfig : ConfigPatch) (st : State) : State :=
  {| eventListeners := eventListeners st; middlewareStack := middlewareStack st;
     eventQueue := eventQueue st; eventMetrics := eventMetrics st;
     errorHandlers := errorHandlers st; eventFilters := eventFilters st;
     metrics := metrics st;
     config :=
       {| maxQueueSize := default (maxQueueSize (config st)) (new_maxQueueSize newConfig);
          processingTimeout :=
            default (processingTimeout (config st)) (new_processingTimeout newConfig);
          enableMetrics := default (enableMetrics (config st)) (new_enableMetrics newConfig);
          enableFiltering :=
            default (enableFiltering (config st)) (new_enableFiltering newConfig);
          concurrentEvents :=
            default (concurrentEvents (config st)) (new_concurrentEvents newConfig);
          retryAttempts := default (retryAttempts (config st)) (new_retryAttempts newConfig) |};
     isProcessing := isProcessing st; activeEvents := activeEvents st; now := now st;
     randoms := randoms st; immediates := immediates st |}.

(** *** Reading a run, continued *)

(** What [applyEventFilters] makes of one filter: a filter that throws
    lets the event through. *)
Definition verdict (w : World) (a : list Value) (f : Fn) : bool :=
  match run w f a with Returns v _ => truthy v | Throws _ _ => true end.

(** The filters that are asked: all up to the first that rejects. *)
Fixpoint consulted (w : World) (a : list Value) (fs : list Fn) : list Fn :=
  match fs with
  | [] => []
  | f :: r => f :: (if verdict w a f then consulted w a r else [])
  end.

(** The middleware returns, so that its execution is counted. *)
Definition returns (w : World) (a : list Value) (m : Middleware) : bool :=
  match run w (middleware m) a with Returns _ _ => true | Throws _ _ => false end.

(** The part of the stack that [executeMiddleware] runs for a type. *)
Definition stack_of (eventName type : string) (st : State) : list Middleware :=
  filter (fun m => middleware_type m = type) (default [] (middlewareStack st !! eventName)).

(** Calls that belong to the error path: an error handler, or a
    middleware of type [error]. *)
Definition is_error_call (c : Call) : bool :=
  match c with
  | CallErrorHandler _ _ => true
  | CallMiddleware m _ => String.eqb (middleware_type m) "error"
  | _ => false
  end.

(** Calls made by the loop of [executeEventListeners]. *)
Definition is_listener_call (c : Call) : bool :=
  match c with
  | CallListenerFilter _ _ => true
  | CallHandler _ _ => true
  | _ => false
  end.

(** The states that a system goes through when its methods are called
    one after the other, each call awaited, and time passes between
    calls. *)
Inductive reachable (w : World) : State -> Prop :=
| reach_constructor (t0 : Z) : reachable w (constructor t0)
| reach_tick (st : State) (t : Z) : reachable w st -> reachable w (set_now t st)
| reach_on (st : State) (n : string) (h : Fn) (o : Options) :
    reachable w st -> reachable w (state_of (on n h o st))
| reach_once (st : State) (n : string) (h : Fn) (o : Options) :
    reachable w st -> reachable w (state_of (once_ n h o st))
| reach_off (st : State) (n k : string) :
    reachable w st -> reachable w (state_of (off n k st))
| reach_use (st : State) (n : string) (mw : Fn) (o : UseOptions) :
    reachable w st -> reachable w (state_of (use n mw o st))
| reach_addFilter (st : State) (n : string) (f : Fn) :
    reachable w st -> reachable w (state_of (addFilter n f st))
| reach_onError (st : State) (n : string) (h : Fn) :
    reachable w st -> reachable w (state_of (onError n h st))
| reach_emit (st : State) (n : string) (a : list Value) :
    reachable w st -> reachable w (state_of (emit w n a st))
| reach_immediate (st : State) :
    reachable w st -> reachable w (state_of (runImmediate w st))
| reach_reset (st : State) : reachable w st -> reachable w (reset st)
| reach_emergencyShutdown (st : State) :
    reachable w st -> reachable w (emergencyShutdown st).


(** The registries and the error counter are as before, and no
    listener list has gained an element. *)
Definition settled (st st' : State) : Prop :=
  middlewareStack st' = middlewareStack st /\
  errorHandlers st' = errorHandlers st /\
  eventFilters st' = eventFilters st /\
  config st' = config st /\
  errorEvents (metrics st') = errorEvents (metrics st) /\
  forall n, sublist (listeners_of n st') (listeners_of n st).

(** The counters and the bookkeeping that the loop over the listeners
    leaves alone. *)
Definition untouched (st st' : State) : Prop :=
  metrics st' = metrics st /\ eventMetrics st' = eventMetrics st /\
  activeEvents st' = activeEvents st /\ randoms st' = randoms st.

(** [middlewareExecutions] moved on by [k]. *)
Definition count_middlewares (k : Z) (st : State) : State :=
  set_metrics {| eventsProcessed := eventsProcessed (metrics st);
                 eventsQueued := eventsQueued (metrics st);
                 middlewareExecutions := middlewareExecutions (metrics st) + k;
                 errorEvents := errorEvents (metrics st);
                 lastProcessedEvent := lastProcessedEvent (metrics st) |} st.

(** The middleware of a list whose execution is counted. *)
Definition executions (w : World) (a : list Value) (ms : list Middleware) : Z :=
  Z.of_nat (length (List.filter (returns w a) ms)).

(** The filters that [processEvent] consults. *)
Definition filters_of (n : string) (st : State) : list Fn :=
  if enableFiltering (config st) then default [] (eventFilters st !! n) else [].

(** The event object that [emit] builds in a given state. *)
Definition event_of (w : World) (eventName : string) (a : list Value) (st : State) : EventData :=
  {| name := eventName; args := a; timestamp := now st;
     id := "event_" +:+ string_of_Z (now st) +:+ "_" +:+ random w (randoms st) |}.

(** The calls of the filters asked about an event. *)
Definition asked (w : World) (eventName : string) (a : list Value) (st : State) : list Call :=
  map (fun f => CallEventFilter f a) (consulted w a (filters_of eventName st)).

(** The calls of the middleware of one type, in stack order. *)
Definition middleware_run (eventName type : string) (a : list Value) (st : State) : list Call :=
  map (fun m => CallMiddleware m a) (stack_of eventName type st).

(** The per-event record before its first update. *)
Definition new_metric : EventMetric :=
  {| count := 0; totalTime := 0; errors := 0; lastProcessed := 0 |}.

(** The state in which [processEvent] finds the system when [emit]
    has queued its event and [processEventQueue] has taken it out. *)
Definition taken (w : World) (n : string) (a : list Value) (st : State) : State :=
  set_eventQueue []
    (set_isProcessing true
       (count_queued 1
          (set_eventQueue (eventQueue st ++ [event_of w n a st])
             (set_randoms (S (randoms st)) st)))).


(** [k] turns of the macrotask queue, one pending callback each. *)
Fixpoint turns (w : World) (k : nat) (st : State) : State :=
  match k with
  | O => st
  | S k' => turns w k' (state_of (runImmediate w st))
  end.

(** Not a call on the error path. *)
Definition no_error_call (c : Call) : Prop := is_error_call c = false.

(** *** Sample systems *)

(** A world in which function 10 accepts, function 11 rejects, function
    20 throws, and every handler returns after 5 ms. *)
Definition sample_world : World :=
  {| run := fun f _ => match f with
                       | UserFn 10 => Returns (VBool true) 1
                       | UserFn 11 => Returns (VBool false) 1
                       | UserFn 20 => Throws (VError "pre") 2
                       | _ => Returns VUndefined 3
                       end;
     run_handler := fun _ _ => Settles (Returns VUndefined 5);
     random := fun _ => "k3x9" |}.

Definition pre_options : UseOptions :=
  {| use_priority := Some 1; use_id := Some "pre-1"; use_type := Some "pre" |}.

Definition post_options : UseOptions :=
  {| use_priority := None; use_id := Some "post-1"; use_type := Some "post" |}.

(** A system with a filter that accepts, a pre middleware that throws,
    a post middleware and a listener on "msg". *)
Definition sample_state : State :=
  state_of (on "msg" (UserFn 1) no_options
    (state_of (use "msg" (UserFn 21) post_options
      (state_of (use "msg" (UserFn 20) pre_options
        (state_of (addFilter "msg" (UserFn 10) (constructor 0)))))))).

(** The sample system with a second filter, which rejects. *)
Definition filtering_state : State :=
  state_of (addFilter "msg" (UserFn 11) sample_state).

(** A batch of width 2 is under way while three events come in; the
    batch ends and leaves its callback. *)
Definition backlog_state : State :=
  let narrow :=
    {| new_maxQueueSize := None; new_processingTimeout := None; new_enableMetrics := None;
       new_enableFiltering := None; new_concurrentEvents := Some 2;
       new_retryAttempts := None |} in
  let busy := set_isProcessing true (updateConfiguration narrow sample_state) in
  let st1 := state_of (emit sample_world "msg" [VNum 1] busy) in
  let st2 := state_of (emit sample_world "msg" [VNum 2] st1) in
  let st3 := state_of (emit sample_world "msg" [VNum 3] st2) in
  set_immediates 1 (set_isProcessing false st3).

(** The width set to 0, then one event emitted. *)
Definition stuck_state : State :=
  let zero :=
    {| new_maxQueueSize := None; new_processingTimeout := None; new_enableMetrics := None;
       new_enableFiltering := None; new_concurrentEvents := Some 0;
       new_retryAttempts := None |} in
  state_of (emit sample_world "msg" [VNum 1] (updateConfiguration zero sample_state)).

End EventSystem.

(** * Properties *)

(** ** Gateway client *)

Module DiscordClientSpec.
Import JS DiscordClient.

Lemma num_or_nonzero (x : option Z) (dflt : Z) : dflt <> 0 -> num_or x dflt <> 0.
Proof.
  intros Hd. unfold num_or. destruct x as [z|]; [|exact Hd].
  destruct (z =? 0) eqn:E; [exact Hd|]. apply Z.eqb_neq. exact E.
Qed.

(** The value bound to [remaining] is never zero, so the branch that
    stores a bucket is never taken. *)
Lemma updateRateLimit_changes_nothing (endpoint : string) (hs : gmap string string) (c : Rest) :
  updateRateLimit endpoint hs c = c.
Proof.
  unfold updateRateLimit.
  pose proof (num_or_nonzero
                (parseInt (string_of_nullable (hs !! "x-ratelimit-remaining"))) 1) as H.
  destruct (num_or _ 1 =? 0) eqn:E; [|reflexivity].
  apply Z.eqb_eq in E. exfalso. apply H; [lia|exact E].
Qed.

Lemma api_keeps_rateLimits (endpoint : string) (net : FetchResult) (c : Rest) :
  rateLimits (snd (api endpoint net c)) = rateLimits c.
Proof.
  assert (rateLimits (checkRateLimit endpoint c) = rateLimits c) as Hc.
  { unfold checkRateLimit. destruct (rateLimits c !! getRouteKey endpoint); [|reflexivity].
    destruct (now c <? z); reflexivity. }
  unfold api. destruct net as [r|r msg|msg after].
  - rewrite updateRateLimit_changes_nothing. destruct (ok r); simpl; exact Hc.
  - rewrite updateRateLimit_changes_nothing. destruct (ok r); simpl; exact Hc.
  - simpl. exact Hc.
Qed.

(** The gate itself works: with a bucket on record whose reset time
    lies ahead, the caller is held until that time. *)
Lemma checkRateLimit_waits (endpoint : string) (c : Rest) (resetTime : Z) :
  rateLimits c !! getRouteKey endpoint = Some resetTime ->
  now c < resetTime ->
  now (checkRateLimit endpoint c) = resetTime.
Proof.
  intros Hb Hlt. unfold checkRateLimit. rewrite Hb.
  destruct (now c <? resetTime) eqn:E.
  - simpl. lia.
  - apply Z.ltb_ge in E. lia.
Qed.

Lemma checkRateLimit_waits_witness :
  now (checkRateLimit "channels/42/messages"
         {| rateLimits := {[ "channels/42" := 3000 ]}; now := 1000; requests := [] |}) = 3000.
Proof.
  apply (checkRateLimit_waits "channels/42/messages" _ 3000); [reflexivity | simpl; lia].
Defined.

(** With no bucket on record a request goes out at once. *)
Lemma checkRateLimit_no_bucket (endpoint : string) (c : Rest) :
  rateLimits c !! getRouteKey endpoint = None -> checkRateLimit endpoint c = c.
Proof. intros H. unfold checkRateLimit. rewrite H. reflexivity. Qed.

(** C1.  A response that reports [x-ratelimit-remaining: 0] with
    [x-ratelimit-reset-after: 2] (two seconds, 2000 ms) arrives at time
    1040; the bucket map stays empty, and a second request to the same
    route, issued at once, reaches [fetch] at time 1040, not at 3040 or
    later: the wait that the property asks for does not take place. *)
Theorem zero_remaining_is_not_enforced :
  let hs : gmap string string :=
    <[ "x-ratelimit-remaining" := "0" ]> {[ "x-ratelimit-reset-after" := "2" ]} in
  let response := {| ok := true; status := 200; headers := hs; body := "{}"; latency := 40 |} in
  let c1 := snd (api "channels/42/messages" (Responds response) (rest_constructor 1000)) in
  let c2 := snd (api "channels/42/messages" (Responds response) c1) in
  now c1 = 1040 /\
  rateLimits c1 = ∅ /\
  requests c2 = [(1000, "channels/42/messages"); (1040, "channels/42/messages")].
Proof.
  cbv zeta. rewrite api_keeps_rateLimits.
  split; [reflexivity|]. split; [reflexivity|].
  unfold api. rewrite !updateRateLimit_changes_nothing. reflexivity.
Qed.

(** *** The tracked sequence number *)

Lemma handleDispatch_keeps_lastSequence (event : option string) (data : Payload) (c : Session) :
  lastSequence (snd (handleDispatch event data c)) = lastSequence c.
Proof.
  unfold handleDispatch, handleReady, handleGuildCreate, emit_named.
  destruct event as [e|]; [|reflexivity].
  repeat match goal with |- context [if ?b then _ else _] => destruct b end;
    try reflexivity; destruct data as [| | | g |]; try reflexivity.
  simpl. destruct (guild_channels g); reflexivity.
Qed.

(** Whatever the opcode, a frame moves [lastSequence] only through the
    assignment at the head of [handleGatewayMessage]. *)
Lemma handleGatewayMessage_lastSequence (p : Packet) (c : Session) :
  lastSequence (snd (handleGatewayMessage p c)) =
  if seq_truthy (s p) then s p else lastSequence c.
Proof.
  unfold handleGatewayMessage.
  set (c1 := if seq_truthy (s p) then set_lastSequence (s p) c else c).
  assert (lastSequence c1 = if seq_truthy (s p) then s p else lastSequence c) as H1.
  { subst c1. destruct (seq_truthy (s p)); reflexivity. }
  rewrite <- H1.
  destruct (op p =? 0); [apply handleDispatch_keeps_lastSequence|].
  destruct (op p =? 1); [unfold sendHeartbeat; destruct (ws_open c1); reflexivity|].
  destruct (op p =? 10); [|reflexivity].
  destruct (d p); reflexivity.
Qed.

Lemma deliver_tracks (ps : list Packet) :
  forall (seqs : list Z) (c : Session),
    map s ps = map Some seqs ->
    StronglySorted Z.lt seqs ->
    Forall (fun z => z <> 0) seqs ->
    (forall m, lastSequence c = Some m -> Forall (fun z => m < z) seqs) ->
    Sorted seq_le (lastSequence c :: map lastSequence (history ps c)) /\
    lastSequence (deliver ps c) = foldl max_step (lastSequence c) seqs.
Proof.
  induction ps as [|p ps IH]; intros seqs c Hs Hinc Hnz Hlow.
  - destruct seqs; [|discriminate]. simpl. split; [repeat constructor | reflexivity].
  - destruct seqs as [|z seqs]; [discriminate|].
    simpl in Hs. injection Hs as Hp Hrest.
    apply StronglySorted_inv in Hinc as [Hinc Hz].
    apply Forall_cons in Hnz as [Hz0 Hnz].
    assert (lastSequence (snd (handleGatewayMessage p c)) = Some z) as Hnew.
    { rewrite handleGatewayMessage_lastSequence, Hp. simpl.
      destruct (z =? 0) eqn:E; [apply Z.eqb_eq in E; contradiction | reflexivity]. }
    destruct (IH seqs (snd (handleGatewayMessage p c)) Hrest Hinc Hnz) as [Hsorted Hlast].
    { intros m Hm. rewrite Hnew in Hm. injection Hm as <-. exact Hz. }
    split.
    + simpl. constructor; [exact Hsorted|].
      constructor. rewrite Hnew. unfold seq_le.
      destruct (lastSequence c) as [m|] eqn:Hc; [|exact I].
      specialize (Hlow m eq_refl). apply Forall_cons in Hlow as [Hlt _]. lia.
    + change (deliver (p :: ps) c) with (deliver ps (snd (handleGatewayMessage p c))).
      rewrite Hlast, Hnew. simpl. f_equal.
      unfold max_step.
      destruct (lastSequence c) as [m|] eqn:Hc; [|reflexivity].
      specialize (Hlow m eq_refl). apply Forall_cons in Hlow as [Hlt _].
      f_equal. lia.
Qed.

(** C5, as stated, fails on a frame that carries the sequence number 0:
    the guard [if (s)] takes 0 for an absent number, the tracked value
    stays [null] while the largest number delivered is 0. *)
Lemma sequence_zero_is_not_tracked :
  let frame := {| op := 0; d := PData "{}"; s := Some 0; t := Some "MESSAGE_CREATE" |} in
  lastSequence (deliver [frame] constructor) = None /\
  max_seq [0] = Some 0 /\
  lastSequence (deliver [frame] constructor) <> max_seq [0].
Proof. cbv zeta. split; [reflexivity|]. split; [reflexivity|]. discriminate. Qed.

(** C5, amended.  For frames that carry sequence numbers
    [s1 < s2 < ...], none of them 0, delivered to a session that has
    not tracked a number yet: the tracked [lastSequence] never goes
    down from one delivery to the next, and in the end it is the
    largest number delivered. *)
Theorem lastSequence_tracks_maximum (ps : list Packet) (seqs : list Z) (c : Session) :
  map s ps = map Some seqs ->
  StronglySorted Z.lt seqs ->
  Forall (fun z => z <> 0) seqs ->
  lastSequence c = None ->
  Sorted seq_le (map lastSequence (c :: history ps c)) /\
  lastSequence (deliver ps c) = max_seq seqs.
Proof.
  intros Hs Hinc Hnz Hnone.
  destruct (deliver_tracks ps seqs c Hs Hinc Hnz) as [H1 H2].
  { intros m Hm. rewrite Hnone in Hm. discriminate. }
  split; [exact H1|]. rewrite H2, Hnone. reflexivity.
Qed.

Lemma lastSequence_tracks_maximum_witness :
  let frames :=
    [ {| op := 0; d := PReady "bot" "session-1" []; s := Some 1; t := Some "READY" |};
      {| op := 0; d := PData "{}"; s := Some 2; t := Some "MESSAGE_CREATE" |};
      {| op := 0; d := PData "{}"; s := Some 5; t := Some "TYPING_START" |} ] in
  Sorted seq_le (map lastSequence (constructor :: history frames constructor)) /\
  lastSequence (deliver frames constructor) = Some 5.
Proof.
  cbv zeta.
  apply (lastSequence_tracks_maximum _ [1; 2; 5] constructor).
  - reflexivity.
  - repeat constructor; lia.
  - repeat constructor; lia.
  - reflexivity.
Defined.

(** *** Route keys *)

Lemma includes_slash_cons (c : ascii) (r : string) :
  includes "/" (String c r) = ascii_eqb c "/" || includes "/" r.
Proof.
  cbn [includes String.prefix]. unfold ascii_eqb.
  destruct (Ascii.eqb_spec c "/") as [->|Hne].
  - destruct r; reflexivity.
  - destruct (ascii_dec "/" c) as [<-|_]; [congruence|].
    rewrite ?(proj2 (Ascii.eqb_neq "/" c)) by congruence. reflexivity.
Qed.

Lemma split_nonempty (x : string) : split "/" x <> [].
Proof.
  destruct x as [|c r]; [discriminate|]. cbn [split].
  destruct (ascii_eqb c "/"); [discriminate|].
  destruct (split "/" r); discriminate.
Qed.

Lemma split_slash_free (x : string) : slash_free x = true -> split "/" x = [x].
Proof.
  unfold slash_free. induction x as [|c r IH]; [reflexivity|].
  rewrite includes_slash_cons. intros H. apply negb_true_iff, orb_false_iff in H as [Hc Hr].
  cbn [split]. rewrite Hc. rewrite IH by (rewrite Hr; reflexivity). reflexivity.
Qed.

Lemma split_segment (x rest : string) :
  slash_free x = true -> split "/" (x +:+ "/" +:+ rest) = x :: split "/" rest.
Proof.
  unfold slash_free. induction x as [|c r IH].
  - intros _. reflexivity.
  - rewrite includes_slash_cons. intros H.
    apply negb_true_iff, orb_false_iff in H as [Hc Hr].
    change (String c r +:+ "/" +:+ rest) with (String c (r +:+ "/" +:+ rest)).
    cbn [split]. rewrite Hc. rewrite IH by (rewrite Hr; reflexivity). reflexivity.
Qed.

Lemma split_segments (x : string) : Forall (fun seg => slash_free seg = true) (split "/" x).
Proof.
  induction x as [|c r IH]; [repeat constructor|].
  cbn [split]. destruct (ascii_eqb c "/") eqn:Hc.
  - constructor; [reflexivity | exact IH].
  - destruct (split "/" r) as [|h tl]; [repeat constructor|].
    + unfold slash_free. rewrite includes_slash_cons, Hc. reflexivity.
    + apply Forall_cons in IH as [Hh Htl]. constructor; [|exact Htl].
      unfold slash_free in *. rewrite includes_slash_cons, Hc. exact Hh.
Qed.

Lemma split_join (l : list string) :
  l <> [] -> Forall (fun seg => slash_free seg = true) l -> split "/" (join "/" l) = l.
Proof.
  induction l as [|x l IH]; [congruence|]. intros _ Hall.
  apply Forall_cons in Hall as [Hx Hl].
  destruct l as [|y l].
  - apply split_slash_free. exact Hx.
  - change (join "/" (x :: y :: l)) with (x +:+ "/" +:+ join "/" (y :: l)).
    rewrite split_segment by exact Hx. rewrite IH by (congruence || exact Hl). reflexivity.
Qed.

Lemma split_two_segments (a b rest : string) :
  slash_free a = true -> slash_free b = true ->
  split "/" (a +:+ "/" +:+ b +:+ "/" +:+ rest) = a :: b :: split "/" rest.
Proof.
  intros Ha Hb. rewrite split_segment by exact Ha. rewrite split_segment by exact Hb.
  reflexivity.
Qed.

Lemma join_two_segments (a b : string) (more : list string) :
  more <> [] -> join "/" (slice0 2 (a :: b :: more)) = a +:+ "/" +:+ b.
Proof. intros _. reflexivity. Qed.

Lemma getRouteKey_short (a b : string) :
  slash_free a = true -> slash_free b = true ->
  getRouteKey (a +:+ "/" +:+ b) = a +:+ "/" +:+ b.
Proof.
  intros Ha Hb. unfold getRouteKey, slice0.
  rewrite split_segment by exact Ha. rewrite split_slash_free by exact Hb. reflexivity.
Qed.

(** X1.  Every endpoint below [a/b/] has the route key [a/b]: the
    bucket of a request is named by the first two path segments of its
    endpoint, whatever follows them. *)
Theorem getRouteKey_two_segments (a b rest : string) :
  slash_free a = true -> slash_free b = true ->
  getRouteKey (a +:+ "/" +:+ b +:+ "/" +:+ rest) = a +:+ "/" +:+ b.
Proof.
  intros Ha Hb. unfold getRouteKey.
  rewrite split_two_segments by assumption.
  apply join_two_segments, split_nonempty.
Qed.

Lemma getRouteKey_two_segments_witness :
  getRouteKey ("channels" +:+ "/" +:+ "42" +:+ "/" +:+ "messages/7/reactions") =
  "channels" +:+ "/" +:+ "42".
Proof. apply getRouteKey_two_segments; reflexivity. Defined.

(** X2.  A route key is its own route key: [getRouteKey] is
    idempotent, so keys never need normalising twice and an endpoint of
    one or two segments is its own bucket. *)
Theorem getRouteKey_idempotent (endpoint : string) :
  getRouteKey (getRouteKey endpoint) = getRouteKey endpoint.
Proof.
  unfold getRouteKey, slice0.
  pose proof (split_nonempty endpoint) as Hne.
  pose proof (split_segments endpoint) as Hall.
  destruct (split "/" endpoint) as [|x l]; [congruence|].
  assert (take 2 (x :: l) <> []) as Hne2 by discriminate.
  assert (Forall (fun seg => slash_free seg = true) (take 2 (x :: l))) as Hall2.
  { apply Forall_take. exact Hall. }
  rewrite split_join by assumption.
  rewrite take_take. reflexivity.
Qed.

(** *** Requests *)

Lemma checkRateLimit_frame (endpoint : string) (c : Rest) :
  rateLimits (checkRateLimit endpoint c) = rateLimits c /\
  requests (checkRateLimit endpoint c) = requests c /\
  now (checkRateLimit endpoint c) = dispatch_time endpoint c.
Proof.
  unfold checkRateLimit, dispatch_time.
  destruct (rateLimits c !! getRouteKey endpoint) as [r|]; [|repeat split].
  destruct (Z.ltb_spec (now c) r); simpl; repeat split; lia.
Qed.

Lemma api_requests (endpoint : string) (net : FetchResult) (c : Rest) :
  requests (snd (api endpoint net c)) = requests c ++ [(dispatch_time endpoint c, endpoint)].
Proof.
  destruct (checkRateLimit_frame endpoint c) as (_ & Hreq & Hnow).
  unfold api. destruct net as [r|r msg|msg after].
  - rewrite updateRateLimit_changes_nothing.
    destruct (ok r); simpl; rewrite Hreq, Hnow; reflexivity.
  - rewrite updateRateLimit_changes_nothing.
    destruct (ok r); simpl; rewrite Hreq, Hnow; reflexivity.
  - simpl. rewrite Hreq, Hnow. reflexivity.
Qed.

(** X3.  One call of [api] hands exactly one request to [fetch],
    whatever the outcome: there is no second attempt after a rejection
    or an error status.  The request goes out at the reset time on
    record for its route if that lies ahead, at once otherwise.  The
    call returns normally exactly when the response is [ok] and its
    body parses as JSON, and then it returns the parsed body; an [ok]
    response without a body that parses, such as a 204, makes the call
    throw the error of [json()], and a response that is not [ok] makes
    it throw an error that names the status and the body, or [{}] for
    a body that does not parse. *)
Theorem api_one_fetch (endpoint : string) (net : FetchResult) (c : Rest) :
  requests (snd (api endpoint net c)) = requests c ++ [(dispatch_time endpoint c, endpoint)] /\
  is_normal (fst (api endpoint net c)) =
    match net with
    | Responds r => ok r
    | Garbled _ _ => false
    | Rejects _ _ => false
    end /\
  (forall r, net = Responds r -> ok r = true -> fst (api endpoint net c) = Normal (body r)) /\
  (forall r message, net = Garbled r message -> ok r = true ->
                     fst (api endpoint net c) = Throw message) /\
  (forall r, net = Responds r -> ok r = false ->
             fst (api endpoint net c) =
               Throw ("Discord API Error: " +:+ string_of_Z (status r) +:+ " - " +:+ body r)) /\
  (forall r message, net = Garbled r message -> ok r = false ->
                     fst (api endpoint net c) =
                       Throw ("Discord API Error: " +:+ string_of_Z (status r) +:+ " - {}")).
Proof.
  split; [apply api_requests|].
  split; [unfold api; destruct net as [r|r msg|msg after]; try destruct (ok r); reflexivity|].
  split; [intros r -> Hok; unfold api; rewrite Hok; reflexivity|].
  split; [intros r message -> Hok; unfold api; rewrite Hok; reflexivity|].
  split; [intros r -> Hok; unfold api; rewrite Hok; reflexivity|].
  intros r message -> Hok; unfold api; rewrite Hok; reflexivity.
Qed.

Lemma route_of_api (endpoint : string) (net : FetchResult) (c : Rest) :
  route_of (api endpoint) net c = Some (getRouteKey endpoint).
Proof.
  unfold route_of. rewrite api_requests, last_snoc. reflexivity.
Qed.

Lemma guild_route (guildId rest : string) :
  slash_free guildId = true ->
  getRouteKey ("guilds/" +:+ guildId +:+ "/" +:+ rest) = "guilds/" +:+ guildId.
Proof.
  intros H. unfold getRouteKey.
  change ("guilds/" +:+ guildId +:+ "/" +:+ rest)
    with ("guilds" +:+ "/" +:+ guildId +:+ "/" +:+ rest).
  rewrite (split_two_segments "guilds" guildId rest eq_refl H).
  apply join_two_segments, split_nonempty.
Qed.

Lemma channel_route (channelId rest : string) :
  slash_free channelId = true ->
  getRouteKey ("channels/" +:+ channelId +:+ "/" +:+ rest) = "channels/" +:+ channelId.
Proof.
  intros H. unfold getRouteKey.
  change ("channels/" +:+ channelId +:+ "/" +:+ rest)
    with ("channels" +:+ "/" +:+ channelId +:+ "/" +:+ rest).
  rewrite (split_two_segments "channels" channelId rest eq_refl H).
  apply join_two_segments, split_nonempty.
Qed.

(** X4.  The REST wrappers that act on one guild all fall into the
    bucket [guilds/<id>], whatever sub-resource (channels, roles,
    members, bans) they address, and those that act on one channel all
    fall into [channels/<id>]: a bucket on record for a guild or a
    channel gates every one of these calls. *)
Theorem scoped_calls_share_bucket
        (guildId channelId userId roleId after : string) (limit : Z)
        (net : FetchResult) (c : Rest) :
  slash_free guildId = true -> slash_free channelId = true ->
  Forall (fun call => route_of call net c = Some ("guilds/" +:+ guildId))
    [getGuild guildId; modifyGuild guildId; createChannel guildId; createRole guildId;
     modifyRole guildId roleId; deleteRole guildId roleId;
     addMemberRole guildId userId roleId; removeMemberRole guildId userId roleId;
     getGuildMembers guildId limit after; kickMember guildId userId;
     banMember guildId userId] /\
  Forall (fun call => route_of call net c = Some ("channels/" +:+ channelId))
    [sendMessage channelId; modifyChannel channelId; deleteChannel channelId].
Proof.
  intros Hg Hc.
  pose proof (getRouteKey_short "guilds" guildId eq_refl Hg) as Hg0.
  pose proof (getRouteKey_short "channels" channelId eq_refl Hc) as Hc0.
  split; repeat constructor;
    unfold getGuild, modifyGuild, createChannel, createRole, modifyRole, deleteRole,
      addMemberRole, removeMemberRole, getGuildMembers, kickMember, banMember,
      sendMessage, modifyChannel, deleteChannel;
    rewrite route_of_api; f_equal;
    first [ exact Hg0 | exact Hc0
          | apply guild_route; exact Hg | apply channel_route; exact Hc ].
Qed.

Lemma scoped_calls_share_bucket_witness :
  let c := rest_constructor 1000 in
  let net := Rejects "ECONNRESET" 5 in
  Forall (fun call => route_of call net c = Some ("guilds/" +:+ "81384788765712384"))
    [getGuild "81384788765712384"; modifyGuild "81384788765712384";
     createChannel "81384788765712384"; createRole "81384788765712384";
     modifyRole "81384788765712384" "7"; deleteRole "81384788765712384" "7";
     addMemberRole "81384788765712384" "53" "7"; removeMemberRole "81384788765712384" "53" "7";
     getGuildMembers "81384788765712384" 1000 "0"; kickMember "81384788765712384" "53";
     banMember "81384788765712384" "53"] /\
  Forall (fun call => route_of call net c = Some ("channels/" +:+ "42"))
    [sendMessage "42"; modifyChannel "42"; deleteChannel "42"].
Proof.
  cbv zeta.
  apply (scoped_calls_share_bucket "81384788765712384" "42" "53" "7" "0" 1000);
    vm_compute; reflexivity.
Defined.

(** *** The gateway session *)

Lemma foldl_guilds_lookup (gs : list Guild) (m : gmap string Guild) (k : string) :
  foldl (fun m g => <[guild_id g := g]> m) m gs !! k =
  match last_guild k gs with Some g => Some g | None => m !! k end.
Proof.
  unfold last_guild.
  induction gs as [|g gs IH] using rev_ind; [reflexivity|].
  rewrite foldl_app, filter_app. cbn [foldl].
  destruct (decide (guild_id g = k)) as [E|E].
  - rewrite filter_cons_True by exact E. rewrite filter_nil, last_snoc.
    rewrite <- E. apply lookup_insert_eq.
  - rewrite filter_cons_False by exact E. rewrite filter_nil, app_nil_r.
    rewrite lookup_insert_ne by exact E. exact IH.
Qed.

(** X5.  A READY dispatch marks the session connected, stores the
    user and the session id, announces [ready] once, and caches every
    guild of its payload under the guild's id: a lookup finds the last
    guild of the payload with that id, and an id that the payload does
    not mention keeps its earlier entry. *)
Theorem ready_caches_guilds (u sid : string) (gs : list Guild) (seq : option Z) (c : Session) :
  let c' := snd (handleGatewayMessage
                   {| op := 0; d := PReady u sid gs; s := seq; t := Some "READY" |} c) in
  connected c' = true /\
  sessionId c' = Some sid /\
  user c' = Some u /\
  (forall k, guilds c' !! k =
             match last_guild k gs with Some g => Some g | None => guilds c !! k end) /\
  emitted c' = emitted c ++ [("ready", PNull)].
Proof.
  cbv zeta. unfold handleGatewayMessage. cbn [op d s t Z.eqb handleDispatch String.eqb].
  unfold handleReady. cbn [snd].
  destruct (seq_truthy seq); cbn; repeat split; intros k; apply foldl_guilds_lookup.
Qed.

















(** X7.  Whatever is passed to [login], the credential it stores
    starts with the scheme [Bot ], and a credential that already has
    the scheme is stored as it is: normalising twice changes nothing. *)
Theorem login_token_scheme (token : option string) :
  String.prefix "Bot " (login_token token) = true /\
  login_token (Some (login_token token)) = login_token token.
Proof.
  assert (forall tk, String.prefix "Bot " ("Bot " +:+ tk) = true) as Hp.
  { intros tk. cbn. destruct tk; reflexivity. }
  destruct token as [tk|]; [|split; reflexivity].
  cbn [login_token]. destruct (String.prefix "Bot " tk) eqn:E.
  - rewrite ?E. split; first [reflexivity | exact E].
  - rewrite ?Hp. split; first [reflexivity | apply Hp].
Qed.

End DiscordClientSpec.

(** ** Provider fallback *)

Module AIEngineSpec.
Import JS AIEngine.

Lemma serve_snoc (reqs : list (string * Net)) (r : string * Net) (e : Engine) :
  serve (reqs ++ [r]) e = snd (processIntelligence (fst r) (snd r) (serve reqs e)).
Proof. unfold serve. rewrite foldl_app. reflexivity. Qed.

Lemma failures_snoc (reqs : list (string * Net)) (r : string * Net) :
  failures (reqs ++ [r]) = failures reqs + (if primary_fails r then 1 else 0).
Proof.
  unfold failures. rewrite filter_app, length_app. simpl.
  destruct (primary_fails r) eqn:E.
  - rewrite filter_cons_True by exact E. simpl. lia.
  - rewrite filter_cons_False by (rewrite E; discriminate). simpl. lia.
Qed.

(** What [processIntelligence] leaves in the primary provider's status. *)
Lemma processIntelligence_primary (prompt : string) (net : Net) (e : Engine) :
  primary (snd (processIntelligence prompt net e)) =
  if available (primary e) && primary_fails (prompt, net)
  then primary (primary_failed e) else primary e.
Proof.
  unfold processIntelligence, primary_fails. simpl.
  destruct (context_error net); [rewrite andb_false_r; reflexivity|].
  destruct (available (primary e)) eqn:Ha; simpl.
  - destruct (primary_reply net) as [text|msg].
    + destruct (nonempty text); [reflexivity|].
      destruct (available (fallback e)); [|reflexivity].
      destruct (fallback_reply net) as [t2|m2]; [destruct (nonempty t2)|]; reflexivity.
    + destruct (available (fallback (primary_failed e)));
        [destruct (fallback_reply net) as [t2|m2]; [destruct (nonempty t2)|]|];
        simpl; rewrite ?Ha; reflexivity.
  - destruct (available (fallback e)); [|reflexivity].
    destruct (fallback_reply net) as [t2|m2]; [destruct (nonempty t2)|]; reflexivity.
Qed.

(** [processIntelligence] never writes the fallback's [available]. *)
Lemma processIntelligence_fallback_available (prompt : string) (net : Net) (e : Engine) :
  available (fallback (snd (processIntelligence prompt net e))) = available (fallback e).
Proof.
  unfold processIntelligence.
  destruct (context_error net); [reflexivity|].
  destruct (available (primary e)).
  - destruct (primary_reply net) as [text|msg].
    + destruct (nonempty text); [reflexivity|].
      destruct (available (fallback e)) eqn:Hf; [|exact Hf].
      destruct (fallback_reply net) as [t2|m2]; [destruct (nonempty t2)|]; exact Hf.
    + change (fallback (primary_failed e)) with (fallback e).
      destruct (available (fallback e)) eqn:Hf; [|exact Hf].
      destruct (fallback_reply net) as [t2|m2]; [destruct (nonempty t2)|]; exact Hf.
  - destruct (available (fallback e)) eqn:Hf; [|exact Hf].
    destruct (fallback_reply net) as [t2|m2]; [destruct (nonempty t2)|]; exact Hf.
Qed.

(** The counter counts failed primary calls since construction, up to
    the sixth, which switches the provider off. *)
Lemma serve_bookkeeping (reqs : list (string * Net)) :
  errorCount (primary (serve reqs constructor)) = Z.min (failures reqs) 6 /\
  available (primary (serve reqs constructor)) = (failures reqs <=? 5) /\
  available (fallback (serve reqs constructor)) = true.
Proof.
  induction reqs as [|r reqs IH] using rev_ind.
  - repeat split.
  - destruct IH as (Hc & Ha & Hf).
    rewrite serve_snoc, failures_snoc.
    rewrite processIntelligence_fallback_available.
    split; [|split; [|exact Hf]];
      rewrite processIntelligence_primary; rewrite Ha;
      replace (fst r, snd r) with r by (destruct r; reflexivity);
      assert (0 <= failures reqs) by (unfold failures; lia);
      destruct (failures reqs <=? 5) eqn:E5; destruct (primary_fails r); simpl;
      rewrite ?Hc, ?Ha, ?E5;
      try apply Z.leb_le in E5; try apply Z.leb_gt in E5;
      repeat match goal with
             | |- context [?x <? ?y] => destruct (Z.ltb_spec x y)
             | |- context [?x <=? ?y] => destruct (Z.leb_spec x y)
             end; try reflexivity; try lia.
Qed.

(** C4, as stated, fails: after three consecutive failures of the
    primary provider it is still available, and a fourth request calls
    it first. *)
Lemma three_failures_leave_primary_on :
  let net := {| context_error := None; primary_reply := ProviderError "503";
                fallback_reply := Content "pong" |} in
  let e3 := serve [("ping", net); ("ping", net); ("ping", net)] constructor in
  errorCount (primary e3) = 3 /\
  available (primary e3) = true /\
  snd (fst (processIntelligence "ping" net e3)) = [Primary; Fallback].
Proof. cbv zeta. repeat split. Qed.

(** C4, amended.  The threshold is the constant 5 and the counter is
    never reset: after any run of requests the primary provider is
    available exactly when at most five of its calls have failed; once
    more than five have, a request skips it and calls the fallback
    provider directly. *)
Theorem primary_disabled_after_six_failures
  (reqs : list (string * Net)) (prompt : string) (net : Net) :
  available (primary (serve reqs constructor)) = (failures reqs <=? 5) /\
  (5 < failures reqs ->
   context_error net = None ->
   snd (fst (processIntelligence prompt net (serve reqs constructor))) = [Fallback]).
Proof.
  destruct (serve_bookkeeping reqs) as (_ & Ha & Hf).
  split; [exact Ha|].
  intros H6 Hctx. unfold processIntelligence. rewrite Hctx, Ha.
  destruct (Z.leb_spec (failures reqs) 5); [lia|].
  rewrite Hf.
  destruct (fallback_reply net) as [t2|m2]; [destruct (nonempty t2)|]; reflexivity.
Qed.

Lemma primary_disabled_after_six_failures_witness :
  let net := {| context_error := None; primary_reply := ProviderError "503";
                fallback_reply := Content "pong" |} in
  let reqs := [("a", net); ("b", net); ("c", net); ("d", net); ("e", net); ("f", net)] in
  available (primary (serve reqs constructor)) = false /\
  snd (fst (processIntelligence "g" net (serve reqs constructor))) = [Fallback].
Proof.
  cbv zeta.
  pose proof (primary_disabled_after_six_failures
                (let net := {| context_error := None; primary_reply := ProviderError "503";
                               fallback_reply := Content "pong" |} in
                 [("a", net); ("b", net); ("c", net); ("d", net); ("e", net); ("f", net)])
                "g"
                {| context_error := None; primary_reply := ProviderError "503";
                   fallback_reply := Content "pong" |}) as [H1 H2].
  split; [exact H1 | apply H2; [vm_compute; reflexivity | reflexivity]].
Defined.

Lemma generateBuiltInResponse_nonempty (prompt : string) :
  nonempty (generateBuiltInResponse prompt) = true.
Proof.
  unfold generateBuiltInResponse.
  repeat match goal with |- context [if ?b then _ else _] => destruct b end; reflexivity.
Qed.

(** X8.  [processIntelligence] always hands back a non-empty answer:
    a provider's reply is used only if it is non-empty, and the
    built-in and the emergency texts are non-empty. *)
Theorem processIntelligence_answers (prompt : string) (net : Net) (e : Engine) :
  nonempty (fst (fst (processIntelligence prompt net e))) = true.
Proof.
  pose proof (generateBuiltInResponse_nonempty prompt) as Hb.
  unfold processIntelligence.
  destruct (context_error net); [reflexivity|].
  destruct (available (primary e)).
  - destruct (primary_reply net) as [text|msg].
    + destruct (nonempty text) eqn:Ht; [exact Ht|].
      destruct (available (fallback e)); [|exact Hb].
      destruct (fallback_reply net) as [t2|m2]; [destruct (nonempty t2) eqn:H2|];
        first [exact H2 | exact Hb].
    + change (fallback (primary_failed e)) with (fallback e).
      destruct (available (fallback e)); [|exact Hb].
      destruct (fallback_reply net) as [t2|m2]; [destruct (nonempty t2) eqn:H2|];
        first [exact H2 | exact Hb].
  - destruct (available (fallback e)); [|exact Hb].
    destruct (fallback_reply net) as [t2|m2]; [destruct (nonempty t2) eqn:H2|];
      first [exact H2 | exact Hb].
Qed.

(** X9.  One request calls each provider at most once and never the
    fallback before the primary; a provider that is marked unavailable
    is not called, and no provider is called when building the context
    failed. *)
Theorem provider_call_discipline (prompt : string) (net : Net) (e : Engine) :
  let calls := snd (fst (processIntelligence prompt net e)) in
  sublist calls [Primary; Fallback] /\
  (Primary ∈ calls -> available (primary e) = true /\ context_error net = None) /\
  (Fallback ∈ calls -> available (fallback e) = true /\ context_error net = None).
Proof.
  cbv zeta. unfold processIntelligence.
  assert (forall x : Provider, x ∈ ([] : list Provider) -> False) as Hnil.
  { intros x H. inversion H. }
  assert (Primary ∈ [Fallback] -> False) as Hpf.
  { intros H. apply list_elem_of_singleton in H. discriminate. }
  assert (Fallback ∈ [Primary] -> False) as Hfp.
  { intros H. apply list_elem_of_singleton in H. discriminate. }
  assert (sublist [] [Primary; Fallback]) as S0 by apply sublist_nil_l.
  assert (sublist [Primary] [Primary; Fallback]) as S1.
  { apply sublist_skip, sublist_nil_l. }
  assert (sublist [Fallback] [Primary; Fallback]) as S2.
  { apply sublist_cons, sublist_skip, sublist_nil_l. }
  assert (sublist [Primary; Fallback] [Primary; Fallback]) as S3 by reflexivity.
  destruct (context_error net).
  { cbn. split; [assumption|]. split; intros H; destruct (Hnil _ H). }
  destruct (available (primary e)) eqn:Hp;
    [destruct (primary_reply net) as [text|msg]; [destruct (nonempty text)|]|];
    try change (fallback (primary_failed e)) with (fallback e);
    try (destruct (available (fallback e)) eqn:Hf;
         [destruct (fallback_reply net) as [t2|m2]; [destruct (nonempty t2)|]|]);
    cbn; (split; [assumption|]);
    split; intros H;
    first [ exfalso; first [exact (Hnil _ H) | exact (Hpf H) | exact (Hfp H)]
          | split; first [reflexivity | assumption] ].
Qed.

Lemma processIntelligence_primary_off (prompt : string) (net : Net) (e : Engine) :
  available (primary e) = false ->
  available (fallback e) = true ->
  context_error net = None ->
  snd (fst (processIntelligence prompt net e)) = [Fallback] /\
  primary (snd (processIntelligence prompt net e)) = primary e.
Proof.
  intros Hp Hf Hc. unfold processIntelligence. rewrite Hc, Hp, Hf.
  destruct (fallback_reply net) as [t2|m2]; [destruct (nonempty t2)|]; split; reflexivity.
Qed.

(** X10.  There is no way back by itself, and no breaker on the
    fallback: once the primary provider is marked unavailable, every
    later request goes to the fallback provider alone, however often
    that one fails, and the primary's status is left as it is. *)
Theorem primary_stays_off (reqs : list (string * Net)) (e : Engine) :
  available (primary e) = false ->
  available (fallback e) = true ->
  Forall (fun r => context_error (snd r) = None) reqs ->
  transcript reqs e = map (fun _ => [Fallback]) reqs /\
  primary (serve reqs e) = primary e /\
  available (fallback (serve reqs e)) = true.
Proof.
  revert e. induction reqs as [|r reqs IH]; intros e Hp Hf Hall.
  - repeat split. exact Hf.
  - apply Forall_cons in Hall as [Hr Hall].
    destruct (processIntelligence_primary_off (fst r) (snd r) e Hp Hf Hr) as [Hcalls Hprim].
    pose proof (processIntelligence_fallback_available (fst r) (snd r) e) as Hfb.
    destruct (IH (snd (processIntelligence (fst r) (snd r) e))) as (Ht & Hs & Ha).
    + rewrite Hprim. exact Hp.
    + rewrite Hfb. exact Hf.
    + exact Hall.
    + change (serve (r :: reqs) e)
        with (serve reqs (snd (processIntelligence (fst r) (snd r) e))).
      cbn [transcript map]. rewrite Hcalls, Ht, Hs, Hprim. repeat split. exact Ha.
Qed.

Lemma primary_stays_off_witness :
  let down := {| context_error := None; primary_reply := Content "fine";
                 fallback_reply := ProviderError "502" |} in
  let e := {| primary := {| available := false; lastError := None; errorCount := 6 |};
              fallback := fallback constructor; metrics := metrics constructor |} in
  let reqs := [("a", down); ("b", down); ("c", down)] in
  transcript reqs e = map (fun _ => [Fallback]) reqs /\
  primary (serve reqs e) = primary e /\
  available (fallback (serve reqs e)) = true.
Proof.
  cbv zeta. apply primary_stays_off; [reflexivity | reflexivity |].
  repeat constructor.
Defined.

(** X11.  The probe of [testProviderConnections] turns a provider
    back on without clearing its error count: a primary provider that
    was switched off and then answers the probe is available again,
    and the first failed call after that switches it off again. *)
Theorem revived_primary_trips_at_once
        (probe net : Net) (prompt answer message : string) (e : Engine) :
  5 <= errorCount (primary e) ->
  primary_reply probe = Content answer ->
  includes "INTELLIGENCE_ONLINE" answer = true ->
  context_error net = None ->
  primary_reply net = ProviderError message ->
  let e1 := snd (testProviderConnections probe e) in
  available (primary e1) = true /\
  errorCount (primary e1) = errorCount (primary e) /\
  available (primary (snd (processIntelligence prompt net e1))) = false.
Proof.
  intros Hcount Hprobe Hmark Hctx Hfail. cbv zeta.
  assert (primary (snd (testProviderConnections probe e)) =
          {| available := true; lastError := lastError (primary e);
             errorCount := errorCount (primary e) |}) as Hp.
  { unfold testProviderConnections. rewrite Hprobe, Hmark.
    match goal with |- context [if ?b then _ else _] => destruct b end; reflexivity. }
  rewrite processIntelligence_primary, Hp.
  unfold primary_fails. cbn [snd available errorCount]. rewrite Hctx, Hfail.
  cbn [andb primary_failed primary available errorCount].
  rewrite Hp. cbn [errorCount available].
  split; [reflexivity|]. split; [reflexivity|].
  destruct (Z.ltb_spec 5 (errorCount (primary e) + 1)); [reflexivity | lia].
Qed.

Lemma revived_primary_trips_at_once_witness :
  let failing := {| context_error := None; primary_reply := ProviderError "503";
                    fallback_reply := Content "pong" |} in
  let probe := {| context_error := None; primary_reply := Content "INTELLIGENCE_ONLINE";
                  fallback_reply := Content "INTELLIGENCE_ONLINE" |} in
  let e := serve [("a", failing); ("b", failing); ("c", failing);
                  ("d", failing); ("e", failing); ("f", failing)] constructor in
  let e1 := snd (testProviderConnections probe e) in
  available (primary e) = false /\
  available (primary e1) = true /\
  errorCount (primary e1) = errorCount (primary e) /\
  available (primary (snd (processIntelligence "g" failing e1))) = false.
Proof.
  cbv zeta. split; [vm_compute; reflexivity|].
  apply (revived_primary_trips_at_once _ _ "g" "INTELLIGENCE_ONLINE" "503");
    vm_compute; first [reflexivity | discriminate].
Defined.

Lemma processIntelligence_metrics (prompt : string) (net : Net) (e : Engine) :
  let who := [answered_by (snd (fst (processIntelligence prompt net e))) net] in
  let m := metrics e in
  let m' := metrics (snd (processIntelligence prompt net e)) in
  primaryProviderUsage m' = primaryProviderUsage m + answers_of Primary who /\
  fallbackProviderUsage m' = fallbackProviderUsage m + answers_of Fallback who /\
  decisionsGenerated m' =
    decisionsGenerated m + answers_of Primary who + answers_of Fallback who /\
  errorRecoveries m' = errorRecoveries m + answers_of Fallback who.
Proof.
  cbv zeta. unfold processIntelligence.
  destruct (context_error net); [unfold answered_by, answers_of; cbn; lia|].
  destruct (available (primary e));
    [destruct (primary_reply net) as [text|msg] eqn:Hp; [destruct (nonempty text) eqn:Ht|]|];
    try change (fallback (primary_failed e)) with (fallback e);
    try (destruct (available (fallback e));
         [destruct (fallback_reply net) as [t2|m2] eqn:Hf; [destruct (nonempty t2) eqn:Ht2|]|]);
    cbn; unfold answered_by, answers_of; cbn; rewrite ?Hp, ?Hf; cbn; rewrite ?Ht, ?Ht2; cbn; lia.
Qed.

Lemma answered_by_answer (prompt : string) (net : Net) (e : Engine) :
  let answer := fst (fst (processIntelligence prompt net e)) in
  match answered_by (snd (fst (processIntelligence prompt net e))) net with
  | Some Primary => primary_reply net = Content answer
  | Some Fallback => fallback_reply net = Content answer
  | None => answer = generateBuiltInResponse prompt \/ answer = generateEmergencyResponse
  end.
Proof.
  cbv zeta. unfold processIntelligence.
  destruct (context_error net); [unfold answered_by; cbn; right; reflexivity|].
  destruct (available (primary e));
    [destruct (primary_reply net) as [text|msg] eqn:Hp; [destruct (nonempty text) eqn:Ht|]|];
    try change (fallback (primary_failed e)) with (fallback e);
    try (destruct (available (fallback e));
         [destruct (fallback_reply net) as [t2|m2] eqn:Hf; [destruct (nonempty t2) eqn:Ht2|]|]);
    cbn; unfold answered_by; cbn; rewrite ?Hp, ?Hf; cbn; rewrite ?Ht, ?Ht2;
    first [reflexivity | left; reflexivity].
Qed.

Lemma answers_of_cons (p : Provider) (x : option Provider) (who : list (option Provider)) :
  answers_of p (x :: who) = answers_of p [x] + answers_of p who.
Proof.
  unfold answers_of. cbn [List.filter]. destruct (is_answer_of p x); cbn [length]; lia.
Qed.

(** X12.  The usage counters count the answers given.  Over any run
    of requests [primaryProviderUsage] grows by the number of requests
    that the primary provider answered and [fallbackProviderUsage] by
    the number that the fallback provider answered; the number of
    decisions grows by the sum of the two, and [errorRecoveries] grows
    with every answer of the fallback provider, also when the primary
    provider was not tried.  A request counts as answered by a
    provider when the answer handed back is the content of that
    provider's reply; the built-in and the emergency texts are
    nobody's answer and move no counter. *)
Theorem usage_counters_add_up (reqs : list (string * Net)) (e : Engine) :
  let who := answerers reqs e in
  let m := metrics e in
  let m' := metrics (serve reqs e) in
  primaryProviderUsage m' = primaryProviderUsage m + answers_of Primary who /\
  fallbackProviderUsage m' = fallbackProviderUsage m + answers_of Fallback who /\
  decisionsGenerated m' =
    decisionsGenerated m + answers_of Primary who + answers_of Fallback who /\
  errorRecoveries m' = errorRecoveries m + answers_of Fallback who /\
  (forall prompt net e0,
     let answer := fst (fst (processIntelligence prompt net e0)) in
     match answered_by (snd (fst (processIntelligence prompt net e0))) net with
     | Some Primary => primary_reply net = Content answer
     | Some Fallback => fallback_reply net = Content answer
     | None => answer = generateBuiltInResponse prompt \/ answer = generateEmergencyResponse
     end).
Proof.
  cbv zeta.
  assert (primaryProviderUsage (metrics (serve reqs e)) =
            primaryProviderUsage (metrics e) + answers_of Primary (answerers reqs e) /\
          fallbackProviderUsage (metrics (serve reqs e)) =
            fallbackProviderUsage (metrics e) + answers_of Fallback (answerers reqs e) /\
          decisionsGenerated (metrics (serve reqs e)) =
            decisionsGenerated (metrics e) + answers_of Primary (answerers reqs e) +
            answers_of Fallback (answerers reqs e) /\
          errorRecoveries (metrics (serve reqs e)) =
            errorRecoveries (metrics e) + answers_of Fallback (answerers reqs e)) as H.
  { revert e. induction reqs as [|r reqs IH]; intros e.
    - unfold answers_of. cbn. lia.
    - change (serve (r :: reqs) e)
        with (serve reqs (snd (processIntelligence (fst r) (snd r) e))).
      cbn [answerers].
      rewrite (answers_of_cons Primary), (answers_of_cons Fallback).
      pose proof (processIntelligence_metrics (fst r) (snd r) e) as H. cbv zeta in H.
      specialize (IH (snd (processIntelligence (fst r) (snd r) e))). lia. }
  destruct H as (H1 & H2 & H3 & H4).
  split; [exact H1|]. split; [exact H2|]. split; [exact H3|]. split; [exact H4|].
  intros prompt net e0. apply answered_by_answer.
Qed.

(** *** The learning buffer *)

Lemma last_n_length {A} (n : nat) (l : list A) : length (last_n n l) = Nat.min n (length l).
Proof. unfold last_n. rewrite length_drop. lia. Qed.

Lemma last_n_snoc {A} (n : nat) (l : list A) (x : A) :
  (0 < n)%nat -> last_n n (last_n n l ++ [x]) = last_n n (l ++ [x]).
Proof.
  intros Hn. unfold last_n at 1 3. rewrite !length_app, last_n_length. cbn [length].
  unfold last_n.
  destruct (Nat.le_gt_cases (length l) n) as [Hle|Hgt].
  - replace (length l - n)%nat with 0%nat by lia. cbn [drop].
    f_equal. lia.
  - replace (Nat.min n (length l) + 1 - n)%nat with 1%nat by lia.
    replace (length l + 1 - n)%nat with (length l - n + 1)%nat by lia.
    rewrite !drop_app_le by (rewrite ?length_drop; lia).
    rewrite drop_drop. reflexivity.
Qed.

Lemma learn_patterns (l : Learning) (x : Exchange) :
  learningPatterns (learn l x) =
  <[patternKey (x_context x) :=
      last_n 100 (default [] (learningPatterns l !! patternKey (x_context x)) ++ [record_of x])]>
    (learningPatterns l).
Proof.
  unfold learn, learnFromIntelligence. fold (record_of x).
  set (pushed := default [] (learningPatterns l !! patternKey (x_context x)) ++ [record_of x]).
  assert ((if (100 <? length pushed)%nat then drop (length pushed - 100) pushed else pushed) =
          last_n 100 pushed) as ->.
  { unfold last_n. destruct (Nat.ltb_spec 100 (length pushed)); [reflexivity|].
    replace (length pushed - 100)%nat with 0%nat by lia. reflexivity. }
  destruct (length (last_n 100 pushed) mod 10 =? 0)%nat; reflexivity.
Qed.

(** X13.  The learning store is a bounded buffer per guild: after any
    run of exchanges on a new engine, the list kept under a key holds
    the records of the exchanges with that key, oldest first, cut down
    to the most recent 100; a key without exchanges has no list. *)
Theorem learning_keeps_latest_hundred (xs : list Exchange) (k : string) :
  learningPatterns (learned xs) !! k =
  match records_under k xs with
  | [] => None
  | rs => Some (last_n 100 rs)
  end.
Proof.
  unfold learned, records_under.
  induction xs as [|x xs IH] using rev_ind; [reflexivity|].
  rewrite foldl_app. cbn [foldl]. rewrite learn_patterns.
  rewrite filter_app, map_app.
  destruct (decide (patternKey (x_context x) = k)) as [E|E].
  - rewrite filter_cons_True by exact E. rewrite filter_nil. cbn [map].
    rewrite E, lookup_insert_eq, IH.
    set (rs := map record_of (filter (fun x0 => patternKey (x_context x0) = k) xs)).
    destruct rs as [|r0 rs0]; [reflexivity|].
    cbn [default from_option id]. rewrite last_n_snoc by lia. reflexivity.
  - rewrite filter_cons_False by exact E. rewrite filter_nil. cbn [map].
    rewrite app_nil_r, lookup_insert_ne by exact E. exact IH.
Qed.

Lemma learn_cycles (l : Learning) (x : Exchange) :
  let kept := last_n 100 (default [] (learningPatterns l !! patternKey (x_context x)) ++
                          [record_of x]) in
  learningCycles (learn l x) =
    learningCycles l + (if (length kept mod 10 =? 0)%nat then 1 else 0) /\
  adaptations (learn l x) =
    adaptations l + (if (length kept mod 10 =? 0)%nat then 1 else 0).
Proof.
  cbv zeta. unfold learn, learnFromIntelligence. fold (record_of x).
  set (pushed := default [] (learningPatterns l !! patternKey (x_context x)) ++ [record_of x]).
  assert ((if (100 <? length pushed)%nat then drop (length pushed - 100) pushed else pushed) =
          last_n 100 pushed) as ->.
  { unfold last_n. destruct (Nat.ltb_spec 100 (length pushed)); [reflexivity|].
    replace (length pushed - 100)%nat with 0%nat by lia. reflexivity. }
  destruct (length (last_n 100 pushed) mod 10 =? 0)%nat; cbn; split; lia.
Qed.

Lemma tenth_step (n : nat) :
  Z.of_nat n / 10 + (if ((n + 1) mod 10 =? 0)%nat then 1 else 0) = (Z.of_nat n + 1) / 10.
Proof.
  assert (Z.of_nat ((n + 1) mod 10) = (Z.of_nat n + 1) mod 10) as Hz.
  { rewrite Nat2Z.inj_mod. f_equal. lia. }
  pose proof (Z.div_mod (Z.of_nat n + 1) 10 ltac:(lia)) as H1.
  pose proof (Z.div_mod (Z.of_nat n) 10 ltac:(lia)) as H2.
  pose proof (Z.mod_pos_bound (Z.of_nat n + 1) 10 ltac:(lia)) as H3.
  pose proof (Z.mod_pos_bound (Z.of_nat n) 10 ltac:(lia)) as H4.
  destruct (Nat.eqb_spec ((n + 1) mod 10) 0) as [Hm|Hm].
  - rewrite Hm in Hz. lia.
  - assert ((Z.of_nat n + 1) mod 10 <> 0) by lia. lia.
Qed.

Lemma records_under_all (k : string) (xs : list Exchange) :
  Forall (fun x => patternKey (x_context x) = k) xs ->
  length (records_under k xs) = length xs.
Proof.
  intros H. unfold records_under. rewrite length_map.
  induction H as [|x xs Hx _ IH]; [reflexivity|].
  rewrite filter_cons_True by exact Hx. cbn. rewrite IH. reflexivity.
Qed.

(** X14.  Analysis runs whenever the list of a key holds a multiple
    of ten records after an exchange.  For a run of [n] exchanges of
    one guild on a new engine that is every tenth exchange up to the
    hundredth, and from then on (the list stays at 100 records) every
    single exchange: the counters stand at [n / 10] for [n <= 100] and
    at [n - 90] beyond. *)
Theorem analysis_runs_on_every_exchange_once_full (xs : list Exchange) (k : string) :
  Forall (fun x => patternKey (x_context x) = k) xs ->
  let n := Z.of_nat (length xs) in
  learningCycles (learned xs) = (if n <=? 100 then n / 10 else n - 90) /\
  adaptations (learned xs) = learningCycles (learned xs).
Proof.
  cbv zeta. induction xs as [|x xs IH] using rev_ind; intros Hall.
  - split; reflexivity.
  - apply Forall_app in Hall as [Hxs Hx]. apply Forall_cons in Hx as [Hx _].
    destruct (IH Hxs) as [Hc Ha].
    unfold learned in *. rewrite foldl_app. cbn [foldl].
    destruct (learn_cycles (foldl learn initializeLearningMatrix xs) x) as [-> ->].
    rewrite Ha, Hc. split; [|reflexivity].
    pose proof (learning_keeps_latest_hundred xs k) as Hk. unfold learned in Hk.
    rewrite Hx, Hk.
    pose proof (records_under_all k xs Hxs) as Hlen.
    assert (length (last_n 100 (default [] match records_under k xs with
                                            | [] => None
                                            | l :: l0 => Some (last_n 100 (l :: l0))
                                            end ++ [record_of x])) =
            Nat.min 100 (length xs + 1)) as ->.
    { destruct (records_under k xs) as [|r0 rs0] eqn:Hrs.
      - cbn in Hlen. rewrite <- Hlen. reflexivity.
      - cbn [default from_option id]. rewrite last_n_snoc by lia.
        rewrite last_n_length, length_app, Hlen. reflexivity. }
    rewrite length_app. cbn [length].
    replace (Z.of_nat (length xs + 1)) with (Z.of_nat (length xs) + 1) by lia.
    set (n := length xs).
    destruct (Z.leb_spec (Z.of_nat n) 100) as [H1|H1];
      destruct (Z.leb_spec (Z.of_nat n + 1) 100) as [H2|H2]; try lia.
    + replace (Nat.min 100 (n + 1)) with (n + 1)%nat by lia. apply tenth_step.
    + assert (n = 100%nat) as -> by lia. reflexivity.
    + replace (Nat.min 100 (n + 1)) with 100%nat by lia. cbn. lia.
Qed.

Lemma analysis_runs_on_every_exchange_once_full_witness :
  let x := {| x_prompt := "hello"; x_response := "hi";
              x_context := {| context_type := None; context_guildId := Some "g1" |};
              x_provider := Primary; x_processingTime := 120; x_now := 1000 |} in
  learningCycles (learned (replicate 12 x)) = 1 /\
  adaptations (learned (replicate 12 x)) = learningCycles (learned (replicate 12 x)).
Proof.
  cbv zeta.
  apply (analysis_runs_on_every_exchange_once_full (replicate 12 _) "g1").
  apply Forall_replicate. reflexivity.
Defined.

End AIEngineSpec.

(** ** Event system *)

Module EventSystemSpec.
Import JS EventSystem.

(** *** Running the monad *)

Lemma run_ret {A} (a : A) (st : State) : (mret a : M A) st = (Normal a, st, []).
Proof. reflexivity. Qed.

Lemma run_bind {A B} (m : M A) (f : A -> M B) (st : State) :
  (m ≫= f) st =
  match m st with
  | (Normal a, st1, tr1) => let '(r, st2, tr2) := f a st1 in (r, st2, tr1 ++ tr2)
  | (Throw e, st1, tr1) => (Throw e, st1, tr1)
  end.
Proof. reflexivity. Qed.

Lemma run_bind_normal {A B} (m : M A) (f : A -> M B) (st st1 : State) (a : A) (tr1 : list Call) :
  m st = (Normal a, st1, tr1) ->
  (m ≫= f) st = (result_of (f a st1), state_of (f a st1), tr1 ++ calls_of (f a st1)).
Proof.
  intros H. rewrite run_bind, H. destruct (f a st1) as [[r st2] tr2]. reflexivity.
Qed.

Lemma run_try_catch_normal {A} (m : M A) (h : Value -> M A) (st st1 : State) (a : A)
      (tr1 : list Call) :
  m st = (Normal a, st1, tr1) -> try_catch m h st = (Normal a, st1, tr1).
Proof. intros H. unfold try_catch. rewrite H. reflexivity. Qed.

Lemma handler_calls_app (t1 t2 : list Call) :
  handler_calls (t1 ++ t2) = handler_calls t1 ++ handler_calls t2.
Proof. unfold handler_calls. apply omap_app. Qed.

Lemma error_middleware_calls_app (t1 t2 : list Call) :
  error_middleware_calls (t1 ++ t2) = error_middleware_calls t1 ++ error_middleware_calls t2.
Proof. unfold error_middleware_calls. apply List.filter_app. Qed.

(** *** The loop on the bare array *)

Section Walk.
Variable w : World.
Variable a : list Value.

Lemma Forall_of_sublist {A} (P : A -> Prop) (l1 l2 : list A) :
  sublist l1 l2 -> Forall P l2 -> Forall P l1.
Proof.
  intros Hs H. apply Forall_forall. intros x Hx.
  apply (proj1 (Forall_forall P l2) H). eapply elem_of_sublist; eassumption.
Qed.

Lemma remove_by_id_cons (k : string) (x : Listener) (ls : list Listener) :
  remove_by_id k (x :: ls) =
  if decide (listener_id x = k) then ls else x :: remove_by_id k ls.
Proof.
  unfold remove_by_id. simpl. destruct (decide (listener_id x = k)); [reflexivity|].
  destruct (list_find (fun l => listener_id l = k) ls) as [[j y]|]; reflexivity.
Qed.

Lemma remove_by_id_sublist (k : string) (ls : list Listener) :
  sublist (remove_by_id k ls) ls.
Proof.
  unfold remove_by_id.
  destruct (list_find (fun l => listener_id l = k) ls) as [[j y]|];
    [apply sublist_delete | reflexivity].
Qed.

(** The listener that [off] splices out sits at the iterator's
    position or before it. *)
Lemma remove_at_or_before (ls : list Listener) (i : nat) (l : Listener) :
  ls !! i = Some l ->
  exists j, (j <= i)%nat /\ (j < length ls)%nat /\
            remove_by_id (listener_id l) ls = delete j ls.
Proof.
  intros Hi. unfold remove_by_id.
  destruct (list_find (fun x => listener_id x = listener_id l) ls) as [[j y]|] eqn:Hf.
  - apply list_find_Some in Hf as (Hj & _ & Hmin).
    exists j. split; [|split; [eapply lookup_lt_Some; eassumption | reflexivity]].
    destruct (Nat.le_gt_cases j i) as [Hle|Hgt]; [exact Hle|].
    exfalso. exact (Hmin i l Hi Hgt eq_refl).
  - apply list_find_None in Hf.
    exfalso. exact (Forall_lookup_1 _ _ _ _ Hf Hi eq_refl).
Qed.

Lemma drop_after_delete {A} (ls : list A) (i j : nat) :
  (j <= i)%nat -> (j < length ls)%nat ->
  drop (S i) (delete j ls) = drop (S (S i)) ls.
Proof.
  intros Hji Hj. rewrite delete_take_drop.
  rewrite drop_app_ge by (rewrite length_take_le by lia; lia).
  rewrite length_take_le by lia. rewrite drop_drop. f_equal. lia.
Qed.

(** The handlers called form a subsequence of the array from the
    starting index on, and the array left behind is a subsequence of
    the array found. *)
Lemma walk_sublist (k : nat) :
  forall (i : nat) (ls : list Listener),
    sublist (fst (walk w a k i ls)) ls /\
    sublist (snd (walk w a k i ls)) (drop i ls).
Proof.
  induction k as [|k IH]; intros i ls; simpl.
  - split; [reflexivity | apply sublist_nil_l].
  - destruct (ls !! i) as [l|] eqn:Hi; [|split; [reflexivity | apply sublist_nil_l]].
    rewrite (drop_S _ _ _ Hi).
    destruct (fires_once w a l).
    + destruct (remove_at_or_before ls i l Hi) as (j & Hji & Hj & Hrem).
      rewrite Hrem. destruct (IH (S i) (delete j ls)) as [H1 H2].
      destruct (walk w a k (S i) (delete j ls)) as [final called]. simpl in *.
      split; [etrans; [exact H1 | apply sublist_delete]|].
      rewrite drop_after_delete in H2 by assumption.
      assert (sublist called (drop (S i) ls)) as H3.
      { etrans; [exact H2|].
        replace (S (S i)) with (S i + 1)%nat by lia.
        rewrite <- drop_drop. apply sublist_drop. }
      destruct (accepts w a l); [apply sublist_skip | apply sublist_cons]; exact H3.
    + destruct (IH (S i) ls) as [H1 H2].
      destruct (walk w a k (S i) ls) as [final called]. simpl in *.
      split; [exact H1|].
      destruct (accepts w a l); [apply sublist_skip | apply sublist_cons]; exact H2.
Qed.

(** When no listener ends in [off], the array is left as it is and
    every listener whose filter accepts is called, in array order. *)
Lemma walk_without_removal (ls : list Listener) :
  Forall (fun l => fires_once w a l = false) ls ->
  forall (k i : nat),
    (length ls <= k + i)%nat ->
    walk w a k i ls = (ls, List.filter (accepts w a) (drop i ls)).
Proof.
  intros Hno. induction k as [|k IH]; intros i Hlen; simpl.
  - rewrite drop_ge by lia. reflexivity.
  - destruct (ls !! i) as [l|] eqn:Hi.
    + rewrite (Forall_lookup_1 _ _ _ _ Hno Hi).
      rewrite IH by lia. rewrite (drop_S _ _ _ Hi). simpl.
      destruct (accepts w a l); reflexivity.
    + apply lookup_ge_None in Hi. rewrite drop_ge by lia. reflexivity.
Qed.

(** Walking through a stretch of listeners none of which ends in
    [off]. *)
Lemma walk_through (todo : list Listener) :
  Forall (fun l => fires_once w a l = false) todo ->
  forall (k : nat) (done rest : list Listener),
    walk w a (length todo + k) (length done) (done ++ todo ++ rest) =
    (fst (walk w a k (length (done ++ todo)) (done ++ todo ++ rest)),
     List.filter (accepts w a) todo ++
     snd (walk w a k (length (done ++ todo)) (done ++ todo ++ rest))).
Proof.
  induction 1 as [|x todo Hx _ IH]; intros k done rest.
  - simpl. rewrite app_nil_r. destruct (walk w a k (length done) (done ++ rest)); reflexivity.
  - change (done ++ (x :: todo) ++ rest) with (done ++ x :: (todo ++ rest)).
    cbn [length Nat.add walk].
    rewrite (list_lookup_middle done (todo ++ rest) x (length done) eq_refl).
    rewrite Hx.
    replace (done ++ x :: (todo ++ rest)) with ((done ++ [x]) ++ todo ++ rest)
      by (rewrite <- app_assoc; reflexivity).
    replace (S (length done)) with (length (done ++ [x]))
      by (rewrite length_app; simpl; lia).
    rewrite IH.
    replace ((done ++ [x]) ++ todo) with (done ++ x :: todo)
      by (rewrite <- app_assoc; reflexivity).
    simpl. destruct (accepts w a x); reflexivity.
Qed.

(** Removing by an id other than [L]'s leaves [L] in the array. *)
Lemma remove_by_id_keeps (k : string) (L : Listener) (pre post : list Listener) :
  listener_id L <> k ->
  exists pre1 post1,
    remove_by_id k (pre ++ L :: post) = pre1 ++ L :: post1 /\
    sublist pre1 pre /\ sublist post1 post.
Proof.
  intros Hk. induction pre as [|x pre IH]; simpl.
  - rewrite remove_by_id_cons. rewrite decide_False by exact Hk.
    exists [], (remove_by_id k post). split; [reflexivity|].
    split; [reflexivity | apply remove_by_id_sublist].
  - rewrite remove_by_id_cons. destruct (decide (listener_id x = k)).
    + exists pre, post. split; [reflexivity|]. split; [apply sublist_cons|]; reflexivity.
    + destruct IH as (pre1 & post1 & Heq & H1 & H2). rewrite Heq.
      exists (x :: pre1), post1. split; [reflexivity|].
      split; [apply sublist_skip; exact H1 | exact H2].
Qed.

(** Behind [L], the loop cannot remove [L] unless a listener there
    carries [L]'s id. *)
Lemma walk_keeps (L : Listener) (k : nat) :
  forall (i : nat) (pre post : list Listener),
    (length pre < i)%nat ->
    Forall (fun l => listener_id l <> listener_id L) post ->
    exists pre1 post1,
      fst (walk w a k i (pre ++ L :: post)) = pre1 ++ L :: post1 /\
      sublist pre1 pre /\ sublist post1 post.
Proof.
  induction k as [|k IH]; intros i pre post Hi Hpost; simpl.
  - exists pre, post. repeat split; reflexivity.
  - destruct ((pre ++ L :: post) !! i) as [l|] eqn:Hl;
      [|exists pre, post; repeat split; reflexivity].
    assert (listener_id l <> listener_id L) as Hne.
    { rewrite lookup_app_r in Hl by lia.
      destruct (i - length pre)%nat as [|m] eqn:Hm; [lia|]. simpl in Hl.
      exact (Forall_lookup_1 _ _ _ _ Hpost Hl). }
    destruct (fires_once w a l).
    + destruct (remove_by_id_keeps (listener_id l) L pre post)
        as (pre1 & post1 & Heq & H1 & H2); [congruence|].
      rewrite Heq.
      destruct (IH (S i) pre1 post1) as (pre2 & post2 & Heq2 & H3 & H4).
      { apply sublist_length in H1. lia. }
      { eapply Forall_of_sublist; eassumption. }
      destruct (walk w a k (S i) (pre1 ++ L :: post1)) as [final called]. simpl in *.
      exists pre2, post2. split; [exact Heq2|].
      split; etrans; eassumption.
    + destruct (IH (S i) pre post) as (pre2 & post2 & Heq2 & H3 & H4); [lia | exact Hpost|].
      destruct (walk w a k (S i) (pre ++ L :: post)) as [final called]. simpl in *.
      exists pre2, post2. repeat split; assumption.
Qed.

End Walk.

(** *** The stable sort *)

Section StableSort.
Context {A : Type} (key : A -> Z).

Lemma filter_none (P : A -> Prop) `{!forall x, Decision (P x)} (l : list A) :
  Forall (fun x => ~ P x) l -> filter P l = [].
Proof.
  induction 1 as [|x l Hx _ IH]; [reflexivity|].
  rewrite filter_cons_False by exact Hx. exact IH.
Qed.

Lemma insert_sorted_perm (x : A) (l : list A) : insert_sorted key x l ≡ₚ x :: l.
Proof.
  induction l as [|y l IH]; simpl; [reflexivity|].
  destruct (key x <? key y); [reflexivity|].
  rewrite IH. apply Permutation_swap.
Qed.

Lemma insert_sorted_sorted (x : A) (l : list A) :
  StronglySorted (key_le key) l -> StronglySorted (key_le key) (insert_sorted key x l).
Proof.
  induction l as [|y l IH]; intros Hs; simpl.
  - repeat constructor.
  - apply StronglySorted_cons in Hs as [Hy Hs].
    destruct (Z.ltb_spec (key x) (key y)) as [Hlt|Hge].
    + apply StronglySorted_cons. split; [|apply StronglySorted_cons; split; assumption].
      constructor; [unfold key_le; lia|].
      eapply Forall_impl; [exact Hy|]. unfold key_le. intros z Hz. lia.
    + apply StronglySorted_cons. split; [|apply IH; exact Hs].
      rewrite insert_sorted_perm. constructor; [exact Hge | exact Hy].
Qed.

(** Among the elements of one key the new element comes last. *)
Lemma insert_sorted_filter (p : Z) (x : A) (l : list A) :
  StronglySorted (key_le key) l ->
  filter (fun y => key y = p) (insert_sorted key x l) =
  filter (fun y => key y = p) l ++ (if decide (key x = p) then [x] else []).
Proof.
  induction l as [|y l IH]; intros Hs; simpl.
  - rewrite filter_cons, filter_nil. destruct (decide (key x = p)); reflexivity.
  - apply StronglySorted_cons in Hs as [Hy Hs].
    destruct (Z.ltb_spec (key x) (key y)) as [Hlt|Hge].
    + rewrite (filter_cons _ x). destruct (decide (key x = p)) as [Hp|Hp].
      * rewrite (filter_none (fun z => key z = p) (y :: l)); [reflexivity|].
        constructor; [lia|].
        eapply Forall_impl; [exact Hy|]. unfold key_le. intros z Hz. lia.
      * rewrite app_nil_r. reflexivity.
    + rewrite !(filter_cons _ y). rewrite IH by exact Hs.
      destruct (decide (key y = p)); reflexivity.
Qed.

Lemma insert_sorted_last (x : A) (l : list A) :
  Forall (fun y => key y <= key x) l -> insert_sorted key x l = l ++ [x].
Proof.
  induction 1 as [|y l Hy _ IH]; simpl; [reflexivity|].
  destruct (Z.ltb_spec (key x) (key y)); [lia|]. rewrite IH. reflexivity.
Qed.

Lemma stable_sort_snoc (l : list A) (x : A) :
  stable_sort key (l ++ [x]) = insert_sorted key x (stable_sort key l).
Proof. unfold stable_sort. rewrite foldl_app. reflexivity. Qed.

Lemma stable_sort_sorted (l : list A) : StronglySorted (key_le key) (stable_sort key l).
Proof.
  induction l as [|x l IH] using rev_ind; [constructor|].
  rewrite stable_sort_snoc. apply insert_sorted_sorted. exact IH.
Qed.

Lemma stable_sort_perm (l : list A) : stable_sort key l ≡ₚ l.
Proof.
  induction l as [|x l IH] using rev_ind; [reflexivity|].
  rewrite stable_sort_snoc, insert_sorted_perm, IH.
  apply Permutation_cons_append.
Qed.

(** Stability: the elements of one key keep their order. *)
Lemma stable_sort_filter (p : Z) (l : list A) :
  filter (fun y => key y = p) (stable_sort key l) = filter (fun y => key y = p) l.
Proof.
  induction l as [|x l IH] using rev_ind; [reflexivity|].
  rewrite stable_sort_snoc, insert_sorted_filter by apply stable_sort_sorted.
  rewrite IH, filter_app, filter_cons, filter_nil.
  destruct (decide (key x = p)); reflexivity.
Qed.

(** A sorted array is left as it is. *)
Lemma stable_sort_id (l : list A) : StronglySorted (key_le key) l -> stable_sort key l = l.
Proof.
  induction l as [|x l IH] using rev_ind; intros Hs; [reflexivity|].
  apply StronglySorted_app in Hs as (Hle & Hl & _).
  rewrite stable_sort_snoc, IH by exact Hl.
  apply insert_sorted_last. apply Forall_forall. intros y Hy.
  apply Hle; [exact Hy | apply list_elem_of_singleton; reflexivity].
Qed.

Lemma StronglySorted_sublist (R : relation A) (l1 l2 : list A) :
  sublist l1 l2 -> StronglySorted R l2 -> StronglySorted R l1.
Proof.
  induction 1 as [|x l1 l2 Hs IH|x l1 l2 Hs IH]; intros H2.
  - constructor.
  - apply StronglySorted_cons in H2 as [Hx H2].
    apply StronglySorted_cons. split; [|apply IH; exact H2].
    apply Forall_forall. intros y Hy.
    apply (proj1 (Forall_forall _ _) Hx). eapply elem_of_sublist; eassumption.
  - apply StronglySorted_cons in H2 as [_ H2]. apply IH. exact H2.
Qed.

Lemma sublist_filter_mono (P : A -> Prop) `{!forall x, Decision (P x)} (l1 l2 : list A) :
  sublist l1 l2 -> sublist (filter P l1) (filter P l2).
Proof.
  induction 1 as [|x l1 l2 Hs IH|x l1 l2 Hs IH].
  - constructor.
  - rewrite !(filter_cons _ x). destruct (decide (P x)); [apply sublist_skip|]; exact IH.
  - rewrite (filter_cons _ x). destruct (decide (P x)); [apply sublist_cons|]; exact IH.
Qed.

End StableSort.

(** *** Registration *)

Lemma on_listeners (eventName : string) (h : Fn) (options : Options) (st : State) :
  listeners_of eventName (state_of (on eventName h options st)) =
  stable_sort priority (listeners_of eventName st ++ [make_listener eventName h options st]).
Proof. unfold on, state_of, listeners_of. simpl. rewrite lookup_insert_eq. reflexivity. Qed.

Lemma on_other (eventName n : string) (h : Fn) (options : Options) (st : State) :
  n <> eventName ->
  eventListeners (state_of (on eventName h options st)) !! n = eventListeners st !! n.
Proof. intros Hn. unfold on, state_of. simpl. apply lookup_insert_ne. congruence. Qed.

Lemma register_all_snoc (eventName : string) (regs : list (Fn * Options)) (r : Fn * Options)
      (st : State) :
  register_all eventName (regs ++ [r]) st =
  state_of (on eventName (fst r) (snd r) (register_all eventName regs st)).
Proof. unfold register_all. rewrite foldl_app. reflexivity. Qed.

(** Registration touches the listener registry only. *)
Lemma register_all_frame (eventName : string) (regs : list (Fn * Options)) (st : State) :
  control (register_all eventName regs st) = control st /\
  now (register_all eventName regs st) = now st.
Proof.
  induction regs as [|r regs IH] using rev_ind; [split; reflexivity|].
  rewrite register_all_snoc. destruct IH as [Hc Hn]. split; [rewrite <- Hc | rewrite <- Hn];
    reflexivity.
Qed.

Lemma make_listener_same (eventName : string) (h : Fn) (options : Options) (st st1 : State) :
  control st1 = control st -> now st1 = now st ->
  make_listener eventName h options st1 = make_listener eventName h options st.
Proof.
  unfold control, make_listener. intros Hc Hn. injection Hc as _ _ _ Hcfg _ _ _.
  rewrite Hcfg, Hn. reflexivity.
Qed.

(** After a run of registrations the array is the stable sort, by
    priority, of the listeners in their order of registration. *)
Lemma register_all_listeners (eventName : string) (regs : list (Fn * Options)) (st : State) :
  StronglySorted priority_le (listeners_of eventName st) ->
  listeners_of eventName (register_all eventName regs st) =
  stable_sort priority (listeners_of eventName st ++ registrations eventName regs st).
Proof.
  intros Hs. induction regs as [|r regs IH] using rev_ind.
  - unfold registrations. simpl. rewrite app_nil_r. symmetry. apply stable_sort_id. exact Hs.
  - rewrite register_all_snoc, on_listeners, IH.
    destruct (register_all_frame eventName regs st) as [Hc Hn].
    rewrite (make_listener_same _ _ _ st _ Hc Hn).
    rewrite stable_sort_snoc.
    rewrite (stable_sort_id priority (stable_sort priority _)) by apply stable_sort_sorted.
    unfold registrations. rewrite map_app, app_assoc. simpl.
    rewrite stable_sort_snoc. reflexivity.
Qed.

Ltac red_run := unfold quiet, result_of, state_of, calls_of in *; simpl in *.

Section Runs.
Variable w : World.

Lemma quiet_ret {A} (a : A) (st : State) : quiet st ((mret a : M A) st).
Proof. red_run. repeat split. Qed.

(** Sequencing two quiet runs. *)
Lemma quiet_bind {A B} (m : M A) (f : A -> M B) (st : State) :
  quiet st (m st) ->
  (forall a st1, control st1 = control st -> eventListeners st1 = eventListeners st ->
                 quiet st1 (f a st1)) ->
  quiet st ((m ≫= f) st).
Proof.
  intros Hm Hf. rewrite run_bind.
  destruct (m st) as [[r st1] tr1]. red_run.
  destruct Hm as (Hn & Hc & Hl & Hh & He).
  destruct r as [a|e]; [|discriminate].
  specialize (Hf a st1 Hc Hl). destruct (f a st1) as [[r2 st2] tr2].
  destruct Hf as (Hn2 & Hc2 & Hl2 & Hh2 & He2). simpl in *.
  rewrite handler_calls_app, error_middleware_calls_app, Hh, He, Hh2, He2.
  repeat split; try assumption; congruence.
Qed.

Lemma middleware_loop_quiet (a : list Value) (ms : list Middleware) :
  Forall (fun m => String.eqb (middleware_type m) "error" = false) ms ->
  forall st, quiet st (middleware_loop w a ms st).
Proof.
  induction 1 as [|m ms Hm _ IH]; intros st; [apply quiet_ret|].
  cbn [middleware_loop]. apply quiet_bind; [|intros; apply IH].
  unfold try_catch. rewrite run_bind. unfold await.
  destruct (run w (middleware m) a) as [v d|e d]; unfold quiet; simpl; rewrite Hm;
    repeat split.
Qed.

Lemma executeMiddleware_quiet (eventName type : string) (a : list Value) (st : State) :
  String.eqb type "error" = false ->
  quiet st (executeMiddleware w eventName type a st).
Proof.
  intros Ht. unfold executeMiddleware. apply quiet_bind; [repeat split|].
  intros ms st1 _ _. apply middleware_loop_quiet.
  apply Forall_forall. intros m Hin.
  apply list_elem_of_filter in Hin as [Hty _]. rewrite Hty. exact Ht.
Qed.

(** [applyEventFilters] answers what [admitted] predicts. *)
Lemma filters_loop_spec (a : list Value) (fs : list Fn) (st : State) :
  quiet st (filters_loop w a fs st) /\
  result_of (filters_loop w a fs st) =
  Normal (forallb (fun f => match run w f a with
                            | Returns v _ => truthy v
                            | Throws _ _ => true
                            end) fs).
Proof.
  revert st. induction fs as [|f fs IH]; intros st; [split; [apply quiet_ret|reflexivity]|].
  cbn [filters_loop forallb]. rewrite run_bind. unfold try_catch. rewrite run_bind. unfold await.
  destruct (run w f a) as [v d|e d]; simpl.
  - destruct (truthy v); simpl.
    + destruct (IH (set_now (now st + d) st)) as [(Hn & Hc & Hl & Hh & He) Hr].
      destruct (filters_loop w a fs (set_now (now st + d) st)) as [[r st2] tr2].
      simpl in *. unfold quiet. simpl. repeat split; assumption.
    + unfold quiet. simpl. repeat split.
  - destruct (IH (set_now (now st + d) st)) as [(Hn & Hc & Hl & Hh & He) Hr].
    destruct (filters_loop w a fs (set_now (now st + d) st)) as [[r st2] tr2].
    simpl in *. unfold quiet. simpl. repeat split; assumption.
Qed.

Lemma applyEventFilters_spec (eventName : string) (a : list Value) (st : State) :
  quiet st (applyEventFilters w eventName a st) /\
  result_of (applyEventFilters w eventName a st) =
  Normal (forallb (fun f => match run w f a with
                            | Returns v _ => truthy v
                            | Throws _ _ => true
                            end) (default [] (eventFilters st !! eventName))).
Proof.
  unfold applyEventFilters. rewrite run_bind. simpl.
  destruct (filters_loop_spec a (default [] (eventFilters st !! eventName)) st) as [Hq Hr].
  destruct (filters_loop w a (default [] (eventFilters st !! eventName)) st) as [[r st2] tr2].
  split; assumption.
Qed.

Lemma updateEventMetrics_quiet (eventName : string) (t : Z) (st : State) :
  quiet st (updateEventMetrics eventName t st).
Proof.
  unfold updateEventMetrics. destruct (negb (enableMetrics (config st))); repeat split.
Qed.

Lemma quiet_inv {A} (st : State) (x : Completion Value A * State * list Call) :
  quiet st x ->
  exists a st1 tr1,
    x = (Normal a, st1, tr1) /\ control st1 = control st /\
    eventListeners st1 = eventListeners st /\
    handler_calls tr1 = [] /\ error_middleware_calls tr1 = [].
Proof.
  destruct x as [[r st1] tr1]. red_run. intros (Hn & Hc & Hl & Hh & He).
  destruct r as [a|e]; [|discriminate]. exists a, st1, tr1. repeat split; assumption.
Qed.

(** *** The listener loop and its reading [walk] *)

(** Where the timer of a listener cuts in: a promise that settles when
    the timer is due still wins, one that settles later loses, and a
    handler that keeps the thread, for however long, is not cut off,
    because the timer starts when its call returns. *)
Lemma race_boundary (v : Value) (limit d s : Z) :
  0 <= limit ->
  race (Settles (Returns v limit)) limit = Returns v limit /\
  (limit < d -> race (Settles (Returns v d)) limit = Throws (VError "Listener timeout") limit) /\
  race (Blocks s (Settles (Returns v 0))) limit = Returns v (s + 0).
Proof.
  intros Hl. cbn [race later].
  destruct (Z.leb_spec limit limit); [|lia].
  destruct (Z.leb_spec 0 limit); [|lia].
  split; [reflexivity|]. split; [|reflexivity].
  intros Hd. destruct (Z.leb_spec d limit); [lia | reflexivity].
Qed.

Lemma off_run (eventName k : string) (st : State) (ls : list Listener) :
  eventListeners st !! eventName = Some ls ->
  exists b, off eventName k st =
            (Normal b,
             set_eventListeners (<[eventName := remove_by_id k ls]> (eventListeners st)) st,
             []).
Proof.
  intros Hls. unfold off, remove_by_id. rewrite Hls.
  destruct (list_find (fun l => listener_id l = k) ls) as [[index l]|].
  - exists true. reflexivity.
  - exists false. rewrite insert_id by exact Hls. destruct st; reflexivity.
Qed.

Lemma listener_body_spec (eventName : string) (a : list Value) (l : Listener)
      (st : State) (ls : list Listener) :
  eventListeners st !! eventName = Some ls ->
  exists r st1 tr1,
    listener_body w eventName a l st = (r, st1, tr1) /\
    control st1 = control st /\
    eventListeners st1 =
      (if fires_once w a l
       then <[eventName := remove_by_id (listener_id l) ls]> (eventListeners st)
       else eventListeners st) /\
    handler_calls tr1 = (if accepts w a l then [l] else []) /\
    error_middleware_calls tr1 = [].
Proof.
  intros Hls.
  unfold listener_body, fires_once, completes, accepts, handler_result.
  cbv [mbind M_bind mret M_ret await].
  assert (forall d, exists b,
             off eventName (listener_id l) (set_now (now st + d) st) =
             (Normal b,
              set_eventListeners (<[eventName := remove_by_id (listener_id l) ls]>
                                    (eventListeners st)) (set_now (now st + d) st), []))
    as Hoff.
  { intros d. exact (off_run eventName (listener_id l) (set_now (now st + d) st) ls Hls). }
  assert (forall d d', exists b,
             off eventName (listener_id l) (set_now (now (set_now (now st + d) st) + d')
                                                    (set_now (now st + d) st)) =
             (Normal b,
              set_eventListeners (<[eventName := remove_by_id (listener_id l) ls]>
                                    (eventListeners st))
                                 (set_now (now (set_now (now st + d) st) + d')
                                          (set_now (now st + d) st)), []))
    as Hoff2.
  { intros d d'.
    exact (off_run eventName (listener_id l)
                   (set_now (now (set_now (now st + d) st) + d') (set_now (now st + d) st))
                   ls Hls). }
  assert (forall b : bool, b && false = false) as Hbf by (intros []; reflexivity).
  destruct (listener_filter l) as [f|].
  - destruct (run w f a) as [v d|e d].
    + destruct (truthy v).
      * destruct (race (run_handler w (handler l) a) (timer_delay (timeout l))) as [v' d'|e' d'].
        -- destruct (once l).
           ++ destruct (Hoff2 d d') as [b ->]. eexists _, _, _. split; [reflexivity|].
              repeat split.
           ++ eexists _, _, _. split; [reflexivity|]. repeat split.
        -- eexists _, _, _. split; [reflexivity|]. simpl. rewrite Hbf. repeat split.
      * eexists _, _, _. split; [reflexivity|]. simpl. rewrite Hbf. repeat split.
    + eexists _, _, _. split; [reflexivity|]. simpl. rewrite Hbf. repeat split.
  - destruct (race (run_handler w (handler l) a) (timer_delay (timeout l))) as [v' d'|e' d'].
    + destruct (once l).
      * destruct (Hoff d') as [b ->]. eexists _, _, _. split; [reflexivity|]. repeat split.
      * eexists _, _, _. split; [reflexivity|]. repeat split.
    + eexists _, _, _. split; [reflexivity|]. simpl. rewrite Hbf. repeat split.
Qed.

Lemma run_listener_spec (eventName : string) (a : list Value) (l : Listener)
      (st : State) (ls : list Listener) :
  eventListeners st !! eventName = Some ls ->
  exists st1 tr1,
    run_listener w eventName a l st = (Normal tt, st1, tr1) /\
    control st1 = control st /\
    eventListeners st1 =
      (if fires_once w a l
       then <[eventName := remove_by_id (listener_id l) ls]> (eventListeners st)
       else eventListeners st) /\
    handler_calls tr1 = (if accepts w a l then [l] else []) /\
    error_middleware_calls tr1 = [].
Proof.
  intros Hls.
  destruct (listener_body_spec eventName a l st ls Hls) as (r & st1 & tr1 & Heq & H).
  unfold run_listener, try_catch. rewrite Heq.
  destruct r as [[]|e].
  - exists st1, tr1. split; [reflexivity | exact H].
  - exists st1, tr1. simpl. rewrite app_nil_r. split; [reflexivity | exact H].
Qed.

Lemma listeners_of_lookup (eventName : string) (st : State) (ls : list Listener) :
  eventListeners st !! eventName = Some ls -> listeners_of eventName st = ls.
Proof. intros H. unfold listeners_of. rewrite H. reflexivity. Qed.

(** The loop of the class and the loop on the bare array agree. *)
Lemma listeners_from_spec (eventName : string) (a : list Value) (k : nat) :
  forall (i : nat) (st : State) (ls : list Listener),
    eventListeners st !! eventName = Some ls ->
    exists st1 tr1,
      listeners_from w eventName a k i st = (Normal tt, st1, tr1) /\
      control st1 = control st /\
      eventListeners st1 = <[eventName := fst (walk w a k i ls)]> (eventListeners st) /\
      handler_calls tr1 = snd (walk w a k i ls) /\
      error_middleware_calls tr1 = [].
Proof.
  induction k as [|k IH]; intros i st ls Hls.
  - exists st, []. simpl. rewrite insert_id by exact Hls. repeat split.
  - cbn [listeners_from walk]. rewrite run_bind. unfold gets.
    rewrite (listeners_of_lookup _ _ _ Hls).
    destruct (ls !! i) as [l|] eqn:Hi.
    + rewrite run_bind.
      destruct (run_listener_spec eventName a l st ls Hls)
        as (st1 & tr1 & Heq & Hc & Hl & Hh & He).
      rewrite Heq.
      set (ls1 := if fires_once w a l then remove_by_id (listener_id l) ls else ls).
      assert (eventListeners st1 !! eventName = Some ls1) as Hls1.
      { rewrite Hl. subst ls1. destruct (fires_once w a l);
          [apply lookup_insert_eq | exact Hls]. }
      destruct (IH (S i) st1 ls1 Hls1) as (st2 & tr2 & Heq2 & Hc2 & Hl2 & Hh2 & He2).
      rewrite Heq2. exists st2, (tr1 ++ tr2). simpl.
      destruct (walk w a k (S i) ls1) as [final called] eqn:Hw. simpl in *.
      rewrite handler_calls_app, error_middleware_calls_app, Hh, He, Hh2, He2.
      split; [reflexivity|]. split; [congruence|]. split.
      * rewrite Hl2, Hl. subst ls1. destruct (fires_once w a l);
          [apply insert_insert_eq | reflexivity].
      * split; [|reflexivity]. destruct (accepts w a l); reflexivity.
    + exists st, []. simpl. rewrite insert_id by exact Hls. repeat split.
Qed.

Lemma quiet_run_on {A} (eventName : string) (st : State)
      (x : Completion Value A * State * list Call) :
  quiet st x -> run_on eventName st (listeners_of eventName st) [] x.
Proof.
  intros (Hn & Hc & Hl & Hh & He). unfold run_on, listeners_of.
  rewrite Hl. repeat split; assumption.
Qed.

Lemma walk_nil (a : list Value) (k i : nat) : walk w a k i [] = ([], []).
Proof. destruct k; reflexivity. Qed.

Lemma executeEventListeners_spec (eventName : string) (a : list Value) (st : State) :
  run_on eventName st
         (listeners_after w a (listeners_of eventName st))
         (listeners_called w a (listeners_of eventName st))
         (executeEventListeners w eventName a st).
Proof.
  unfold executeEventListeners, listeners_after, listeners_called.
  rewrite run_bind. unfold gets.
  destruct (eventListeners st !! eventName) as [ls|] eqn:Hls.
  - rewrite (listeners_of_lookup _ _ _ Hls).
    destruct (listeners_from_spec eventName a (length ls) 0 st ls Hls)
      as (st1 & tr1 & Heq & Hc & Hl & Hh & He).
    rewrite Heq. unfold run_on, listeners_of. red_run. rewrite Hl.
    repeat split; try assumption.
    + rewrite lookup_insert_eq. reflexivity.
    + intros n Hn. apply lookup_insert_ne. congruence.
  - unfold listeners_of. rewrite Hls. simpl. unfold run_on, listeners_of. red_run.
    rewrite Hls. repeat split.
Qed.

Lemma run_on_bind_l {A B} (eventName : string) (m : M A) (f : A -> M B) (st : State)
      (final called : list Listener) :
  quiet st (m st) ->
  (forall a st1 tr1,
      m st = (Normal a, st1, tr1) ->
      control st1 = control st -> eventListeners st1 = eventListeners st ->
      run_on eventName st1 final called (f a st1)) ->
  run_on eventName st final called ((m ≫= f) st).
Proof.
  intros Hm Hf. destruct (quiet_inv _ _ Hm) as (a & st1 & tr1 & Heq & Hc & Hl & Hh & He).
  specialize (Hf a st1 tr1 Heq Hc Hl).
  rewrite run_bind, Heq. destruct (f a st1) as [[r st2] tr2].
  unfold run_on in *. red_run.
  destruct Hf as (Hn2 & Hc2 & Hl2 & Ho2 & Hh2 & He2).
  rewrite handler_calls_app, error_middleware_calls_app, Hh, He, Hh2, He2.
  repeat split; try assumption; try congruence.
  intros n Hn. rewrite (Ho2 n Hn), Hl. reflexivity.
Qed.

Lemma run_on_bind_r {A B} (eventName : string) (m : M A) (f : A -> M B) (st : State)
      (final called : list Listener) :
  run_on eventName st final called (m st) ->
  (forall a st1, quiet st1 (f a st1)) ->
  run_on eventName st final called ((m ≫= f) st).
Proof.
  intros Hm Hf. rewrite run_bind. destruct (m st) as [[r st1] tr1].
  unfold run_on in *. red_run.
  destruct Hm as (Hn & Hc & Hl & Ho & Hh & He).
  destruct r as [a|e]; [|discriminate].
  specialize (Hf a st1). destruct (f a st1) as [[r2 st2] tr2]. red_run.
  destruct Hf as (Hn2 & Hc2 & Hl2 & Hh2 & He2).
  rewrite handler_calls_app, error_middleware_calls_app, Hh, He, Hh2, He2, app_nil_r.
  unfold listeners_of in *. rewrite Hl2.
  repeat split; try assumption; try congruence.
Qed.

Lemma admitted_same (st st1 : State) (eventName : string) (a : list Value) :
  control st1 = control st -> admitted w st1 eventName a = admitted w st eventName a.
Proof.
  unfold control, admitted. intros H. injection H as _ _ Hf Hc _ _ _.
  rewrite Hf, Hc. reflexivity.
Qed.

Lemma process_steps_spec (ev : EventData) (t0 : Z) (st : State) :
  run_on (name ev) st
    (if admitted w st (name ev) (args ev)
     then listeners_after w (args ev) (listeners_of (name ev) st)
     else listeners_of (name ev) st)
    (if admitted w st (name ev) (args ev)
     then listeners_called w (args ev) (listeners_of (name ev) st)
     else [])
    (process_steps w ev t0 st).
Proof.
  unfold process_steps.
  apply run_on_bind_l; [red_run; repeat split|].
  intros [] st1 tr1 _ Hc1 Hl1.
  apply run_on_bind_l; [red_run; repeat split|].
  intros filtering st2 tr2 Heq2 Hc2 Hl2.
  unfold gets in Heq2. injection Heq2 as <- <- <-.
  assert (admitted w st (name ev) (args ev) =
          (negb (enableFiltering (config st1)) ||
           forallb (fun f => match run w f (args ev) with
                             | Returns v _ => truthy v
                             | Throws _ _ => true
                             end) (default [] (eventFilters st1 !! name ev)))) as Hadm.
  { rewrite <- (admitted_same st st1) by exact Hc1. reflexivity. }
  assert (listeners_of (name ev) st = listeners_of (name ev) st1) as Hsame.
  { unfold listeners_of. rewrite Hl1. reflexivity. }
  rewrite Hadm, Hsame. clear Hadm Hsame.
  destruct (enableFiltering (config st1)); simpl.
  - destruct (applyEventFilters_spec (name ev) (args ev) st1) as [Hq Hr].
    apply run_on_bind_l; [exact Hq|].
    intros pass st3 tr3 Heq3 Hc3 Hl3.
    rewrite Heq3 in Hr. unfold result_of in Hr. simpl in Hr. injection Hr as ->.
    assert (listeners_of (name ev) st1 = listeners_of (name ev) st3) as Hsame.
    { unfold listeners_of. rewrite Hl3. reflexivity. }
    rewrite Hsame.
    destruct (forallb _ _).
    + apply run_on_bind_l; [apply executeMiddleware_quiet; reflexivity|].
      intros [] st4 tr4 _ Hc4 Hl4.
      assert (listeners_of (name ev) st3 = listeners_of (name ev) st4) as Hsame4.
      { unfold listeners_of. rewrite Hl4. reflexivity. }
      rewrite Hsame4.
      apply run_on_bind_r; [apply executeEventListeners_spec|].
      intros [] st5. apply quiet_bind; [apply executeMiddleware_quiet; reflexivity|].
      intros [] st6 _ _. apply quiet_bind; [red_run; repeat split|].
      intros finish st7 _ _. apply updateEventMetrics_quiet.
    + apply quiet_run_on. apply quiet_ret.
  - apply run_on_bind_l; [apply quiet_ret|].
    intros pass st3 tr3 Heq3 Hc3 Hl3. injection Heq3 as <- <- <-.
    apply run_on_bind_l; [apply executeMiddleware_quiet; reflexivity|].
    intros [] st4 tr4 _ Hc4 Hl4.
    assert (listeners_of (name ev) st1 = listeners_of (name ev) st4) as Hsame4.
    { unfold listeners_of. rewrite Hl4. reflexivity. }
    rewrite Hsame4.
    apply run_on_bind_r; [apply executeEventListeners_spec|].
    intros [] st5. apply quiet_bind; [apply executeMiddleware_quiet; reflexivity|].
    intros [] st6 _ _. apply quiet_bind; [red_run; repeat split|].
    intros finish st7 _ _. apply updateEventMetrics_quiet.
Qed.

(** [processEvent] never reaches its [catch] block: every user
    function is called inside a [try] of its own further down. *)
Lemma processEvent_spec (ev : EventData) (st : State) :
  run_on (name ev) st
    (if admitted w st (name ev) (args ev)
     then listeners_after w (args ev) (listeners_of (name ev) st)
     else listeners_of (name ev) st)
    (if admitted w st (name ev) (args ev)
     then listeners_called w (args ev) (listeners_of (name ev) st)
     else [])
    (processEvent w ev st).
Proof.
  unfold processEvent. rewrite run_bind. unfold gets.
  pose proof (process_steps_spec ev (now st) st) as Hs.
  unfold try_finally, try_catch, modify.
  destruct (process_steps w ev (now st) st) as [[r st1] tr1].
  unfold run_on in *. red_run.
  destruct Hs as (Hn & Hc & Hl & Ho & Hh & He).
  destruct r as [[]|e]; [|discriminate]. simpl.
  rewrite !app_nil_r. repeat split; assumption.
Qed.

(** *** The queue *)

Lemma process_all_spec (events : list EventData) :
  forall st, exists st1 tr1,
    process_all w events st = (Normal tt, st1, tr1) /\
    control st1 = control st /\
    error_middleware_calls tr1 = [].
Proof.
  induction events as [|e events IH]; intros st.
  - exists st, []. repeat split.
  - cbn [process_all]. rewrite run_bind.
    pose proof (processEvent_spec e st) as Hp.
    destruct (processEvent w e st) as [[r st1] tr1]. unfold run_on in Hp. red_run.
    destruct Hp as (Hn & Hc & _ & _ & _ & He).
    destruct r as [[]|err]; [|discriminate].
    destruct (IH st1) as (st2 & tr2 & Heq2 & Hc2 & He2). rewrite Heq2.
    exists st2, (tr1 ++ tr2). rewrite error_middleware_calls_app, He, He2.
    repeat split. congruence.
Qed.

Lemma process_all_one (e : EventData) (st : State) :
  process_all w [e] st =
  match processEvent w e st with
  | (Normal _, st1, tr1) => (Normal tt, st1, tr1 ++ [])
  | (Throw err, st1, tr1) => (Throw err, st1, tr1)
  end.
Proof. reflexivity. Qed.

Arguments processEventQueue : simpl never.
Arguments processEvent : simpl never.
Arguments process_all : simpl never.
Arguments handleEventError : simpl never.

Lemma processEventQueue_spec (st : State) :
  exists st1 tr1,
    processEventQueue w st = (Normal tt, st1, tr1) /\
    config st1 = config st /\
    error_middleware_calls tr1 = [].
Proof.
  unfold processEventQueue.
  cbv [mbind M_bind gets modify mret M_ret try_finally try_catch].
  destruct (isProcessing st || bool_decide (eventQueue st = []))%bool.
  - exists st, []. repeat split.
  - destruct (process_all_spec
                (take (Z.to_nat (concurrentEvents (config (set_isProcessing true st))))
                      (eventQueue st))
                (set_eventQueue
                   (drop (Z.to_nat (concurrentEvents (config (set_isProcessing true st))))
                         (eventQueue st))
                   (set_isProcessing true st)))
      as (st1 & tr1 & Heq & Hc & He).
    rewrite Heq.
    assert (config st1 = config st) as Hcfg.
    { unfold control in Hc. simpl in Hc. injection Hc as _ _ _ Hcfg _ _ _. exact Hcfg. }
    destruct (bool_decide (eventQueue (set_isProcessing false st1) = []));
      eexists _, _; (split; [reflexivity|]); simpl; rewrite !app_nil_r; split; assumption.
Qed.

(** [emit] on any state: its answer, and what it leaves behind when
    the queue is full. *)
Lemma emit_spec (eventName : string) (a : list Value) (st : State) :
  exists st1 tr1,
    emit w eventName a st = (Normal (negb (queue_full st)), st1, tr1) /\
    error_middleware_calls tr1 = [] /\
    (queue_full st = true -> eventQueue st1 = eventQueue st /\ tr1 = []) /\
    (queue_full st = false -> isProcessing st = true ->
     exists ev, name ev = eventName /\ args ev = a /\
                eventQueue st1 = eventQueue st ++ [ev] /\ tr1 = []).
Proof.
  unfold emit, queue_full.
  cbv [mbind M_bind gets mret M_ret try_catch new_event enqueue].
  simpl.
  destruct (maxQueueSize (config st) <=? Z.of_nat (length (eventQueue st))) eqn:Hfull; simpl.
  - eexists _, _. split; [reflexivity|]. repeat split; discriminate.
  - destruct (isProcessing st) eqn:Hbusy; simpl.
    + eexists _, _. split; [reflexivity|]. split; [reflexivity|].
      split; [discriminate|]. intros _ _.
      exists {| name := eventName; args := a; timestamp := now st;
                id := "event_" +:+ string_of_Z (now st) +:+ "_" +:+ random w (randoms st) |}.
      split; [reflexivity|]. split; [reflexivity|]. split; reflexivity.
    + match goal with
      | |- context [processEventQueue w ?s] =>
          destruct (processEventQueue_spec s) as (st1 & tr1 & Heq & _ & He)
      end.
      rewrite Heq. eexists _, _. split; [reflexivity|].
      simpl. rewrite app_nil_r. split; [exact He|]. split; discriminate.
Qed.

Lemma idle_same (st st1 : State) : control st1 = control st -> idle st -> idle st1.
Proof.
  unfold control, idle. intros H. injection H as _ _ _ Hc Hq Hp _.
  rewrite Hc, Hq, Hp. tauto.
Qed.

(** A queue that holds one event, and nobody processing: the event is
    taken out and processed. *)
Lemma processEventQueue_one (ev : EventData) (st : State) :
  isProcessing st = false ->
  eventQueue st = [ev] ->
  0 < concurrentEvents (config st) ->
  exists st1 tr1,
    processEventQueue w st = (Normal tt, st1, tr1) /\
    control st1 = (middlewareStack st, errorHandlers st, eventFilters st, config st,
                   [], false, immediates st) /\
    listeners_of (name ev) st1 =
      (if admitted w st (name ev) (args ev)
       then listeners_after w (args ev) (listeners_of (name ev) st)
       else listeners_of (name ev) st) /\
    (forall n, n <> name ev -> eventListeners st1 !! n = eventListeners st !! n) /\
    handler_calls tr1 =
      (if admitted w st (name ev) (args ev)
       then listeners_called w (args ev) (listeners_of (name ev) st)
       else []) /\
    error_middleware_calls tr1 = [].
Proof.
  intros Hbusy Hq Hwidth.
  unfold processEventQueue.
  cbv [mbind M_bind gets modify mret M_ret try_finally try_catch].
  rewrite Hbusy, Hq. rewrite bool_decide_eq_false_2 by discriminate.
  cbn [orb config set_isProcessing].
  destruct (Z.to_nat (concurrentEvents (config st))) as [|width] eqn:Hw; [lia|].
  cbn [take drop]. rewrite ?take_nil, ?drop_nil. rewrite process_all_one.
  pose proof (processEvent_spec ev (set_eventQueue [] (set_isProcessing true st))) as Hp.
  destruct (processEvent w ev (set_eventQueue [] (set_isProcessing true st)))
    as [[r st1] tr1].
  unfold run_on, result_of, state_of, calls_of in Hp. cbn [fst snd] in Hp.
  destruct Hp as (Hn & Hc & Hl & Ho & Hh & He).
  destruct r as [[]|err]; [|discriminate].
  assert (eventQueue st1 = []) as Hq1.
  { unfold control in Hc. simpl in Hc. injection Hc as _ _ _ _ Hq1 _ _. exact Hq1. }
  simpl. rewrite Hq1. rewrite bool_decide_eq_true_2 by reflexivity. simpl.
  eexists _, _. split; [reflexivity|].
  rewrite !app_nil_r.
  split.
  { unfold control in *. simpl in *. injection Hc as -> -> -> -> _ _ ->.
    rewrite Hq1. reflexivity. }
  split; [exact Hl|]. split; [exact Ho|]. split; assumption.
Qed.

(** [emit] on an idle system: the event is processed before [emit]
    returns, and the system is idle again. *)
Lemma emit_idle (eventName : string) (a : list Value) (st : State) :
  idle st ->
  result_of (emit w eventName a st) = Normal true /\
  run_on eventName st
    (if admitted w st eventName a
     then listeners_after w a (listeners_of eventName st)
     else listeners_of eventName st)
    (if admitted w st eventName a
     then listeners_called w a (listeners_of eventName st)
     else [])
    (emit w eventName a st).
Proof.
  intros (Hbusy & Hq & Hmax & Hwidth).
  unfold emit.
  cbv [mbind M_bind gets mret M_ret try_catch new_event enqueue].
  simpl. rewrite Hq. simpl. change (Z.of_nat 0) with 0.
  destruct (Z.leb_spec (maxQueueSize (config st)) 0) as [Hle|_]; [lia|].
  simpl. rewrite Hbusy. simpl.
  match goal with
  | |- context [processEventQueue w ?s] =>
      destruct (processEventQueue_one
                  {| name := eventName; args := a; timestamp := now st;
                     id := "event_" +:+ string_of_Z (now st) +:+ "_" +:+
                           random w (randoms st) |} s)
        as (st1 & tr1 & Heq & Hc & Hl & Ho & Hh & He);
        [exact Hbusy | reflexivity | exact Hwidth |]
  end.
  rewrite Heq. simpl in *. rewrite !app_nil_r.
  unfold run_on, result_of, state_of, calls_of. cbn [fst snd].
  split; [reflexivity|]. split; [reflexivity|]. split.
  { rewrite Hc. unfold control. rewrite Hq, Hbusy. reflexivity. }
  repeat split; assumption.
Qed.

(** *** Backpressure *)


(** *** Error middleware *)

(** No run of [emit] calls a middleware of type [error], whatever the
    listeners do: their exceptions end in the [catch] of the loop body,
    and nothing else under [processEvent] throws. *)
Lemma error_middleware_unreachable (eventName : string) (a : list Value) (st : State) :
  error_middleware_calls (calls_of (emit w eventName a st)) = [].
Proof.
  destruct (emit_spec eventName a st) as (st1 & tr1 & Heq & He & _).
  rewrite Heq. exact He.
Qed.

End Runs.


(** *** Removal by id *)

Lemma remove_by_id_absent (k : string) (ls : list Listener) :
  Forall (fun l => listener_id l <> k) ls -> remove_by_id k ls = ls.
Proof.
  intros H. unfold remove_by_id.
  rewrite (proj2 (list_find_None (fun l => listener_id l = k) ls)); [reflexivity|].
  exact H.
Qed.


Lemma off_absent (eventName k : string) (st : State) :
  Forall (fun l => listener_id l <> k) (listeners_of eventName st) ->
  off eventName k st = (Normal false, st, []).
Proof.
  unfold off, listeners_of. intros H.
  destruct (eventListeners st !! eventName) as [ls|]; [|reflexivity].
  simpl in H.
  rewrite (proj2 (list_find_None (fun l => listener_id l = k) ls)); [reflexivity|exact H].
Qed.

Lemma off_present (eventName k : string) (st : State) (pre post : list Listener) (L : Listener) :
  eventListeners st !! eventName = Some (pre ++ L :: post) ->
  listener_id L = k ->
  Forall (fun l => listener_id l <> k) pre ->
  off eventName k st =
  (Normal true, set_eventListeners (<[eventName := pre ++ post]> (eventListeners st)) st, []).
Proof.
  intros Hls Hk Hpre. unfold off. rewrite Hls.
  rewrite list_find_app_r by (apply list_find_None; exact Hpre).
  simpl. rewrite decide_True by exact Hk. simpl.
  rewrite delete_middle. reflexivity.
Qed.

(** C9, as stated, fails when two listeners carry the same id: two
    registrations without [options.id] in the same millisecond get the
    same default id, and both calls of [off] answer [true]. *)
Lemma off_twice_with_shared_id :
  let st0 := constructor 1700 in
  let r1 := on "msg" (UserFn 1) no_options st0 in
  let r2 := on "msg" (UserFn 2) no_options (state_of r1) in
  let first := off "msg" "custom_msg_1700" (state_of r2) in
  let second := off "msg" "custom_msg_1700" (state_of first) in
  result_of r1 = Normal "custom_msg_1700" /\
  result_of r2 = Normal "custom_msg_1700" /\
  result_of first = Normal true /\
  result_of second = Normal true /\
  state_of second <> state_of first.
Proof.
  cbv zeta. repeat split.
  intros H. apply (f_equal (fun st => length (listeners_of "msg" st))) in H.
  vm_compute in H. discriminate.
Qed.

(** C9, amended.  [off] answers [false], and changes nothing, whenever
    no listener of that event name carries the id.  When exactly one
    listener carries it, the first call removes that listener and
    answers [true], the second call answers [false] and leaves the
    registry as the first call left it. *)
Theorem off_twice (eventName k : string) (st : State) :
  (Forall (fun l => listener_id l <> k) (listeners_of eventName st) ->
   off eventName k st = (Normal false, st, [])) /\
  (forall pre L post,
      eventListeners st !! eventName = Some (pre ++ L :: post) ->
      listener_id L = k ->
      Forall (fun l => listener_id l <> k) pre ->
      Forall (fun l => listener_id l <> k) post ->
      let first := off eventName k st in
      let second := off eventName k (state_of first) in
      result_of first = Normal true /\
      listeners_of eventName (state_of first) = pre ++ post /\
      result_of second = Normal false /\
      state_of second = state_of first).
Proof.
  split; [apply off_absent|].
  intros pre L post Hls Hk Hpre Hpost. cbv zeta.
  rewrite (off_present eventName k st pre post L Hls Hk Hpre).
  unfold result_of, state_of. simpl.
  assert (listeners_of eventName
            (set_eventListeners (<[eventName := pre ++ post]> (eventListeners st)) st)
          = pre ++ post) as Hafter.
  { unfold listeners_of. simpl. rewrite lookup_insert_eq. reflexivity. }
  rewrite off_absent by (rewrite Hafter; apply Forall_app; split; assumption).
  repeat split. exact Hafter.
Qed.

Lemma off_twice_witness :
  let st := state_of (on "msg" (UserFn 1) no_options (constructor 1700)) in
  let first := off "msg" "custom_msg_1700" st in
  let second := off "msg" "custom_msg_1700" (state_of first) in
  result_of first = Normal true /\
  listeners_of "msg" (state_of first) = [] /\
  result_of second = Normal false /\
  state_of second = state_of first.
Proof.
  cbv zeta.
  destruct (off_twice "msg" "custom_msg_1700"
                      (state_of (on "msg" (UserFn 1) no_options (constructor 1700))))
    as [_ H].
  apply (H [] (make_listener "msg" (UserFn 1) no_options (constructor 1700)) []).
  - vm_compute. reflexivity.
  - vm_compute. reflexivity.
  - constructor.
  - constructor.
Defined.


(** *** One emit on an idle system, read through [walk] *)

Lemma once_false_fires_not (w : World) (a : list Value) (ls : list Listener) :
  Forall (fun l => once l = false) ls -> Forall (fun l => fires_once w a l = false) ls.
Proof.
  intros Hall. eapply Forall_impl; [exact Hall|].
  intros l H. unfold fires_once. rewrite H. reflexivity.
Qed.

Lemma fails_fires_not (w : World) (a : list Value) (l : Listener) :
  fails w a l = true -> accepts w a l = true /\ fires_once w a l = false.
Proof.
  unfold fails, fires_once, completes. intros H.
  apply andb_true_iff in H as [Ha Hr]. rewrite Ha. split; [reflexivity|].
  destruct (handler_result w a l); [discriminate|].
  simpl. apply andb_false_r.
Qed.


(** The loop from the head of the array reaches a listener that no
    one-shot listener precedes. *)
Lemma walk_to (w : World) (a : list Value) (pre post : list Listener) (L : Listener) :
  Forall (fun l => once l = false) pre ->
  walk w a (length (pre ++ L :: post)) 0 (pre ++ L :: post) =
  (fst (walk w a (S (length post)) (length pre) (pre ++ L :: post)),
   List.filter (accepts w a) pre ++
   snd (walk w a (S (length post)) (length pre) (pre ++ L :: post))).
Proof.
  intros Hpre.
  pose proof (walk_through w a pre (once_false_fires_not w a pre Hpre)
                           (S (length post)) [] (L :: post)) as H.
  simpl in H. rewrite length_app. simpl. exact H.
Qed.

Lemma listener_reached (w : World) (a : list Value) (pre post : list Listener) (L : Listener) :
  Forall (fun l => once l = false) pre ->
  accepts w a L = true ->
  L ∈ listeners_called w a (pre ++ L :: post).
Proof.
  intros Hpre Hacc. unfold listeners_called. rewrite walk_to by exact Hpre.
  cbn [snd walk]. rewrite (list_lookup_middle pre post L (length pre) eq_refl).
  destruct (walk w a (length post) (S (length pre))
                 (if fires_once w a L then remove_by_id (listener_id L) (pre ++ L :: post)
                  else pre ++ L :: post)) as [final called].
  rewrite Hacc. apply elem_of_app. right. apply elem_of_cons. left. reflexivity.
Qed.

(** A listener whose body does not end in [off] is still in the array
    after the loop, unless a later listener shares its id. *)
Lemma listener_kept (w : World) (a : list Value) (pre post : list Listener) (L : Listener) :
  Forall (fun l => once l = false) pre ->
  fires_once w a L = false ->
  Forall (fun l => listener_id l <> listener_id L) post ->
  exists pre1 post1,
    listeners_after w a (pre ++ L :: post) = pre1 ++ L :: post1 /\
    sublist pre1 pre /\ sublist post1 post.
Proof.
  intros Hpre Hfire Hpost. unfold listeners_after. rewrite walk_to by exact Hpre.
  cbn [fst walk]. rewrite (list_lookup_middle pre post L (length pre) eq_refl).
  rewrite Hfire.
  destruct (walk_keeps w a L (length post) (S (length pre)) pre post)
    as (pre1 & post1 & Heq & H1 & H2); [lia | exact Hpost|].
  destruct (walk w a (length post) (S (length pre)) (pre ++ L :: post)) as [final called].
  simpl in *. exists pre1, post1. repeat split; assumption.
Qed.





Lemma emit_once (w : World) (eventName : string) (a : list Value) (st : State) :
  idle st ->
  admitted w st eventName a = true ->
  result_of (emit w eventName a st) = Normal true /\
  handler_calls (calls_of (emit w eventName a st)) =
    listeners_called w a (listeners_of eventName st) /\
  listeners_of eventName (state_of (emit w eventName a st)) =
    listeners_after w a (listeners_of eventName st) /\
  (forall n, n <> eventName ->
             listeners_of n (state_of (emit w eventName a st)) = listeners_of n st) /\
  control (state_of (emit w eventName a st)) = control st /\
  idle (state_of (emit w eventName a st)).
Proof.
  intros Hidle Hadm.
  destruct (emit_idle w eventName a st Hidle) as [Hr (Hn & Hc & Hl & Ho & Hh & He)].
  rewrite Hadm in Hl, Hh.
  split; [exact Hr|]. split; [exact Hh|]. split; [exact Hl|].
  split; [|split; [exact Hc | eapply idle_same; eassumption]].
  intros n Hne. unfold listeners_of. rewrite (Ho n Hne). reflexivity.
Qed.

(** *** Isolation of listener failures *)

(** The premise that no listener ends in [off], decided by running
    the test on each listener. *)
Lemma no_removal_check (w : World) (a : list Value) (ls : list Listener) :
  forallb (fun l => negb (fires_once w a l)) ls = true ->
  Forall (fun l => fires_once w a l = false) ls.
Proof.
  intros H. apply Forall_forall. intros l Hl.
  apply list_elem_of_In in Hl.
  pose proof (proj1 (forallb_forall _ ls) H l Hl) as Hn.
  apply negb_true_iff. exact Hn.
Qed.


(** One emit in which no listener is removed. *)
Lemma emit_without_removal
  (w : World) (eventName : string) (a : list Value) (st : State) :
  idle st ->
  admitted w st eventName a = true ->
  Forall (fun l => fires_once w a l = false) (listeners_of eventName st) ->
  handler_calls (calls_of (emit w eventName a st))
  = List.filter (accepts w a) (listeners_of eventName st) /\
  (forall n, listeners_of n (state_of (emit w eventName a st)) = listeners_of n st).
Proof.
  intros Hidle Hadm Hno.
  destruct (emit_once w eventName a st Hidle Hadm) as (_ & Hh & Hl & Ho & _).
  split.
  - rewrite Hh. unfold listeners_called.
    rewrite walk_without_removal by (exact Hno || lia). reflexivity.
  - intros n. destruct (decide (n = eventName)) as [->|Hne]; [|apply Ho; exact Hne].
    rewrite Hl. unfold listeners_after.
    rewrite walk_without_removal by (exact Hno || lia). reflexivity.
Qed.



(** *** Error middleware and failing listeners *)

(** C3.  A middleware of type [error] and an error handler are
    registered for [test], together with a listener whose handler
    throws, as in the repository's own test of error handling.  The
    emit is accepted and the handler is called and throws; neither the
    error middleware nor the error handler is called, and no error is
    counted.  The same holds of every run of [emit]: no call of an
    error middleware occurs in it, while the property asks for one call
    per failing listener. *)
Theorem failing_listener_reaches_no_error_middleware :
  let w := {| run := fun _ _ => Returns VUndefined 0;
              run_handler := fun f _ => match f with
                                        | UserFn 1 => Settles (Throws (VError "Test error") 0)
                                        | _ => Settles (Returns VUndefined 0)
                                        end;
              random := fun _ => "k3x9" |} in
  let st1 := state_of (use "test" (UserFn 7)
                           {| use_priority := None; use_id := Some "report";
                              use_type := Some "error" |} (constructor 0)) in
  let st2 := state_of (onError "test" (UserFn 8) st1) in
  let st3 := state_of (on "test" (UserFn 1)
                          {| opt_priority := None; opt_id := Some "thrower"; opt_once := None;
                             opt_filter := None; opt_timeout := None |} st2) in
  let thrower := make_listener "test" (UserFn 1)
                   {| opt_priority := None; opt_id := Some "thrower"; opt_once := None;
                      opt_filter := None; opt_timeout := None |} st2 in
  let run := emit w "test" [VStr "payload"] st3 in
  (map middleware_type <$> middlewareStack st3 !! "test") = Some ["error"] /\
  fails w [VStr "payload"] thrower = true /\
  result_of run = Normal true /\
  calls_of run = [CallHandler thrower [VStr "payload"]] /\
  errorEvents (metrics (state_of run)) = 0 /\
  (forall w' eventName a st, error_middleware_calls (calls_of (emit w' eventName a st)) = []).
Proof.
  cbv zeta. split; [vm_compute; reflexivity|]. split; [vm_compute; reflexivity|].
  split; [vm_compute; reflexivity|]. split; [vm_compute; reflexivity|].
  split; [vm_compute; reflexivity|].
  intros w' eventName a st. apply error_middleware_unreachable.
Qed.

(** *** Order of invocation *)

(** C6, as stated, fails for a listener registered with priority 0:
    [options.priority || 5] stores 5 for it, and a listener registered
    later with priority 3 is called before it. *)
Lemma priority_zero_runs_as_five :
  let w := {| run := fun _ _ => Returns VUndefined 0;
              run_handler := fun _ _ => Settles (Returns VUndefined 0);
              random := fun _ => "k3x9" |} in
  let with_priority k p := {| opt_priority := Some p; opt_id := Some k; opt_once := None;
                              opt_filter := None; opt_timeout := None |} in
  let st := register_all "msg" [(UserFn 1, with_priority "A" 0); (UserFn 2, with_priority "B" 3)]
                         (constructor 0) in
  map (fun l => (listener_id l, priority l)) (handler_calls (calls_of (emit w "msg" [] st)))
  = [("B", 3); ("A", 5)].
Proof. vm_compute. reflexivity. Qed.

(** C6, amended.  The priority of a listener is the one stored by
    [on]: the number given at registration, or 5 when none or 0 is
    given.  After any run of registrations on a name whose array was
    sorted, the array is sorted by priority and listeners of equal
    priority stand in their order of registration; one emit calls the
    handlers in array order, so in ascending priority with ties in
    registration order; and it calls all those whose filter accepts
    when the event passes the event filters and no listener is removed
    during the emit. *)
Theorem listeners_run_in_priority_order
  (w : World) (eventName : string) (regs : list (Fn * Options)) (a : list Value) (st : State) :
  idle st ->
  StronglySorted priority_le (listeners_of eventName st) ->
  let st1 := register_all eventName regs st in
  let order := listeners_of eventName st ++ registrations eventName regs st in
  let called := handler_calls (calls_of (emit w eventName a st1)) in
  Forall (fun r => priority (make_listener eventName (fst r) (snd r) st)
                   = num_or (opt_priority (snd r)) 5) regs /\
  listeners_of eventName st1 ≡ₚ order /\
  StronglySorted priority_le (listeners_of eventName st1) /\
  (forall p, filter (fun l => priority l = p) (listeners_of eventName st1)
             = filter (fun l => priority l = p) order) /\
  sublist called (listeners_of eventName st1) /\
  StronglySorted priority_le called /\
  (forall p, sublist (filter (fun l => priority l = p) called)
                     (filter (fun l => priority l = p) order)) /\
  (admitted w st1 eventName a = true ->
   Forall (fun l => fires_once w a l = false) (listeners_of eventName st1) ->
   called = List.filter (accepts w a) (listeners_of eventName st1)).
Proof.
  intros Hidle Hsorted. cbv zeta.
  pose proof (register_all_listeners eventName regs st Hsorted) as Hreg.
  destruct (register_all_frame eventName regs st) as [Hc _].
  assert (idle (register_all eventName regs st)) as Hidle1 by (eapply idle_same; eassumption).
  assert (StronglySorted priority_le (listeners_of eventName (register_all eventName regs st)))
    as Hs1 by (rewrite Hreg; apply (stable_sort_sorted priority)).
  assert (forall p, filter (fun l => priority l = p)
                           (listeners_of eventName (register_all eventName regs st))
                    = filter (fun l => priority l = p)
                             (listeners_of eventName st ++ registrations eventName regs st))
    as Hties by (intros p; rewrite Hreg; apply stable_sort_filter).
  assert (sublist (handler_calls (calls_of (emit w eventName a (register_all eventName regs st))))
                  (listeners_of eventName (register_all eventName regs st))) as Hsub.
  { destruct (emit_idle w eventName a _ Hidle1) as [_ (_ & _ & _ & _ & Hh & _)].
    rewrite Hh. destruct (admitted w _ eventName a); [|apply sublist_nil_l].
    unfold listeners_called.
    destruct (walk_sublist w a (length (listeners_of eventName (register_all eventName regs st)))
                           0 (listeners_of eventName (register_all eventName regs st)))
      as [_ H2].
    exact H2. }
  split; [apply Forall_forall; intros r _; reflexivity|].
  split; [rewrite Hreg; apply stable_sort_perm|].
  split; [exact Hs1|]. split; [exact Hties|]. split; [exact Hsub|].
  split; [eapply StronglySorted_sublist; eassumption|].
  split.
  { intros p. rewrite <- Hties. apply sublist_filter_mono. exact Hsub. }
  intros Hadm Hno.
  destruct (emit_without_removal w eventName a _ Hidle1 Hadm Hno) as [H _].
  exact H.
Qed.

Lemma listeners_run_in_priority_order_witness :
  let w := {| run := fun _ _ => Returns VUndefined 0;
              run_handler := fun _ _ => Settles (Returns VUndefined 0);
              random := fun _ => "k3x9" |} in
  let with_priority k p := {| opt_priority := Some p; opt_id := Some k; opt_once := None;
                              opt_filter := None; opt_timeout := None |} in
  let regs := [(UserFn 2, with_priority "B" 5); (UserFn 1, with_priority "A" 1)] in
  map listener_id
      (handler_calls (calls_of (emit w "msg" [] (register_all "msg" regs (constructor 0)))))
  = ["A"; "B"].
Proof.
  cbv zeta.
  match goal with
  | |- map listener_id (handler_calls (calls_of (emit ?w ?n ?a (register_all _ ?regs ?st)))) = _ =>
      destruct (listeners_run_in_priority_order w n regs a st)
        as (_ & _ & _ & _ & _ & _ & _ & Hall)
  end.
  - repeat split; simpl; lia.
  - constructor.
  - rewrite Hall;
      [vm_compute; reflexivity | vm_compute; reflexivity
       | apply no_removal_check; vm_compute; reflexivity].
Defined.

(** *** One-shot listeners *)




(** C10, as stated, fails.  Two one-shot listeners registered on one
    name within the same millisecond and without an id of their own
    carry the same id.  In one emit the first throws; the second
    completes, and the [off] that follows removes the first listener
    that carries its id, which is the one that threw.  That listener
    is gone from the registry although its handler failed, and the next
    emit does not call it; the listener that completed is still
    registered and is called again. *)
Lemma failed_one_shot_listener_removed_by_namesake :
  let w := {| run := fun _ _ => Returns VUndefined 0;
              run_handler := fun f _ => match f with
                                        | UserFn 1 => Settles (Throws (VError "boom") 0)
                                        | _ => Settles (Returns VUndefined 0)
                                        end;
              random := fun _ => "k3x9" |} in
  let st1 := state_of (once_ "msg" (UserFn 1) no_options (constructor 0)) in
  let st2 := state_of (once_ "msg" (UserFn 2) no_options st1) in
  let run1 := emit w "msg" [] st2 in
  let run2 := emit w "msg" [] (state_of run1) in
  map (fun l => (handler l, listener_id l, once l)) (listeners_of "msg" st2) =
    [(UserFn 1, "custom_msg_0", true); (UserFn 2, "custom_msg_0", true)] /\
  map handler (handler_calls (calls_of run1)) = [UserFn 1; UserFn 2] /\
  map handler (listeners_of "msg" (state_of run1)) = [UserFn 2] /\
  map handler (handler_calls (calls_of run2)) = [UserFn 2].
Proof. cbv zeta. repeat split; vm_compute; reflexivity. Qed.

(** C10, amended.  Take a one-shot listener [L] that no one-shot
    listener precedes in the array and whose id no later listener
    carries.  If its handler is called in an emit and throws or runs
    into its timeout, then the loop body leaves the registry as it
    found it, and [L] is still registered after the emit.  When the
    listeners of the name all run functions of the caller, a
    subsequent emit of the name that passes the event filters and
    whose arguments [L]'s filter accepts calls [L] again.  The loop
    removes nothing but at the id of a one-shot listener that
    completes: when no listener behind [L] is one-shot and completes,
    the registry after the emit is the registry before it. *)
Theorem failed_one_shot_listener_stays
  (w1 w2 : World) (eventName : string) (a1 a2 : list Value) (st : State)
  (pre post : list Listener) (L : Listener) :
  idle st ->
  eventListeners st !! eventName = Some (pre ++ L :: post) ->
  once L = true ->
  Forall (fun l => once l = false) pre ->
  Forall (fun l => listener_id l <> listener_id L) post ->
  admitted w1 st eventName a1 = true ->
  fails w1 a1 L = true ->
  let run1 := emit w1 eventName a1 st in
  let run2 := emit w2 eventName a2 (state_of run1) in
  eventListeners (state_of (run_listener w1 eventName a1 L st)) = eventListeners st /\
  L ∈ handler_calls (calls_of run1) /\
  L ∈ listeners_of eventName (state_of run1) /\
  (callers_own eventName st ->
   admitted w2 st eventName a2 = true ->
   accepts w2 a2 L = true ->
   L ∈ handler_calls (calls_of run2)) /\
  (Forall (fun l => fires_once w1 a1 l = false) post ->
   forall n, listeners_of n (state_of run1) = listeners_of n st).
Proof.
  intros Hidle Hls Honce Hpre Hipost Hadm1 Hfail. cbv zeta.
  destruct (fails_fires_not w1 a1 L Hfail) as [Hacc1 Hnofire].
  destruct (emit_once w1 eventName a1 st Hidle Hadm1) as (_ & Hh & Hl & _ & Hc & Hidle1).
  rewrite (listeners_of_lookup _ _ _ Hls) in Hh, Hl.
  destruct (listener_kept w1 a1 pre post L Hpre Hnofire Hipost)
    as (pre1 & post1 & Hafter & Hsub1 & Hsub2).
  split.
  { destruct (run_listener_spec w1 eventName a1 L st _ Hls) as (st1 & tr1 & Heq & _ & He & _).
    rewrite Heq, Hnofire in *. exact He. }
  split; [rewrite Hh; apply listener_reached; assumption|].
  split.
  { rewrite Hl, Hafter. apply elem_of_app. right. apply elem_of_cons. left. reflexivity. }
  split.
  { intros _ Hadm2 Hacc2.
    assert (admitted w2 (state_of (emit w1 eventName a1 st)) eventName a2 = true) as Hadm2'
        by (rewrite (admitted_same w2 st _ eventName a2 Hc); exact Hadm2).
    destruct (emit_once w2 eventName a2 _ Hidle1 Hadm2') as (_ & Hh2 & _).
    rewrite Hh2, Hl, Hafter. apply listener_reached; [|exact Hacc2].
    eapply Forall_of_sublist; eassumption. }
  intros Hpost.
  assert (Forall (fun l => fires_once w1 a1 l = false) (listeners_of eventName st)) as Hno.
  { rewrite (listeners_of_lookup _ _ _ Hls). apply Forall_app. split.
    - apply once_false_fires_not. exact Hpre.
    - constructor; assumption. }
  destruct (emit_without_removal w1 eventName a1 st Hidle Hadm1 Hno) as [_ H].
  exact H.
Qed.

Lemma failed_one_shot_listener_stays_witness :
  let w1 := {| run := fun _ _ => Returns VUndefined 0;
               run_handler := fun _ _ => Pending;
               random := fun _ => "k3x9" |} in
  let w2 := {| run := fun _ _ => Returns VUndefined 0;
               run_handler := fun _ _ => Settles (Returns VUndefined 0);
               random := fun _ => "k3x9" |} in
  let options := {| opt_priority := None; opt_id := Some "L"; opt_once := None;
                    opt_filter := None; opt_timeout := Some 250 |} in
  let L := make_listener "test" (UserFn 1) (with_once options) (constructor 0) in
  let st := state_of (once_ "test" (UserFn 1) options (constructor 0)) in
  let run1 := emit w1 "test" [] st in
  let run2 := emit w2 "test" [] (state_of run1) in
  L ∈ handler_calls (calls_of run1) /\
  L ∈ listeners_of "test" (state_of run1) /\
  L ∈ handler_calls (calls_of run2).
Proof.
  cbv zeta.
  match goal with
  | |- ?L ∈ handler_calls (calls_of (emit ?w1 ?n ?a ?st)) /\ _ /\
       _ ∈ handler_calls (calls_of (emit ?w2 _ _ _)) =>
      destruct (failed_one_shot_listener_stays w1 w2 n a a st [] [] L)
        as (_ & H1 & H2 & H3 & _)
  end.
  - repeat split; simpl; lia.
  - vm_compute. reflexivity.
  - vm_compute. reflexivity.
  - constructor.
  - constructor.
  - vm_compute. reflexivity.
  - vm_compute. reflexivity.
  - split; [exact H1 | split; [exact H2|]].
    apply H3; [|vm_compute; reflexivity | vm_compute; reflexivity].
    unfold callers_own.
    replace (listeners_of "test" _) with
      [make_listener "test" (UserFn 1)
         (with_once {| opt_priority := None; opt_id := Some "L"; opt_once := None;
                       opt_filter := None; opt_timeout := Some 250 |}) (constructor 0)]
      by (vm_compute; reflexivity).
    repeat constructor.
Defined.

(** *** Judgements on methods *)

Definition never_throws {A} (m : M A) : Prop :=
  forall st, is_normal (result_of (m st)) = true.

Section Judgements.
Context (R : State -> State -> Prop) `{!PreOrder R} (P : Call -> Prop).

(** Every run relates the state before to the state after by [R] and
    makes only calls in [P]. *)
Definition sound {A} (m : M A) : Prop :=
  forall st, R st (state_of (m st)) /\ Forall P (calls_of (m st)).

Lemma sound_ret {A} (a : A) : sound (mret a).
Proof. intros st. split; [reflexivity | constructor]. Qed.

Lemma sound_gets {A} (f : State -> A) : sound (gets f).
Proof. intros st. split; [reflexivity | constructor]. Qed.

Lemma sound_throw {A} (e : Value) : sound (throw e : M A).
Proof. intros st. split; [reflexivity | constructor]. Qed.

Lemma sound_modify (f : State -> State) : (forall st, R st (f st)) -> sound (modify f).
Proof. intros H st. split; [apply H | constructor]. Qed.

Lemma sound_await (c : Call) (r : Settled) :
  (forall st t, R st (set_now t st)) -> P c -> sound (await c r).
Proof.
  intros HR HP st. unfold await.
  destruct r; (split; [apply HR | repeat constructor; exact HP]).
Qed.

Lemma sound_bind {A B} (m : M A) (f : A -> M B) :
  sound m -> (forall a, sound (f a)) -> sound (m ≫= f).
Proof.
  intros Hm Hf st. rewrite run_bind. specialize (Hm st).
  destruct (m st) as [[r st1] tr1]. unfold state_of, calls_of in *. simpl in *.
  destruct r as [a|e]; [|exact Hm].
  specialize (Hf a st1). destruct (f a st1) as [[r2 st2] tr2]. simpl in *.
  destruct Hm as [Hr1 Hp1], Hf as [Hr2 Hp2].
  split; [etransitivity; eassumption | apply Forall_app; split; assumption].
Qed.

Lemma sound_try_catch {A} (m : M A) (h : Value -> M A) :
  sound m -> (forall e, sound (h e)) -> sound (try_catch m h).
Proof.
  intros Hm Hh st. unfold try_catch. specialize (Hm st).
  destruct (m st) as [[r st1] tr1]. unfold state_of, calls_of in *. simpl in *.
  destruct r as [a|e]; [exact Hm|].
  specialize (Hh e st1). destruct (h e st1) as [[r2 st2] tr2]. simpl in *.
  destruct Hm as [Hr1 Hp1], Hh as [Hr2 Hp2].
  split; [etransitivity; eassumption | apply Forall_app; split; assumption].
Qed.

(** A [catch] block behind a body that does not throw plays no part. *)
Lemma sound_try_catch_unreached {A} (m : M A) (h : Value -> M A) :
  never_throws m -> sound m -> sound (try_catch m h).
Proof.
  intros Hn Hm st. unfold try_catch. specialize (Hm st). specialize (Hn st).
  destruct (m st) as [[r st1] tr1]. unfold result_of, state_of, calls_of in *. simpl in *.
  destruct r as [a|e]; [exact Hm | discriminate].
Qed.

Lemma sound_try_finally {A} (m : M A) (f : M unit) :
  sound m -> sound f -> sound (try_finally m f).
Proof.
  intros Hm Hf st. unfold try_finally. specialize (Hm st).
  destruct (m st) as [[r st1] tr1]. unfold state_of, calls_of in *. simpl in *.
  specialize (Hf st1). destruct (f st1) as [[r2 st2] tr2]. simpl in *.
  destruct Hm as [Hr1 Hp1], Hf as [Hr2 Hp2].
  destruct r2; (split; [etransitivity; eassumption | apply Forall_app; split; assumption]).
Qed.

End Judgements.

Lemma never_throws_ret {A} (a : A) : never_throws (mret a : M A).
Proof. intros st. reflexivity. Qed.

Lemma never_throws_gets {A} (f : State -> A) : never_throws (gets f).
Proof. intros st. reflexivity. Qed.

Lemma never_throws_modify (f : State -> State) : never_throws (modify f).
Proof. intros st. reflexivity. Qed.

Lemma never_throws_bind {A B} (m : M A) (f : A -> M B) :
  never_throws m -> (forall a, never_throws (f a)) -> never_throws (m ≫= f).
Proof.
  intros Hm Hf st. rewrite run_bind. specialize (Hm st).
  destruct (m st) as [[r st1] tr1]. unfold result_of in *. simpl in *.
  destruct r as [a|e]; [|discriminate].
  specialize (Hf a st1). destruct (f a st1) as [[r2 st2] tr2]. exact Hf.
Qed.

Lemma never_throws_try_catch {A} (m : M A) (h : Value -> M A) :
  (forall e, never_throws (h e)) -> never_throws (try_catch m h).
Proof.
  intros Hh st. unfold try_catch. destruct (m st) as [[r st1] tr1].
  destruct r as [a|e]; [reflexivity|].
  specialize (Hh e st1). destruct (h e st1) as [[r2 st2] tr2]. exact Hh.
Qed.

Lemma never_throws_try_finally {A} (m : M A) (f : M unit) :
  never_throws m -> never_throws f -> never_throws (try_finally m f).
Proof.
  intros Hm Hf st. unfold try_finally. specialize (Hm st).
  destruct (m st) as [[r st1] tr1]. specialize (Hf st1).
  destruct (f st1) as [[r2 st2] tr2]. unfold result_of in *. simpl in *.
  destruct r2; [exact Hm | discriminate].
Qed.

(** *** What no run of [emit] does *)

#[local] Instance settled_preorder : PreOrder settled.
Proof.
  split.
  - intros st. unfold settled. repeat split; reflexivity.
  - intros st1 st2 st3 (H1 & H2 & H3 & H4 & H5 & H6) (K1 & K2 & K3 & K4 & K5 & K6).
    unfold settled. repeat split; try congruence.
    intros n. etransitivity; [apply K6 | apply H6].
Qed.

Lemma settled_same (st st' : State) :
  middlewareStack st' = middlewareStack st ->
  errorHandlers st' = errorHandlers st ->
  eventFilters st' = eventFilters st ->
  config st' = config st ->
  errorEvents (metrics st') = errorEvents (metrics st) ->
  eventListeners st' = eventListeners st ->
  settled st st'.
Proof.
  intros H1 H2 H3 H4 H5 H6. unfold settled. repeat split; try assumption.
  intros n. unfold listeners_of. rewrite H6. reflexivity.
Qed.

Lemma settled_removal (st : State) (n : string) (ls ls' : list Listener) :
  eventListeners st !! n = Some ls ->
  sublist ls' ls ->
  settled st (set_eventListeners (<[n := ls']> (eventListeners st)) st).
Proof.
  intros Hl Hs. unfold settled. repeat split; try reflexivity.
  intros n'. unfold listeners_of. cbn [eventListeners set_eventListeners].
  destruct (decide (n' = n)) as [->|Hne].
  - rewrite lookup_insert_eq, Hl. exact Hs.
  - rewrite lookup_insert_ne by congruence. reflexivity.
Qed.

Ltac sound_step pre atom :=
  lazymatch goal with
  | |- sound ?R _ (mret _) => apply (@sound_ret R pre)
  | |- sound ?R _ (gets _) => apply (@sound_gets R pre)
  | |- sound ?R _ (modify _) => apply (@sound_modify R); intros ?; atom
  | |- sound ?R _ (await _ _) =>
      apply (@sound_await R); [intros ? ?; atom | try reflexivity]
  | |- sound ?R _ (_ ≫= _) => apply (@sound_bind R pre); [|intros ?]
  | |- sound ?R _ (try_catch _ (fun _ => mret _)) =>
      apply (@sound_try_catch R pre); [|intros ?]
  | |- sound ?R _ (try_finally _ _) => apply (@sound_try_finally R pre)
  | |- sound _ _ (if ?b then _ else _) => destruct b
  | |- sound _ _ (match ?x with _ => _ end) => destruct x
  end.

Ltac regular_step := sound_step settled_preorder ltac:(apply settled_same; reflexivity).

Ltac calm_step :=
  lazymatch goal with
  | |- never_throws (mret _) => apply never_throws_ret
  | |- never_throws (gets _) => apply never_throws_gets
  | |- never_throws (modify _) => apply never_throws_modify
  | |- never_throws (_ ≫= _) => apply never_throws_bind; [|intros ?]
  | |- never_throws (try_catch _ (fun _ => mret _)) =>
      apply never_throws_try_catch; intros ?; apply never_throws_ret
  | |- never_throws (try_finally _ _) => apply never_throws_try_finally
  | |- never_throws (if ?b then _ else _) => destruct b
  | |- never_throws (match ?x with _ => _ end) => destruct x
  end.

Section Frames.
Variable w : World.

Lemma off_regular (n k : string) : sound settled no_error_call (off n k).
Proof.
  intros st. unfold off, state_of, calls_of.
  destruct (eventListeners st !! n) as [ls|] eqn:Hl; [|split; [reflexivity | constructor]].
  destruct (list_find (fun l => listener_id l = k) ls) as [[i l]|];
    cbn [fst snd]; (split; [|constructor]); [|reflexivity].
  apply (settled_removal st n ls); [exact Hl | apply sublist_delete].
Qed.

Lemma run_listener_regular (n : string) (a : list Value) (l : Listener) :
  sound settled no_error_call (run_listener w n a l).
Proof.
  unfold run_listener, listener_body.
  repeat first [apply off_regular | regular_step].
Qed.

Lemma listeners_from_regular (n : string) (a : list Value) (k : nat) :
  forall i, sound settled no_error_call (listeners_from w n a k i).
Proof.
  induction k as [|k IH]; intros i; cbn [listeners_from].
  - regular_step.
  - repeat first [apply run_listener_regular | apply IH | regular_step].
Qed.

Lemma executeEventListeners_regular (n : string) (a : list Value) :
  sound settled no_error_call (executeEventListeners w n a).
Proof.
  unfold executeEventListeners.
  repeat first [apply listeners_from_regular | regular_step].
Qed.

Lemma middleware_loop_regular (a : list Value) (ms : list Middleware) :
  Forall (fun m => String.eqb (middleware_type m) "error" = false) ms ->
  sound settled no_error_call (middleware_loop w a ms).
Proof.
  induction 1 as [|m ms Hm _ IH]; cbn [middleware_loop].
  - regular_step.
  - repeat first [exact IH | exact Hm | regular_step].
Qed.

Lemma executeMiddleware_regular (n type : string) (a : list Value) :
  String.eqb type "error" = false -> sound settled no_error_call (executeMiddleware w n type a).
Proof.
  intros Ht. unfold executeMiddleware. regular_step; [regular_step|].
  rename a0 into ms. apply middleware_loop_regular.
  apply Forall_forall. intros m Hm. apply list_elem_of_filter in Hm as [-> _]. exact Ht.
Qed.

Lemma filters_loop_regular (a : list Value) (fs : list Fn) : sound settled no_error_call (filters_loop w a fs).
Proof.
  induction fs as [|f fs IH]; cbn [filters_loop].
  - regular_step.
  - repeat first [exact IH | regular_step].
Qed.

Lemma applyEventFilters_regular (n : string) (a : list Value) :
  sound settled no_error_call (applyEventFilters w n a).
Proof.
  unfold applyEventFilters. repeat first [apply filters_loop_regular | regular_step].
Qed.

Lemma updateEventMetrics_regular (n : string) (t : Z) : sound settled no_error_call (updateEventMetrics n t).
Proof.
  intros st. unfold updateEventMetrics, state_of, calls_of.
  destruct (negb (enableMetrics (config st))); cbn [fst snd];
    (split; [|constructor]); [reflexivity | apply settled_same; reflexivity].
Qed.

Lemma process_steps_regular (ev : EventData) (t0 : Z) : sound settled no_error_call (process_steps w ev t0).
Proof.
  unfold process_steps.
  repeat first [ apply applyEventFilters_regular
               | apply executeEventListeners_regular
               | apply executeMiddleware_regular; reflexivity
               | apply updateEventMetrics_regular
               | regular_step ].
Qed.

Lemma process_steps_calm (ev : EventData) (t0 : Z) : never_throws (process_steps w ev t0).
Proof.
  intros st. pose proof (process_steps_spec w ev t0 st) as H.
  unfold run_on in H. tauto.
Qed.

Lemma processEvent_regular (ev : EventData) : sound settled no_error_call (processEvent w ev).
Proof.
  unfold processEvent. regular_step; [regular_step|].
  regular_step; [|regular_step].
  apply (@sound_try_catch_unreached settled); [apply process_steps_calm | apply process_steps_regular].
Qed.

Lemma process_all_regular (events : list EventData) : sound settled no_error_call (process_all w events).
Proof.
  induction events as [|e events IH].
  - change (process_all w []) with (mret tt : M unit). regular_step.
  - change (process_all w (e :: events)) with (processEvent w e ;; process_all w events).
    regular_step; [apply processEvent_regular | exact IH].
Qed.

Lemma processEventQueue_regular : sound settled no_error_call (processEventQueue w).
Proof.
  unfold processEventQueue.
  repeat first [apply process_all_regular | regular_step].
Qed.

Lemma processEventQueue_calm : never_throws (processEventQueue w).
Proof.
  intros st. destruct (processEventQueue_spec w st) as (st1 & tr1 & -> & _). reflexivity.
Qed.

Lemma new_event_regular (n : string) (a : list Value) : sound settled no_error_call (new_event w n a).
Proof.
  intros st. unfold new_event, state_of, calls_of. cbn [fst snd].
  split; [apply settled_same; reflexivity | constructor].
Qed.

Lemma enqueue_regular (ev : EventData) : sound settled no_error_call (enqueue ev).
Proof.
  intros st. unfold enqueue, state_of, calls_of.
  destruct (maxQueueSize (config st) <=? Z.of_nat (length (eventQueue st))); cbn [fst snd];
    (split; [apply settled_same; reflexivity | constructor]).
Qed.

Lemma enqueue_calm (ev : EventData) : never_throws (enqueue ev).
Proof.
  intros st. unfold enqueue, result_of.
  destruct (maxQueueSize (config st) <=? Z.of_nat (length (eventQueue st))); reflexivity.
Qed.

Lemma emit_regular (n : string) (a : list Value) : sound settled no_error_call (emit w n a).
Proof.
  unfold emit. regular_step; [apply new_event_regular|].
  apply (@sound_try_catch_unreached settled).
  - repeat first [apply enqueue_calm | apply processEventQueue_calm | calm_step].
  - repeat first [apply enqueue_regular | apply processEventQueue_regular | regular_step].
Qed.

Lemma runImmediate_regular : sound settled no_error_call (runImmediate w).
Proof.
  intros st. unfold runImmediate.
  destruct (immediates st) as [|k]; [split; [reflexivity | constructor]|].
  destruct (processEventQueue_regular (set_immediates k st)) as [Hs Hc].
  split; [|exact Hc].
  etransitivity; [|exact Hs]. apply settled_same; reflexivity.
Qed.

(** *** The loop over the listeners and the counters *)

#[local] Instance untouched_preorder : PreOrder untouched.
Proof.
  split.
  - intros st. unfold untouched. repeat split; reflexivity.
  - intros st1 st2 st3 (H1 & H2 & H3 & H4) (K1 & K2 & K3 & K4).
    unfold untouched. repeat split; congruence.
Qed.

Ltac listening_step :=
  sound_step untouched_preorder ltac:(unfold untouched; repeat split; reflexivity).

Lemma off_listening (n k : string) :
  sound untouched (fun c => is_listener_call c = true) (off n k).
Proof.
  intros st. unfold off, state_of, calls_of.
  destruct (eventListeners st !! n) as [ls|]; [|split; [reflexivity | constructor]].
  destruct (list_find (fun l => listener_id l = k) ls) as [[i l]|];
    cbn [fst snd]; (split; [|constructor]); [|reflexivity].
  unfold untouched. repeat split; reflexivity.
Qed.

Lemma listeners_from_listening (n : string) (a : list Value) (k : nat) :
  forall i, sound untouched (fun c => is_listener_call c = true) (listeners_from w n a k i).
Proof.
  induction k as [|k IH]; intros i; cbn [listeners_from].
  - listening_step.
  - unfold run_listener, listener_body.
    repeat first [apply off_listening | apply IH | listening_step].
Qed.

Lemma executeEventListeners_listening (n : string) (a : list Value) :
  sound untouched (fun c => is_listener_call c = true) (executeEventListeners w n a).
Proof.
  unfold executeEventListeners.
  repeat first [apply listeners_from_listening | listening_step].
Qed.

(** *** The stages of [processEvent], exactly *)

Lemma set_now_same (st : State) : set_now (now st) st = st.
Proof. destruct st. reflexivity. Qed.

Lemma count_middlewares_zero (st : State) : count_middlewares 0 st = st.
Proof.
  destruct st as [? ? ? ? ? ? m ? ? ? ? ? ?]. destruct m.
  unfold count_middlewares, set_metrics. cbn. rewrite Z.add_0_r. reflexivity.
Qed.

Lemma count_middlewares_add (j k : Z) (st : State) :
  count_middlewares k (count_middlewares j st) = count_middlewares (j + k) st.
Proof.
  unfold count_middlewares, set_metrics. cbn. rewrite Z.add_assoc. reflexivity.
Qed.

Lemma filters_loop_exact (a : list Value) (fs : list Fn) (st : State) :
  exists t,
    filters_loop w a fs st =
    (Normal (forallb (verdict w a) fs), set_now t st,
     map (fun f => CallEventFilter f a) (consulted w a fs)).
Proof.
  revert st. induction fs as [|f fs IH]; intros st.
  - exists (now st). rewrite set_now_same. reflexivity.
  - cbn [filters_loop forallb consulted map]. unfold verdict at 1 3.
    cbv [mbind M_bind try_catch await mret M_ret].
    destruct (run w f a) as [v d|e d]; cbn [fst snd app].
    + destruct (truthy v).
      * destruct (IH (set_now (now st + d) st)) as [t ->]. exists t. reflexivity.
      * exists (now st + d). reflexivity.
    + destruct (IH (set_now (now st + d) st)) as [t ->]. exists t. reflexivity.
Qed.

Lemma middleware_loop_exact (a : list Value) (ms : list Middleware) (st : State) :
  exists t,
    middleware_loop w a ms st =
    (Normal tt, set_now t (count_middlewares (executions w a ms) st),
     map (fun m => CallMiddleware m a) ms).
Proof.
  revert st. induction ms as [|m ms IH]; intros st.
  - exists (now st). unfold executions. cbn.
    rewrite count_middlewares_zero, set_now_same. reflexivity.
  - cbn [middleware_loop map]. unfold executions. cbn [List.filter]. unfold returns at 1.
    cbv [mbind M_bind try_catch await mret M_ret modify].
    destruct (run w (middleware m) a) as [v d|e d]; cbn [fst snd app].
    + destruct (IH (count_middleware (set_now (now st + d) st))) as [t ->]. exists t.
      cbn [app length]. f_equal. f_equal.
      change (count_middleware (set_now (now st + d) st))
        with (set_now (now st + d) (count_middlewares 1 st)).
      change (count_middlewares (executions w a ms) (set_now (now st + d) (count_middlewares 1 st)))
        with (set_now (now st + d)
                (count_middlewares (executions w a ms) (count_middlewares 1 st))).
      rewrite count_middlewares_add. unfold executions.
      replace (Z.of_nat (S (length (List.filter (returns w a) ms))))
        with (1 + Z.of_nat (length (List.filter (returns w a) ms))) by lia.
      reflexivity.
    + destruct (IH (set_now (now st + d) st)) as [t ->]. exists t. reflexivity.
Qed.

Lemma state_frame (st st1 : State) :
  control st1 = control st -> untouched st st1 ->
  st1 = set_now (now st1) (set_eventListeners (eventListeners st1) st).
Proof.
  unfold control, untouched. destruct st, st1. cbn.
  intros Hc (H1 & H2 & H3 & H4). injection Hc as -> -> -> -> -> -> ->. subst.
  reflexivity.
Qed.

Lemma executeEventListeners_exact (n : string) (a : list Value) (st : State) :
  exists t els tl,
    executeEventListeners w n a st = (Normal tt, set_now t (set_eventListeners els st), tl) /\
    Forall (fun c => is_listener_call c = true) tl /\
    handler_calls tl = listeners_called w a (listeners_of n st).
Proof.
  pose proof (executeEventListeners_spec w n a st) as Hs.
  destruct (executeEventListeners_listening n a st) as [Hu Hp].
  destruct (executeEventListeners w n a st) as [[r st1] tl].
  unfold run_on, result_of, state_of, calls_of in *. cbn [fst snd] in *.
  destruct Hs as (Hn & Hc & _ & _ & Hh & _).
  destruct r as [[]|e]; [|discriminate].
  exists (now st1), (eventListeners st1), tl.
  rewrite <- (state_frame st st1 Hc Hu). repeat split; assumption.
Qed.

Lemma updateEventMetrics_run (n : string) (t : Z) (st : State) :
  updateEventMetrics n t st = (Normal tt, state_of (updateEventMetrics n t st), []).
Proof.
  unfold updateEventMetrics, state_of. destruct (negb (enableMetrics (config st))); reflexivity.
Qed.

Lemma run_bind_eq {A B} (m : M A) (f : A -> M B) (st st1 : State) (x : A) (tr1 : list Call) :
  m st = (Normal x, st1, tr1) ->
  (m ≫= f) st = (let '(r, st2, tr2) := f x st1 in (r, st2, tr1 ++ tr2)).
Proof. intros H. rewrite run_bind, H. reflexivity. Qed.

Lemma executeMiddleware_exact (n type : string) (a : list Value) (st : State) :
  exists t,
    executeMiddleware w n type a st =
    (Normal tt, set_now t (count_middlewares (executions w a (stack_of n type st)) st),
     map (fun m => CallMiddleware m a) (stack_of n type st)).
Proof.
  unfold executeMiddleware, stack_of.
  rewrite (run_bind_eq _ _ st st _ [] eq_refl).
  match goal with
  | |- context [middleware_loop w ?a ?ms ?s] =>
      destruct (middleware_loop_exact a ms s) as [t ->]
  end.
  exists t. reflexivity.
Qed.

Lemma stack_of_frame (n type : string) (st1 st : State) :
  middlewareStack st1 = middlewareStack st -> stack_of n type st1 = stack_of n type st.
Proof. intros H. unfold stack_of. rewrite H. reflexivity. Qed.

Lemma set_now_set_now (t t' : Z) (st : State) : set_now t (set_now t' st) = set_now t st.
Proof. reflexivity. Qed.

Lemma count_middlewares_set_now (k t : Z) (st : State) :
  count_middlewares k (set_now t st) = set_now t (count_middlewares k st).
Proof. reflexivity. Qed.

Lemma set_eventListeners_set_now (els : gmap string (list Listener)) (t : Z) (st : State) :
  set_eventListeners els (set_now t st) = set_now t (set_eventListeners els st).
Proof. reflexivity. Qed.

Lemma count_middlewares_set_eventListeners
      (k : Z) (els : gmap string (list Listener)) (st : State) :
  count_middlewares k (set_eventListeners els st) =
  set_eventListeners els (count_middlewares k st).
Proof. reflexivity. Qed.

Lemma stage_states (t3 t4 t5 k1 k2 : Z) (els : gmap string (list Listener)) (st : State) :
  set_now t5 (count_middlewares k2
                (set_now t4 (set_eventListeners els (set_now t3 (count_middlewares k1 st))))) =
  set_now t5 (count_middlewares (k1 + k2) (set_eventListeners els st)).
Proof.
  rewrite !count_middlewares_set_now, !set_eventListeners_set_now, !set_now_set_now.
  rewrite !count_middlewares_set_now, !set_now_set_now.
  rewrite <- count_middlewares_set_eventListeners, count_middlewares_add.
  reflexivity.
Qed.

Lemma process_tail_exact (n : string) (a : list Value) (t0 : Z) (st : State) :
  exists t els tl,
    (executeMiddleware w n "pre" a;;
     executeEventListeners w n a;;
     executeMiddleware w n "post" a;;
     finish ← gets now;
     updateEventMetrics n (finish - t0)) st =
    (Normal tt,
     state_of (updateEventMetrics n (t - t0)
                 (set_now t (count_middlewares
                               (executions w a (stack_of n "pre" st) +
                                executions w a (stack_of n "post" st))
                               (set_eventListeners els st)))),
     map (fun m => CallMiddleware m a) (stack_of n "pre" st) ++ tl ++
     map (fun m => CallMiddleware m a) (stack_of n "post" st)) /\
    Forall (fun c => is_listener_call c = true) tl /\
    handler_calls tl = listeners_called w a (listeners_of n st).
Proof.
  destruct (executeMiddleware_exact n "pre" a st) as [t3 H3].
  rewrite (run_bind_eq _ _ _ _ _ _ H3).
  match goal with
  | |- context [mbind _ (executeEventListeners w n a) ?s] =>
      destruct (executeEventListeners_exact n a s) as (t4 & els & tl & H4 & Hl & Hh)
  end.
  rewrite (run_bind_eq _ _ _ _ _ _ H4).
  match goal with
  | |- context [mbind _ (executeMiddleware w n "post" a) ?s] =>
      destruct (executeMiddleware_exact n "post" a s) as [t5 H5]
  end.
  rewrite (run_bind_eq _ _ _ _ _ _ H5).
  match goal with
  | |- context [mbind _ (gets now) ?s] =>
      rewrite (run_bind_eq (gets now) _ s s _ [] eq_refl)
  end.
  rewrite updateEventMetrics_run. cbv beta iota zeta.
  exists t5, els, tl. split; [|split; [exact Hl | exact Hh]].
  rewrite !app_nil_r.
  rewrite (stack_of_frame n "post"
             (set_now t4 (set_eventListeners els
                (set_now t3 (count_middlewares (executions w a (stack_of n "pre" st)) st))))
             st eq_refl).
  rewrite stage_states. reflexivity.
Qed.

Lemma applyEventFilters_exact (n : string) (a : list Value) (st : State) :
  exists t,
    applyEventFilters w n a st =
    (Normal (forallb (verdict w a) (default [] (eventFilters st !! n))), set_now t st,
     map (fun f => CallEventFilter f a)
         (consulted w a (default [] (eventFilters st !! n)))).
Proof.
  unfold applyEventFilters.
  rewrite (run_bind_eq _ _ st st _ [] eq_refl).
  match goal with
  | |- context [filters_loop w ?a ?fs ?s] => destruct (filters_loop_exact a fs s) as [t ->]
  end.
  exists t. reflexivity.
Qed.

Lemma admitted_verdict (n : string) (a : list Value) (st : State) :
  admitted w st n a = forallb (verdict w a) (filters_of n st).
Proof.
  unfold admitted, filters_of. destruct (enableFiltering (config st)); reflexivity.
Qed.

Lemma process_steps_exact (ev : EventData) (t0 : Z) (st : State) :
  let n := name ev in
  let a := args ev in
  let st1 := set_activeEvents ({[ id ev ]} ∪ activeEvents st) st in
  let asked := map (fun f => CallEventFilter f a) (consulted w a (filters_of n st)) in
  if admitted w st n a then
    exists t els tl,
      process_steps w ev t0 st =
      (Normal tt,
       state_of (updateEventMetrics n (t - t0)
                   (set_now t (count_middlewares
                                 (executions w a (stack_of n "pre" st) +
                                  executions w a (stack_of n "post" st))
                                 (set_eventListeners els st1)))),
       asked ++ map (fun m => CallMiddleware m a) (stack_of n "pre" st) ++ tl ++
       map (fun m => CallMiddleware m a) (stack_of n "post" st)) /\
      Forall (fun c => is_listener_call c = true) tl /\
      handler_calls tl = listeners_called w a (listeners_of n st)
  else
    exists t, process_steps w ev t0 st = (Normal tt, set_now t st1, asked).
Proof.
  cbv zeta. rewrite admitted_verdict. unfold process_steps, filters_of.
  rewrite (run_bind_eq _ _ st _ tt [] eq_refl).
  rewrite (run_bind_eq (gets _) _ _ _ _ [] eq_refl).
  cbn [config set_activeEvents].
  set (st1 := set_activeEvents ({[ id ev ]} ∪ activeEvents st) st).
  assert (exists t2,
             (if enableFiltering (config st)
              then applyEventFilters w (name ev) (args ev)
              else mret true) st1 =
             (Normal (forallb (verdict w (args ev))
                        (if enableFiltering (config st)
                         then default [] (eventFilters st !! name ev) else [])),
              set_now t2 st1,
              map (fun f => CallEventFilter f (args ev))
                  (consulted w (args ev)
                     (if enableFiltering (config st)
                      then default [] (eventFilters st !! name ev) else []))))
    as [t2 H2].
  { destruct (enableFiltering (config st)).
    - apply (applyEventFilters_exact (name ev) (args ev) st1).
    - exists (now st1). rewrite set_now_same. reflexivity. }
  rewrite (run_bind_eq _ _ _ _ _ _ H2). cbn [app].
  destruct (forallb _ _).
  - destruct (process_tail_exact (name ev) (args ev) t0 (set_now t2 st1))
      as (t & els & tl & Heq & Hl & Hh).
    rewrite Heq. exists t, els, tl.
    split; [|split; [exact Hl | exact Hh]].
    rewrite !(stack_of_frame (name ev) _ (set_now t2 st1) st eq_refl).
    rewrite set_eventListeners_set_now, count_middlewares_set_now, set_now_set_now.
    reflexivity.
  - exists t2. rewrite run_ret, app_nil_r. reflexivity.
Qed.

Lemma processEvent_run (ev : EventData) (st S : State) (tr : list Call) :
  process_steps w ev (now st) st = (Normal tt, S, tr) ->
  processEvent w ev st =
  (Normal tt, set_activeEvents (activeEvents S ∖ {[ id ev ]}) S, tr).
Proof.
  intros H. unfold processEvent.
  rewrite (run_bind_eq (gets now) _ st st _ [] eq_refl).
  unfold try_finally, try_catch, modify. rewrite H. cbn. rewrite app_nil_r. reflexivity.
Qed.

Lemma processEventQueue_single_run (ev : EventData) (st S : State) (tr : list Call) :
  isProcessing st = false ->
  eventQueue st = [ev] ->
  0 < concurrentEvents (config st) ->
  processEvent w ev (set_eventQueue [] (set_isProcessing true st)) = (Normal tt, S, tr) ->
  eventQueue S = [] ->
  processEventQueue w st = (Normal tt, set_isProcessing false S, tr).
Proof.
  intros Hbusy Hq Hwidth Hrun HqS.
  unfold processEventQueue.
  cbv [mbind M_bind gets modify mret M_ret try_finally try_catch].
  rewrite Hbusy, Hq. rewrite bool_decide_eq_false_2 by discriminate.
  cbn [orb config set_isProcessing].
  destruct (Z.to_nat (concurrentEvents (config st))) as [|width] eqn:Hw; [lia|].
  cbn [take drop]. rewrite ?take_nil, ?drop_nil. rewrite process_all_one.
  rewrite Hrun. cbn [eventQueue set_isProcessing]. rewrite HqS.
  rewrite bool_decide_eq_true_2 by reflexivity. cbn. rewrite !app_nil_r. reflexivity.
Qed.

Lemma emit_idle_run (n : string) (a : list Value) (st S : State) (tr : list Call) :
  idle st ->
  processEvent w (event_of w n a st) (taken w n a st) = (Normal tt, S, tr) ->
  eventQueue S = [] ->
  emit w n a st = (Normal true, set_isProcessing false S, tr).
Proof.
  intros (Hbusy & Hq & Hmax & Hwidth) Hrun HqS.
  unfold emit.
  cbv [mbind M_bind gets mret M_ret try_catch new_event enqueue].
  simpl. rewrite Hq. simpl. change (Z.of_nat 0) with 0.
  destruct (Z.leb_spec (maxQueueSize (config st)) 0) as [Hle|_]; [lia|].
  simpl. rewrite Hbusy. simpl.
  match goal with
  | |- context [processEventQueue w ?s] =>
      rewrite (processEventQueue_single_run (event_of w n a st) s S tr)
  end.
  - cbn. rewrite !app_nil_r. reflexivity.
  - exact Hbusy.
  - reflexivity.
  - exact Hwidth.
  - unfold taken in Hrun. rewrite Hq in Hrun. exact Hrun.
  - exact HqS.
Qed.

Lemma filters_of_frame (n : string) (st1 st : State) :
  config st1 = config st -> eventFilters st1 = eventFilters st ->
  filters_of n st1 = filters_of n st.
Proof. intros H1 H2. unfold filters_of. rewrite H1, H2. reflexivity. Qed.

Lemma admitted_frame (n : string) (a : list Value) (st1 st : State) :
  config st1 = config st -> eventFilters st1 = eventFilters st ->
  admitted w st1 n a = admitted w st n a.
Proof. intros H1 H2. unfold admitted. rewrite H1, H2. reflexivity. Qed.

Lemma emit_idle_steps (n : string) (a : list Value) (st : State) :
  idle st ->
  exists S tr,
    process_steps w (event_of w n a st) (now st) (taken w n a st) = (Normal tt, S, tr) /\
    emit w n a st =
    (Normal true,
     set_isProcessing false
       (set_activeEvents (activeEvents S ∖ {[ id (event_of w n a st) ]}) S), tr).
Proof.
  intros Hidle.
  pose proof (process_steps_spec w (event_of w n a st) (now st) (taken w n a st)) as Hs.
  destruct (process_steps w (event_of w n a st) (now st) (taken w n a st))
    as [[r S] tr] eqn:Hrun.
  unfold run_on, result_of, state_of, calls_of in Hs. cbn [fst snd] in Hs.
  destruct Hs as (Hn & Hc & _). destruct r as [[]|e]; [|discriminate].
  exists S, tr. split; [reflexivity|].
  apply emit_idle_run; [exact Hidle | |].
  - apply processEvent_run. exact Hrun.
  - unfold control in Hc. injection Hc as _ _ _ _ Hq _ _. exact Hq.
Qed.

End Frames.

(** X15.  Whatever the state and whatever the handlers do, a run of
    [emit] leaves the middleware stacks, the event filters, the error
    handlers and the configuration as they were, and it adds no
    listener: the list registered under any name afterwards is a
    sublist of the list before (one-shot listeners may have gone). *)
Theorem emit_leaves_registrations (w : World) (n : string) (a : list Value) (st : State) :
  let st' := state_of (emit w n a st) in
  middlewareStack st' = middlewareStack st /\
  errorHandlers st' = errorHandlers st /\
  eventFilters st' = eventFilters st /\
  config st' = config st /\
  forall k, sublist (listeners_of k st') (listeners_of k st).
Proof.
  cbv zeta. destruct (emit_regular w n a st) as [(H1 & H2 & H3 & H4 & _ & H6) _].
  repeat split; assumption.
Qed.

(** X16.  No run of [emit] takes the error path: it does not throw,
    it calls no handler registered with [onError] and no middleware of
    type [error], and the counter [errorEvents] stays where it was.
    Exceptions of listeners, filters and middleware are caught where
    they arise and go no further. *)
Theorem emit_never_takes_the_error_path
        (w : World) (n : string) (a : list Value) (st : State) :
  is_normal (result_of (emit w n a st)) = true /\
  Forall (fun c => is_error_call c = false) (calls_of (emit w n a st)) /\
  errorEvents (metrics (state_of (emit w n a st))) = errorEvents (metrics st).
Proof.
  destruct (emit_regular w n a st) as [(_ & _ & _ & _ & H5 & _) Hc].
  destruct (emit_spec w n a st) as (st1 & tr1 & Heq & _).
  split; [rewrite Heq; reflexivity|]. split; [exact Hc | exact H5].
Qed.

(** *** Invariants of the reachable states *)

Lemma registerBuiltInEvent_priority (n : string) (h : Fn) (st : State) :
  (forall k, Forall (fun l => priority l = 1) (listeners_of k st)) ->
  forall k, Forall (fun l => priority l = 1) (listeners_of k (registerBuiltInEvent n h st)).
Proof.
  intros H k. unfold registerBuiltInEvent, listeners_of at 1.
  cbn [eventListeners set_eventListeners].
  destruct (decide (k = n)) as [->|Hne].
  - rewrite lookup_insert_eq. cbn. apply Forall_app. split; [apply H|].
    repeat constructor.
  - rewrite lookup_insert_ne by congruence. apply H.
Qed.

Lemma initializeBuiltInEvents_priority (st : State) :
  (forall k, Forall (fun l => priority l = 1) (listeners_of k st)) ->
  forall k, Forall (fun l => priority l = 1) (listeners_of k (initializeBuiltInEvents st)).
Proof.
  unfold initializeBuiltInEvents. generalize builtInEvents. intros l. revert st.
  induction l as [|e l IH]; intros st H; [exact H|].
  cbn [foldl]. apply IH. apply registerBuiltInEvent_priority. exact H.
Qed.

Lemma equal_priority_sorted (ls : list Listener) :
  Forall (fun l => priority l = 1) ls -> StronglySorted priority_le ls.
Proof.
  induction 1 as [|l ls Hl Hls IH]; constructor; [exact IH|].
  eapply Forall_impl; [exact Hls|]. intros x Hx. unfold priority_le.
  cbv beta in Hx, Hl. rewrite Hx, Hl. reflexivity.
Qed.

Lemma sorted_from_empty (st : State) :
  eventListeners st = ∅ ->
  forall k, StronglySorted priority_le (listeners_of k (initializeBuiltInEvents st)).
Proof.
  intros He k. apply equal_priority_sorted. apply initializeBuiltInEvents_priority.
  intros k'. unfold listeners_of. rewrite He, lookup_empty. constructor.
Qed.

Lemma sorted_same (st st' : State) :
  eventListeners st' = eventListeners st ->
  (forall k, StronglySorted priority_le (listeners_of k st)) ->
  forall k, StronglySorted priority_le (listeners_of k st').
Proof. intros He H k. unfold listeners_of in *. rewrite He. apply H. Qed.

Lemma sorted_settled (st st' : State) :
  settled st st' ->
  (forall k, StronglySorted priority_le (listeners_of k st)) ->
  forall k, StronglySorted priority_le (listeners_of k st').
Proof.
  intros (_ & _ & _ & _ & _ & Hs) H k.
  eapply StronglySorted_sublist; [apply Hs | apply H].
Qed.

Lemma on_sorted (n : string) (h : Fn) (o : Options) (st : State) :
  (forall k, StronglySorted priority_le (listeners_of k st)) ->
  forall k, StronglySorted priority_le (listeners_of k (state_of (on n h o st))).
Proof.
  intros H k. destruct (decide (k = n)) as [->|Hne].
  - rewrite on_listeners. apply (stable_sort_sorted priority).
  - unfold listeners_of. rewrite on_other by exact Hne. apply H.
Qed.

Lemma constructor_sorted (k : string) :
  StronglySorted priority_le (listeners_of k (constructor 0)).
Proof. apply sorted_from_empty. reflexivity. Qed.

(** X17.  In every state that the system reaches, each listener list
    is in priority order (lower number first): [on] and [once] re-sort
    the list they extend, and [off], the removal of one-shot listeners
    and [reset] keep the order. *)
Theorem reachable_lists_are_sorted (w : World) (st : State) :
  reachable w st -> forall k, StronglySorted priority_le (listeners_of k st).
Proof.
  induction 1 as [t0|st t _ IH|st n h o _ IH|st n h o _ IH|st n k _ IH|st n mw o _ IH
                  |st n f _ IH|st n h _ IH|st n a _ IH|st _ IH|st _ IH|st _ IH].
  - apply sorted_from_empty. reflexivity.
  - apply (sorted_same st); [reflexivity | exact IH].
  - apply on_sorted. exact IH.
  - apply on_sorted. exact IH.
  - apply (sorted_settled st); [|exact IH]. apply off_regular.
  - apply (sorted_same st); [reflexivity | exact IH].
  - apply (sorted_same st); [reflexivity | exact IH].
  - apply (sorted_same st); [reflexivity | exact IH].
  - apply (sorted_settled st); [|exact IH]. apply emit_regular.
  - apply (sorted_settled st); [|exact IH]. apply runImmediate_regular.
  - apply sorted_from_empty. reflexivity.
  - apply (sorted_same st); [reflexivity | exact IH].
Qed.

Lemma reachable_lists_are_sorted_witness :
  let w := {| run := fun _ _ => Returns (VBool true) 1;
              run_handler := fun _ _ => Settles (Returns VUndefined 2);
              random := fun _ => "k3x9" |} in
  let late := {| opt_priority := Some 9; opt_id := Some "late"; opt_once := None;
                 opt_filter := None; opt_timeout := None |} in
  let early := {| opt_priority := Some 2; opt_id := Some "early"; opt_once := Some true;
                  opt_filter := None; opt_timeout := None |} in
  let st := state_of (emit w "ready" []
              (state_of (on "ready" (UserFn 2) early
                 (state_of (on "ready" (UserFn 1) late (constructor 0)))))) in
  StronglySorted priority_le (listeners_of "ready" st).
Proof.
  cbv zeta.
  match goal with
  | |- StronglySorted _ (listeners_of _ (state_of (emit ?w _ _ _))) =>
      apply (reachable_lists_are_sorted w)
  end.
  apply reach_emit, reach_on, reach_on, reach_constructor.
Defined.

Lemma initializeBuiltInEvents_control (st : State) :
  control (initializeBuiltInEvents st) = control st.
Proof.
  unfold initializeBuiltInEvents. generalize builtInEvents. intros l. revert st.
  induction l as [|e l IH]; intros st; [reflexivity|].
  cbn [foldl]. rewrite IH. reflexivity.
Qed.


Lemma initializeBuiltInEvents_rest (st : State) :
  config (initializeBuiltInEvents st) = config st /\
  eventQueue (initializeBuiltInEvents st) = eventQueue st /\
  isProcessing (initializeBuiltInEvents st) = isProcessing st /\
  immediates (initializeBuiltInEvents st) = immediates st.
Proof.
  pose proof (initializeBuiltInEvents_control st) as H. unfold control in H.
  repeat split; congruence.
Qed.






(** *** Filters and middleware *)

(** X19.  [applyEventFilters] asks the filters of an event in the
    order in which [addFilter] received them and stops at the first
    that answers with a falsy value; a filter that throws counts as a
    yes.  It never throws itself, and apart from the time that passes
    it leaves the state alone. *)
Theorem event_filters_short_circuit (w : World) (n : string) (a : list Value) (st : State) :
  let fs := default [] (eventFilters st !! n) in
  result_of (applyEventFilters w n a st) = Normal (forallb (verdict w a) fs) /\
  calls_of (applyEventFilters w n a st) =
    map (fun f => CallEventFilter f a) (consulted w a fs) /\
  set_now (now st) (state_of (applyEventFilters w n a st)) = st.
Proof.
  cbv zeta. destruct (applyEventFilters_exact w n a st) as [t ->].
  unfold result_of, calls_of, state_of. cbn [fst snd].
  rewrite set_now_set_now, set_now_same. repeat split.
Qed.

(** X20.  [executeMiddleware] calls every middleware of the requested
    type exactly once, in the order of the stack (ascending priority),
    also behind one that throws; it never throws itself.  Apart from
    the time that passes, all it changes is [middlewareExecutions],
    which goes up by the number of middleware that returned. *)
Theorem middleware_runs_each_once
        (w : World) (n type : string) (a : list Value) (st : State) :
  result_of (executeMiddleware w n type a st) = Normal tt /\
  calls_of (executeMiddleware w n type a st) = middleware_run n type a st /\
  set_now (now st) (state_of (executeMiddleware w n type a st)) =
    count_middlewares (executions w a (stack_of n type st)) st.
Proof.
  destruct (executeMiddleware_exact w n type a st) as [t ->].
  unfold result_of, calls_of, state_of. cbn [fst snd].
  rewrite set_now_set_now. rewrite <- count_middlewares_set_now, set_now_same.
  repeat split.
Qed.

(** *** One event from end to end *)

(** X21.  An [emit] on a system at rest makes its calls in the order
    of the stages: first the event filters that are asked; then, if
    the event is admitted, every [pre] middleware, then the filters
    and handlers of the listeners, then every [post] middleware.  An
    event that a filter rejects ends with the filters. *)
Theorem emit_runs_stages_in_order (w : World) (n : string) (a : list Value) (st : State) :
  idle st ->
  (admitted w st n a = false -> calls_of (emit w n a st) = asked w n a st) /\
  (admitted w st n a = true ->
   exists tl,
     calls_of (emit w n a st) =
       asked w n a st ++ middleware_run n "pre" a st ++ tl ++ middleware_run n "post" a st /\
     Forall (fun c => is_listener_call c = true) tl /\
     handler_calls tl = listeners_called w a (listeners_of n st)).
Proof.
  intros Hidle.
  destruct (emit_idle_steps w n a st Hidle) as (S & tr & Hsteps & ->).
  pose proof (process_steps_exact w (event_of w n a st) (now st) (taken w n a st)) as Hx.
  cbv zeta in Hx. cbn [name args event_of] in Hx.
  rewrite (admitted_frame w n a (taken w n a st) st eq_refl eq_refl) in Hx.
  rewrite (filters_of_frame n (taken w n a st) st eq_refl eq_refl) in Hx.
  rewrite !(stack_of_frame n _ (taken w n a st) st eq_refl) in Hx.
  change (listeners_of n (taken w n a st)) with (listeners_of n st) in Hx.
  unfold calls_of. cbn [snd].
  destruct (admitted w st n a).
  - split; [discriminate|]. intros _.
    destruct Hx as (t & els & tl & Heq & Hl & Hh).
    rewrite Hsteps in Heq. injection Heq as _ ->.
    exists tl. repeat split; assumption.
  - split; [|discriminate]. intros _.
    destruct Hx as (t & Heq). rewrite Hsteps in Heq. injection Heq as _ ->. reflexivity.
Qed.

Lemma updateEventMetrics_on (n : string) (d : Z) (st : State) :
  enableMetrics (config st) = true ->
  state_of (updateEventMetrics n d st) =
  set_eventMetrics
    (<[n := {| count := count (default new_metric (eventMetrics st !! n)) + 1;
               totalTime := totalTime (default new_metric (eventMetrics st !! n)) + d;
               errors := errors (default new_metric (eventMetrics st !! n));
               lastProcessed := now st |}]> (eventMetrics st))
    (set_metrics {| eventsProcessed := eventsProcessed (metrics st) + 1;
                    eventsQueued := eventsQueued (metrics st);
                    middlewareExecutions := middlewareExecutions (metrics st);
                    errorEvents := errorEvents (metrics st);
                    lastProcessedEvent := Some n |} st).
Proof. intros H. unfold updateEventMetrics, state_of. rewrite H. reflexivity. Qed.

(** X22.  The counters after an admitted event under a name whose
    listeners all run functions of the caller, with metrics switched
    on: one more event queued and one more processed, the name stored
    as [lastProcessedEvent], [middlewareExecutions] moved on by the
    [pre] and [post] middleware that returned, [errorEvents] as it
    was; the record of the event counts one more, its [totalTime]
    grows by the time that passed during the [emit], [lastProcessed]
    is the time at the end, and [errors] is as before. *)
Theorem emit_counts (w : World) (n : string) (a : list Value) (st : State) :
  idle st ->
  callers_own n st ->
  enableMetrics (config st) = true ->
  admitted w st n a = true ->
  let st' := state_of (emit w n a st) in
  let m := default new_metric (eventMetrics st !! n) in
  metrics st' =
    {| eventsProcessed := eventsProcessed (metrics st) + 1;
       eventsQueued := eventsQueued (metrics st) + 1;
       middlewareExecutions :=
         middlewareExecutions (metrics st) +
         (executions w a (stack_of n "pre" st) + executions w a (stack_of n "post" st));
       errorEvents := errorEvents (metrics st);
       lastProcessedEvent := Some n |} /\
  eventMetrics st' =
    <[n := {| count := count m + 1;
              totalTime := totalTime m + (now st' - now st);
              errors := errors m;
              lastProcessed := now st' |}]> (eventMetrics st).
Proof.
  intros Hidle _ Hon Hadm. cbv zeta.
  destruct (emit_idle_steps w n a st Hidle) as (S & tr & Hsteps & ->).
  pose proof (process_steps_exact w (event_of w n a st) (now st) (taken w n a st)) as Hx.
  cbv zeta in Hx. cbn [name args event_of] in Hx.
  rewrite (admitted_frame w n a (taken w n a st) st eq_refl eq_refl), Hadm in Hx.
  rewrite !(stack_of_frame n _ (taken w n a st) st eq_refl) in Hx.
  destruct Hx as (t & els & tl & Heq & _).
  rewrite Hsteps in Heq. injection Heq as -> _.
  rewrite updateEventMetrics_on by exact Hon.
  unfold state_of. cbn [fst snd].
  split; reflexivity.
Qed.

(** X23.  An event that an event filter rejects is dropped without a
    sign: [emit] still answers [true], only the filters have been
    called, the listeners (one-shot ones included) stay registered,
    and the event is counted as queued but not as processed. *)
Theorem rejected_event_is_dropped_quietly
        (w : World) (n : string) (a : list Value) (st : State) :
  idle st ->
  admitted w st n a = false ->
  let run := emit w n a st in
  result_of run = Normal true /\
  calls_of run = asked w n a st /\
  eventListeners (state_of run) = eventListeners st /\
  eventMetrics (state_of run) = eventMetrics st /\
  eventsProcessed (metrics (state_of run)) = eventsProcessed (metrics st) /\
  eventsQueued (metrics (state_of run)) = eventsQueued (metrics st) + 1.
Proof.
  intros Hidle Hadm. cbv zeta.
  destruct (emit_idle_steps w n a st Hidle) as (S & tr & Hsteps & ->).
  pose proof (process_steps_exact w (event_of w n a st) (now st) (taken w n a st)) as Hx.
  cbv zeta in Hx. cbn [name args event_of] in Hx.
  rewrite (admitted_frame w n a (taken w n a st) st eq_refl eq_refl), Hadm in Hx.
  rewrite (filters_of_frame n (taken w n a st) st eq_refl eq_refl) in Hx.
  destruct Hx as (t & Heq).
  rewrite Hsteps in Heq. injection Heq as -> ->.
  unfold result_of, calls_of, state_of. cbn [fst snd].
  repeat split.
Qed.

(** *** Registration and removal *)

Lemma insert_sorted_split {A} (key : A -> Z) (x : A) (l : list A) :
  exists pre post, insert_sorted key x l = pre ++ x :: post /\ l = pre ++ post.
Proof.
  induction l as [|y l (pre & post & Hi & Hl)]; cbn [insert_sorted].
  - exists [], []. split; reflexivity.
  - destruct (key x <? key y).
    + exists [], (y :: l). split; reflexivity.
    + exists (y :: pre), post. rewrite Hi, Hl at 1. split; reflexivity.
Qed.

(** X24.  [off] with the id that [on] returned undoes the [on]: if
    the list of the name was in priority order and no listener in it
    carried that id, the list is afterwards exactly what it was, and
    the lists of the other names have not been touched. *)
Theorem on_then_off_restores (n : string) (h : Fn) (o : Options) (st : State) :
  let k := listener_id (make_listener n h o st) in
  StronglySorted priority_le (listeners_of n st) ->
  Forall (fun l => listener_id l <> k) (listeners_of n st) ->
  let r1 := on n h o st in
  let r2 := off n k (state_of r1) in
  result_of r1 = Normal k /\
  result_of r2 = Normal true /\
  listeners_of n (state_of r2) = listeners_of n st /\
  forall n', n' <> n -> eventListeners (state_of r2) !! n' = eventListeners st !! n'.
Proof.
  cbv zeta. intros Hsorted Hfresh.
  set (L := make_listener n h o st).
  assert (eventListeners (state_of (on n h o st)) !! n =
          Some (insert_sorted priority L (listeners_of n st))) as Hon.
  { unfold on, state_of. cbn [fst snd eventListeners set_eventListeners].
    rewrite lookup_insert_eq. fold L. rewrite stable_sort_snoc.
    rewrite (stable_sort_id priority) by exact Hsorted. reflexivity. }
  destruct (insert_sorted_split priority L (listeners_of n st)) as (pre & post & Hi & Hl).
  rewrite Hi in Hon.
  assert (Forall (fun l => listener_id l <> listener_id L) pre) as Hpre.
  { rewrite Hl in Hfresh. apply Forall_app in Hfresh. tauto. }
  rewrite (off_present n (listener_id L) (state_of (on n h o st)) pre post L Hon eq_refl Hpre).
  unfold result_of, state_of. cbn [fst snd].
  split; [reflexivity|]. split; [reflexivity|]. split.
  - unfold listeners_of at 1. cbn [eventListeners set_eventListeners].
    rewrite lookup_insert_eq. cbn. symmetry. exact Hl.
  - intros n' Hne. cbn [eventListeners set_eventListeners].
    rewrite lookup_insert_ne by congruence.
    unfold on. cbn [fst snd eventListeners set_eventListeners].
    rewrite lookup_insert_ne by congruence. reflexivity.
Qed.

Lemma on_then_off_restores_witness :
  let st := state_of (on "msg" (UserFn 1)
                         {| opt_priority := Some 3; opt_id := Some "a"; opt_once := None;
                            opt_filter := None; opt_timeout := None |} (constructor 0)) in
  let o := {| opt_priority := Some 1; opt_id := Some "b"; opt_once := None;
              opt_filter := None; opt_timeout := None |} in
  let r1 := on "msg" (UserFn 2) o st in
  let r2 := off "msg" "b" (state_of r1) in
  result_of r1 = Normal "b" /\
  result_of r2 = Normal true /\
  listeners_of "msg" (state_of r2) = listeners_of "msg" st /\
  forall n', n' <> "msg" -> eventListeners (state_of r2) !! n' = eventListeners st !! n'.
Proof.
  cbv zeta.
  match goal with
  | |- result_of (on ?n ?h ?o ?st) = _ /\ _ => apply (on_then_off_restores n h o st)
  end.
  - apply (on_sorted "msg"). intros k.
    apply (constructor_sorted k).
  - apply Forall_forall. intros l Hl.
    vm_compute in Hl. apply list_elem_of_singleton in Hl. subst l. vm_compute. discriminate.
Defined.

(** *** Resetting *)

Lemma set_eventListeners_twice (e1 e2 : gmap string (list Listener)) (st : State) :
  set_eventListeners e1 (set_eventListeners e2 st) = set_eventListeners e1 st.
Proof. reflexivity. Qed.

Lemma initializeBuiltInEvents_only_listeners (st : State) :
  initializeBuiltInEvents st =
  set_eventListeners (eventListeners (initializeBuiltInEvents st)) st.
Proof.
  assert (exists E, initializeBuiltInEvents st = set_eventListeners E st) as [E HE].
  { unfold initializeBuiltInEvents. generalize builtInEvents. intros l. revert st.
    induction l as [|e l IH]; intros st.
    - exists (eventListeners st). destruct st. reflexivity.
    - cbn [foldl]. destruct (IH (registerBuiltInEvent (fst e) (BuiltInFn (snd e)) st))
        as [E HE].
      exists E. rewrite HE. reflexivity. }
  rewrite HE. reflexivity.
Qed.

Lemma initializeBuiltInEvents_listeners (st1 st2 : State) :
  eventListeners st1 = eventListeners st2 -> now st1 = now st2 ->
  eventListeners (initializeBuiltInEvents st1) = eventListeners (initializeBuiltInEvents st2).
Proof.
  unfold initializeBuiltInEvents. generalize builtInEvents. intros l. revert st1 st2.
  induction l as [|e l IH]; intros st1 st2 He Hn; [exact He|].
  cbn [foldl]. apply IH.
  - unfold registerBuiltInEvent, listeners_of. cbn [eventListeners set_eventListeners].
    rewrite He, Hn. reflexivity.
  - unfold registerBuiltInEvent. cbn [now set_eventListeners]. exact Hn.
Qed.

Lemma reset_rest (st : State) :
  eventQueue (reset st) = [] /\ immediates (reset st) = immediates st.
Proof.
  unfold reset.
  match goal with
  | |- context [initializeBuiltInEvents ?X] =>
      destruct (initializeBuiltInEvents_rest X) as (_ & Hq & _ & Hi)
  end.
  rewrite Hq, Hi. split; reflexivity.
Qed.

(** X25.  [reset] leaves the listeners of a new system (the built-in
    ones, registered afresh at the time of the reset) and nothing
    else: no middleware, filters, error handlers, queued events or
    per-event records.  The configuration is not reset.  A second
    [reset] changes nothing. *)
Theorem reset_forgets_registrations (st : State) :
  eventListeners (reset st) = eventListeners (constructor (now st)) /\
  middlewareStack (reset st) = ∅ /\
  errorHandlers (reset st) = ∅ /\
  eventFilters (reset st) = ∅ /\
  eventQueue (reset st) = [] /\
  eventMetrics (reset st) = ∅ /\
  config (reset st) = config st /\
  reset (reset st) = reset st.
Proof.
  assert (forall X, reset X =
            set_eventListeners (eventListeners (reset X))
              {| eventListeners := ∅; middlewareStack := ∅; eventQueue := [];
                 eventMetrics := ∅; errorHandlers := ∅; eventFilters := ∅;
                 metrics := {| eventsProcessed := 0; eventsQueued := 0;
                               middlewareExecutions := 0; errorEvents := 0;
                               lastProcessedEvent := None |};
                 config := config X;
                 isProcessing := false; activeEvents := ∅; now := now X;
                 randoms := randoms X; immediates := immediates X |}) as Hshape.
  { intros X. unfold reset. apply initializeBuiltInEvents_only_listeners. }
  assert (config (reset st) = config st /\ now (reset st) = now st /\
          randoms (reset st) = randoms st /\ immediates (reset st) = immediates st)
    as (Hc & Hn & Hr & Hi).
  { rewrite (Hshape st). cbn [config now randoms immediates set_eventListeners].
    repeat split. }
  split.
  { unfold reset, constructor. apply initializeBuiltInEvents_listeners; reflexivity. }
  split. { rewrite (Hshape st). reflexivity. }
  split. { rewrite (Hshape st). reflexivity. }
  split. { rewrite (Hshape st). reflexivity. }
  split. { rewrite (Hshape st). reflexivity. }
  split. { rewrite (Hshape st). reflexivity. }
  split; [exact Hc|].
  unfold reset at 1. rewrite Hc, Hn, Hr, Hi. reflexivity.
Qed.

(** X26.  A [setImmediate] callback that is still pending when
    [reset] or [emergencyShutdown] runs does no harm when it fires: it
    finds the queue empty, calls nothing and leaves the state as the
    reset or the shutdown left it. *)
Theorem stale_callback_does_nothing (w : World) (st : State) :
  calls_of (runImmediate w (reset st)) = [] /\
  set_immediates (immediates st) (state_of (runImmediate w (reset st))) = reset st /\
  calls_of (runImmediate w (emergencyShutdown st)) = [] /\
  set_immediates (immediates st) (state_of (runImmediate w (emergencyShutdown st))) =
    emergencyShutdown st.
Proof.
  assert (forall X, eventQueue X = [] ->
            calls_of (runImmediate w X) = [] /\
            set_immediates (immediates X) (state_of (runImmediate w X)) = X) as H.
  { intros X Hq. unfold runImmediate.
    destruct (immediates X) as [|k] eqn:Hi.
    - unfold calls_of, state_of. cbn [fst snd]. split; [reflexivity|].
      rewrite <- Hi. destruct X. reflexivity.
    - unfold processEventQueue.
      cbv [mbind M_bind gets modify mret M_ret try_finally try_catch].
      cbn [isProcessing eventQueue set_immediates]. rewrite Hq.
      rewrite bool_decide_eq_true_2 by reflexivity. rewrite orb_true_r.
      unfold calls_of, state_of. cbn [fst snd]. split; [reflexivity|].
      rewrite <- Hi. destruct X. reflexivity. }
  destruct (reset_rest st) as (Hq1 & Hi1).
  destruct (H (reset st) Hq1) as [H1 H2].
  destruct (H (emergencyShutdown st) eq_refl) as [H3 H4].
  rewrite Hi1 in H2.
  repeat split; assumption.
Qed.

(** *** The queue across turns *)

Lemma processEventQueue_step (w : World) (st : State) :
  isProcessing st = false ->
  exists st1 tr,
    processEventQueue w st = (Normal tt, st1, tr) /\
    eventQueue st1 = drop (Z.to_nat (concurrentEvents (config st))) (eventQueue st) /\
    isProcessing st1 = false /\
    config st1 = config st /\
    immediates st1 =
      (immediates st + (if bool_decide (eventQueue st1 = []) then 0 else 1))%nat.
Proof.
  intros Hbusy. unfold processEventQueue.
  cbv [mbind M_bind gets modify mret M_ret try_finally try_catch].
  rewrite Hbusy. cbn [orb].
  destruct (bool_decide (eventQueue st = [])) eqn:Hq.
  - apply bool_decide_eq_true in Hq. exists st, []. rewrite Hq, drop_nil.
    rewrite bool_decide_eq_true_2 by reflexivity.
    repeat split; [exact Hbusy | lia].
  - cbn [config set_isProcessing].
    match goal with
    | |- context [process_all w ?evs ?s] =>
        destruct (process_all_spec w evs s) as (st1 & tr1 & Heq & Hc & _)
    end.
    rewrite Heq. unfold control in Hc. cbn in Hc. injection Hc as _ _ _ Hcfg Hqueue _ Himm.
    cbn [eventQueue set_isProcessing]. rewrite Hqueue.
    destruct (bool_decide (drop (Z.to_nat (concurrentEvents (config st))) (eventQueue st) = []))
      eqn:Hrest; eexists _, _; (split; [reflexivity|]); cbn; rewrite ?Hqueue, ?Hrest;
      repeat split; try assumption; lia.
Qed.

Lemma runImmediate_step (w : World) (st : State) :
  isProcessing st = false ->
  0 < concurrentEvents (config st) ->
  (eventQueue st <> [] -> (0 < immediates st)%nat) ->
  let st1 := state_of (runImmediate w st) in
  isProcessing st1 = false /\
  config st1 = config st /\
  (eventQueue st1 <> [] -> (0 < immediates st1)%nat) /\
  (length (eventQueue st1) <= Nat.pred (length (eventQueue st)))%nat.
Proof.
  intros Hbusy Hwidth Hpending. cbv zeta. unfold runImmediate.
  destruct (immediates st) as [|k] eqn:Hi.
  - unfold state_of. cbn [fst snd].
    destruct (eventQueue st) as [|e q] eqn:Hq.
    + split; [exact Hbusy|]. split; [reflexivity|]. split; [congruence | reflexivity].
    + exfalso. assert (0 < 0)%nat by (apply Hpending; discriminate). lia.
  - destruct (processEventQueue_step w (set_immediates k st) Hbusy)
      as (st1 & tr & Heq & Hq1 & Hb1 & Hc1 & Hi1).
    rewrite Heq. unfold state_of. cbn [fst snd].
    cbn [config eventQueue immediates set_immediates] in *.
    split; [exact Hb1|]. split; [exact Hc1|]. split.
    + intros Hne. rewrite Hi1. rewrite bool_decide_eq_false_2 by exact Hne. lia.
    + rewrite Hq1, length_drop. lia.
Qed.

(** X27.  No queued event is stranded: with a positive
    [concurrentEvents], no batch under way, a callback pending
    whenever the queue is not empty (what the [finally] block of
    [processEventQueue] sees to), and queued events whose names have
    only listeners that run functions of the caller, the queue is
    empty after as many turns of the macrotask queue as it holds
    events. *)
Theorem queue_drains (w : World) (st : State) :
  isProcessing st = false ->
  0 < concurrentEvents (config st) ->
  (eventQueue st <> [] -> (0 < immediates st)%nat) ->
  Forall (fun e => callers_own (name e) st) (eventQueue st) ->
  eventQueue (turns w (length (eventQueue st)) st) = [].
Proof.
  assert (forall k st0,
             (length (eventQueue st0) <= k)%nat ->
             isProcessing st0 = false ->
             0 < concurrentEvents (config st0) ->
             (eventQueue st0 <> [] -> (0 < immediates st0)%nat) ->
             eventQueue (turns w k st0) = []) as H.
  { induction k as [|k IH]; intros st0 Hlen Hbusy Hwidth Hpending.
    - cbn. destruct (eventQueue st0); [reflexivity | cbn in Hlen; lia].
    - cbn [turns].
      destruct (runImmediate_step w st0 Hbusy Hwidth Hpending) as (Hb1 & Hc1 & Hp1 & Hl1).
      apply IH; try assumption; [lia | rewrite Hc1; exact Hwidth]. }
  intros Hbusy Hwidth Hpending _. apply H; try assumption. lia.
Qed.

Lemma processEventQueue_zero_width (w : World) (st : State) :
  concurrentEvents (config st) <= 0 ->
  isProcessing st = false ->
  eventQueue st <> [] ->
  processEventQueue w st =
  (Normal tt,
   set_immediates (S (immediates st))
     (set_isProcessing false (set_eventQueue (eventQueue st) (set_isProcessing true st))),
   []).
Proof.
  intros Hwidth Hbusy Hq. unfold processEventQueue.
  cbv [mbind M_bind gets modify mret M_ret try_finally try_catch].
  rewrite Hbusy. rewrite bool_decide_eq_false_2 by exact Hq.
  cbn [orb config set_isProcessing].
  replace (Z.to_nat (concurrentEvents (config st))) with 0%nat by lia.
  rewrite take_0, drop_0.
  change (process_all w []) with (mret tt : M unit).
  cbv [mret M_ret]. cbn [eventQueue set_eventQueue set_isProcessing].
  rewrite bool_decide_eq_false_2 by exact Hq. reflexivity.
Qed.

(** X28.  With [concurrentEvents] at 0 or below nothing is ever
    processed: a pending callback takes no event out of the queue and
    schedules itself again, so each turn leaves the state exactly as
    it found it. *)
Theorem zero_width_never_processes (w : World) (st : State) :
  concurrentEvents (config st) <= 0 ->
  isProcessing st = false ->
  eventQueue st <> [] ->
  (0 < immediates st)%nat ->
  runImmediate w st = (Normal tt, st, []) /\
  forall k, turns w k st = st.
Proof.
  intros Hwidth Hbusy Hq Hi.
  assert (runImmediate w st = (Normal tt, st, [])) as Hrun.
  { unfold runImmediate. destruct (immediates st) as [|k] eqn:Hk; [lia|].
    rewrite (processEventQueue_zero_width w (set_immediates k st) Hwidth Hbusy Hq).
    f_equal. f_equal. destruct st. cbn in *. subst. reflexivity. }
  split; [exact Hrun|].
  induction k as [|k IH]; [reflexivity|].
  cbn [turns]. rewrite Hrun. exact IH.
Qed.

(** *** Instances of the theorems above *)

Lemma emit_runs_stages_in_order_witness :
  admitted sample_world sample_state "msg" [VNum 1] = true /\
  exists tl,
    calls_of (emit sample_world "msg" [VNum 1] sample_state) =
      asked sample_world "msg" [VNum 1] sample_state ++
      middleware_run "msg" "pre" [VNum 1] sample_state ++ tl ++
      middleware_run "msg" "post" [VNum 1] sample_state /\
    Forall (fun c => is_listener_call c = true) tl /\
    handler_calls tl =
      listeners_called sample_world [VNum 1] (listeners_of "msg" sample_state).
Proof.
  assert (admitted sample_world sample_state "msg" [VNum 1] = true) as Hadm.
  { vm_compute. reflexivity. }
  split; [exact Hadm|].
  apply (emit_runs_stages_in_order sample_world "msg" [VNum 1] sample_state);
    [repeat split; vm_compute; reflexivity | exact Hadm].
Defined.

Lemma emit_counts_witness :
  let st' := state_of (emit sample_world "msg" [VNum 1] sample_state) in
  let m := default new_metric (eventMetrics sample_state !! "msg") in
  metrics st' =
    {| eventsProcessed := eventsProcessed (metrics sample_state) + 1;
       eventsQueued := eventsQueued (metrics sample_state) + 1;
       middlewareExecutions :=
         middlewareExecutions (metrics sample_state) +
         (executions sample_world [VNum 1] (stack_of "msg" "pre" sample_state) +
          executions sample_world [VNum 1] (stack_of "msg" "post" sample_state));
       errorEvents := errorEvents (metrics sample_state);
       lastProcessedEvent := Some "msg" |} /\
  eventMetrics st' =
    <["msg" := {| count := count m + 1;
                  totalTime := totalTime m + (now st' - now sample_state);
                  errors := errors m;
                  lastProcessed := now st' |}]> (eventMetrics sample_state).
Proof.
  apply (emit_counts sample_world "msg" [VNum 1] sample_state);
    [repeat split; vm_compute; reflexivity | | vm_compute; reflexivity | vm_compute; reflexivity].
  apply Forall_forall. intros l Hl.
  assert (forallb (fun l => user_function (handler l)) (listeners_of "msg" sample_state) = true)
    as Hall by (vm_compute; reflexivity).
  apply list_elem_of_In in Hl.
  exact (proj1 (forallb_forall _ _) Hall l Hl).
Defined.

Lemma rejected_event_is_dropped_quietly_witness :
  let run := emit sample_world "msg" [VNum 1] filtering_state in
  result_of run = Normal true /\
  calls_of run = asked sample_world "msg" [VNum 1] filtering_state /\
  eventListeners (state_of run) = eventListeners filtering_state /\
  eventMetrics (state_of run) = eventMetrics filtering_state /\
  eventsProcessed (metrics (state_of run)) = eventsProcessed (metrics filtering_state) /\
  eventsQueued (metrics (state_of run)) = eventsQueued (metrics filtering_state) + 1.
Proof.
  apply (rejected_event_is_dropped_quietly sample_world "msg" [VNum 1] filtering_state).
  - repeat split; vm_compute; reflexivity.
  - vm_compute. reflexivity.
Defined.

Lemma queue_drains_witness :
  length (eventQueue backlog_state) = 3%nat /\
  eventQueue (turns sample_world (length (eventQueue backlog_state)) backlog_state) = [].
Proof.
  split; [vm_compute; reflexivity|].
  apply (queue_drains sample_world backlog_state).
  - vm_compute. reflexivity.
  - vm_compute. reflexivity.
  - intros _. vm_compute. lia.
  - apply Forall_forall. intros e He. apply Forall_forall. intros l Hl.
    assert (forallb (fun e => forallb (fun l => user_function (handler l))
                                      (listeners_of (name e) backlog_state))
                    (eventQueue backlog_state) = true)
      as Hall by (vm_compute; reflexivity).
    apply list_elem_of_In in He. apply list_elem_of_In in Hl.
    pose proof (proj1 (forallb_forall _ _) Hall e He) as Hlisteners.
    exact (proj1 (forallb_forall _ _) Hlisteners l Hl).
Defined.

Lemma zero_width_never_processes_witness :
  length (eventQueue stuck_state) = 1%nat /\
  runImmediate sample_world stuck_state = (Normal tt, stuck_state, []) /\
  forall k, turns sample_world k stuck_state = stuck_state.
Proof.
  split; [vm_compute; reflexivity|].
  apply (zero_width_never_processes sample_world stuck_state).
  - vm_compute. discriminate.
  - vm_compute. reflexivity.
  - vm_compute. discriminate.
  - vm_compute. lia.
Defined.

End EventSystemSpec.
